(** * Deep Feature Flow for detectron2: the flow colour encoder and the
      frame-pairing dataset mapper

    A shallow embedding of

    - [detectron2/utils/flow_visualizer.py]
      ([make_color_wheel], [compute_color], [flow2img],
      [visualize_sample_from_array], [visualize_sample_from_file]),
    - [projects/DFF/dff/data/dataset_mapper.py]
      ([read_image], [DFFDatasetMapper.__init__],
      [DFFDatasetMapper.from_config], [DFFDatasetMapper.__call__]), and
    - [projects/DFF/train_net.py]
      ([Trainer.build_train_loader], [Trainer.build_test_loader],
      [Trainer.test]),

    followed by the properties proved about them.

    Numbers.  A numpy [float64] is modelled by an exact rational extended
    with the IEEE special values NaN, +inf and -inf: the special values
    behave as IEEE 754 prescribes (0/0 is NaN, x/0 is an infinity, NaN
    compares false with everything), finite arithmetic is exact, and there
    is no signed zero.  The two libm functions the code calls, [np.sqrt]
    and [np.arctan2], are an interface ([Libm]) with a contract
    ([LibmSpec]).

    Arrays.  A two-dimensional numpy array is a list of rows; a trailing
    axis of length 2 or 3 is a pair or a triple.  Element-wise numpy
    expressions are [amap] and [amap2]; an assignment through a boolean mask
    is [aset_mask]. *)

From Stdlib Require Import Ascii String DecimalString ZArith QArith Qround Qabs List
  Bool Lia Lra Psatz.
Import ListNotations.

(* ================================================================== *)
(** * Part I: definitions *)
(* ================================================================== *)

(** ** Python exceptions and the error monad *)

Inductive exn : Type :=
| ValueError
| IndexError
| KeyError
| TypeError
| ZeroDivisionError
| AssertionError
| OSError
| SizeMismatchError.

Definition result (A : Type) : Type := (exn + A)%type.

Definition Ok {A} (a : A) : result A := inr a.
Definition Raise {A} (e : exn) : result A := inl e.

Definition rbind {A B} (m : result A) (k : A -> result B) : result B :=
  match m with
  | inl e => inl e
  | inr a => k a
  end.

Declare Scope result_scope.
Delimit Scope result_scope with result.
Notation "x <- m ;; k" := (rbind m (fun x => k))
  (at level 61, m at next level, right associativity) : result_scope.

(** ** numpy float64 values *)

Module Np.

Inductive float64 : Type :=
| NaN
| NInf
| Fin (q : Q)
| PInf.

Definition of_int (z : Z) : float64 := Fin (inject_Z z).

Definition Qltb (x y : Q) : bool := negb (Qle_bool y x).

Definition isnan (x : float64) : bool :=
  match x with NaN => true | _ => false end.

Definition fneg (x : float64) : float64 :=
  match x with
  | NaN => NaN
  | NInf => PInf
  | PInf => NInf
  | Fin q => Fin (- q)
  end.

Definition fabs (x : float64) : float64 :=
  match x with
  | NaN => NaN
  | NInf | PInf => PInf
  | Fin q => Fin (Qabs q)
  end.

Definition fadd (x y : float64) : float64 :=
  match x, y with
  | NaN, _ | _, NaN => NaN
  | PInf, NInf | NInf, PInf => NaN
  | PInf, _ | _, PInf => PInf
  | NInf, _ | _, NInf => NInf
  | Fin a, Fin b => Fin (a + b)
  end.

Definition fsub (x y : float64) : float64 := fadd x (fneg y).

(** The infinity of the sign of [q] (the model has one zero, a positive
    one). *)
Definition inf_like (q : Q) : float64 := if Qltb q 0 then NInf else PInf.

Definition fmul (x y : float64) : float64 :=
  match x, y with
  | NaN, _ | _, NaN => NaN
  | PInf, PInf | NInf, NInf => PInf
  | PInf, NInf | NInf, PInf => NInf
  | PInf, Fin q | Fin q, PInf => if Qeq_bool q 0 then NaN else inf_like q
  | NInf, Fin q | Fin q, NInf => if Qeq_bool q 0 then NaN else inf_like (- q)
  | Fin a, Fin b => Fin (a * b)
  end.

Definition fdiv (x y : float64) : float64 :=
  match x, y with
  | NaN, _ | _, NaN => NaN
  | (PInf | NInf), (PInf | NInf) => NaN
  | Fin _, (PInf | NInf) => Fin 0
  | PInf, Fin q => inf_like q
  | NInf, Fin q => inf_like (- q)
  | Fin a, Fin b =>
      if Qeq_bool b 0
      then (if Qeq_bool a 0 then NaN else inf_like a)
      else Fin (a / b)
  end.

(** [x ** 2] *)
Definition fpow2 (x : float64) : float64 := fmul x x.

Definition flt (x y : float64) : bool :=
  match x, y with
  | NaN, _ | _, NaN => false
  | _, NInf => false
  | NInf, _ => true
  | PInf, _ => false
  | Fin _, PInf => true
  | Fin a, Fin b => Qltb a b
  end.

Definition fle (x y : float64) : bool :=
  match x, y with
  | NaN, _ | _, NaN => false
  | NInf, _ => true
  | _, NInf => false
  | _, PInf => true
  | PInf, Fin _ => false
  | Fin a, Fin b => Qle_bool a b
  end.

Definition fgt (x y : float64) : bool := flt y x.

Definition ffloor (x : float64) : float64 :=
  match x with
  | Fin q => of_int (Qfloor q)
  | _ => x
  end.

(** Rounding toward zero, as a C cast does. *)
Definition Qtruncate (q : Q) : Z :=
  if Qltb q 0 then Qceiling q else Qfloor q.

(** [x.astype(int)]: a finite value is truncated; for NaN and the
    infinities numpy stores the most negative 64-bit integer. *)
Definition astype_int (x : float64) : Z :=
  match x with
  | Fin q => Qtruncate q
  | _ => (- 2 ^ 63)%Z
  end.

(** [np.uint8(x)]: a finite value is truncated and wrapped modulo 256.  The
    cast of NaN or an infinity is left unspecified by numpy; the model
    takes 0. *)
Definition np_uint8 (x : float64) : Z :=
  match x with
  | Fin q => (Qtruncate q mod 256)%Z
  | _ => 0%Z
  end.

(** The builtin [max(a, b)] of Python: [b] when [b > a], else [a]. *)
Definition py_max (a b : float64) : float64 := if fgt b a then b else a.

(** The builtin [min(a, b)] of Python: [b] when [b < a], else [a]. *)
Definition py_min (a b : float64) : float64 := if flt b a then b else a.

(** One step of [np.max]: NaN propagates. *)
Definition fmax (x y : float64) : float64 :=
  if isnan x then NaN else if isnan y then NaN else if flt x y then y else x.

Definition fmin (x y : float64) : float64 :=
  if isnan x then NaN else if isnan y then NaN else if flt y x then y else x.

(** [np.pi], the double nearest to pi. *)
Definition np_pi : Q := 884279719003555 # 281474976710656.

(** [np.finfo(float).eps] = 2^-52. *)
Definition np_eps : Q := 1 # 4503599627370496.

(** The libm functions numpy calls.  [sqrtQ] is the square root on finite
    non-negative values; [arctan2] takes the special values too. *)
Class Libm : Type := {
  sqrtQ : Q -> Q;
  arctan2 : float64 -> float64 -> float64
}.

(** What the theorems assume of a libm: square roots are not negative, the
    square root of zero is zero, and [arctan2] of two numbers is a number
    between [-np.pi] and [np.pi]. *)
Class LibmSpec (L : Libm) : Prop := {
  sqrtQ_nonneg : forall q, 0 <= sqrtQ q;
  sqrtQ_zero : forall q, q == 0 -> sqrtQ q == 0;
  arctan2_range :
    forall y x,
      isnan y = false -> isnan x = false ->
      exists t, arctan2 y x = Fin t /\ - np_pi <= t <= np_pi
}.

Definition fsqrt `{Libm} (x : float64) : float64 :=
  match x with
  | NaN | NInf => NaN
  | PInf => PInf
  | Fin q => if Qltb q 0 then NaN else Fin (sqrtQ q)
  end.

End Np.

(** ** numpy arrays *)

Module Nd.

Definition ndarray (A : Type) : Type := list (list A).

Definition amap {A B} (f : A -> B) (a : ndarray A) : ndarray B :=
  map (map f) a.

Fixpoint map2 {A B C} (f : A -> B -> C) (l : list A) (m : list B) : list C :=
  match l, m with
  | x :: l', y :: m' => f x y :: map2 f l' m'
  | _, _ => []
  end.

Definition amap2 {A B C} (f : A -> B -> C) (a : ndarray A) (b : ndarray B)
  : ndarray C :=
  map2 (map2 f) a b.

(** [a.shape] of a two-dimensional array. *)
Definition shape {A} (a : ndarray A) : nat * nat :=
  (length a, match a with [] => 0 | r :: _ => length r end)%nat.

(** Every row has the width the shape announces. *)
Definition rectangular {A} (a : ndarray A) : Prop :=
  Forall (fun r => length r = snd (shape a)) a.

Definition row_lengths {A} (a : ndarray A) : list nat := map (@length A) a.

Definition same_shape {A B} (a : ndarray A) (b : ndarray B) : bool :=
  if list_eq_dec Nat.eq_dec (row_lengths a) (row_lengths b) then true else false.

(** [np.zeros((h, w))] with an arbitrary fill. *)
Definition full {A} (h w : nat) (x : A) : ndarray A := repeat (repeat x w) h.

(** [a[mask] = x] *)
Definition aset_mask {A} (a : ndarray A) (mask : ndarray bool) (x : A)
  : ndarray A :=
  amap2 (fun (b : bool) y => if b then x else y) mask a.

(** [a[mask] = b[mask]], for [b] computed element-wise from [a]. *)
Definition awhere {A} (mask : ndarray bool) (b a : ndarray A) : ndarray A :=
  amap2 (fun (m : bool) (p : A * A) => if m then fst p else snd p) mask
        (amap2 pair b a).

(** Every element satisfies [P]. *)
Definition aall {A} (P : A -> Prop) (a : ndarray A) : Prop :=
  Forall (Forall P) a.

(** The element at row [i], column [j]. *)
Definition aget {A} (a : ndarray A) (i j : nat) : option A :=
  match nth_error a i with
  | Some r => nth_error r j
  | None => None
  end.

Fixpoint mapM {A B} (f : A -> result B) (l : list A) : result (list B) :=
  match l with
  | [] => Ok []
  | x :: l' =>
      (y <- f x ;; ys <- mapM f l' ;; Ok (y :: ys))%result
  end.

Definition amapM {A B} (f : A -> result B) (a : ndarray A)
  : result (ndarray B) :=
  mapM (mapM f) a.

(** [l[i]] for an integer [i], as numpy and Python index: a negative index
    counts from the end, an index outside [-n, n) raises. *)
Definition np_index {A} (l : list A) (i : Z) : result A :=
  let n := Z.of_nat (length l) in
  let j := if (i <? 0)%Z then (i + n)%Z else i in
  if ((0 <=? j) && (j <? n))%Z
  then match nth_error l (Z.to_nat j) with
       | Some x => Ok x
       | None => Raise IndexError
       end
  else Raise IndexError.

(** [tmp[ks]] for an integer array [ks]. *)
Definition take {A} (tmp : list A) (ks : ndarray Z) : result (ndarray A) :=
  amapM (np_index tmp) ks.

(** [row[n] = x] (nothing changes when [n] is past the end: the callers
    below stay in range). *)
Fixpoint list_set {A} (n : nat) (x : A) (row : list A) : list A :=
  match row, n with
  | [], _ => []
  | _ :: r, O => x :: r
  | y :: r, S n' => y :: list_set n' x r
  end.

(** [a[lo : lo + len(vals), c] = vals] *)
Fixpoint set_col {A} (a : ndarray A) (lo c : nat) (vals : list A)
  : ndarray A :=
  match a with
  | [] => []
  | row :: rest =>
      match lo with
      | S lo' => row :: set_col rest lo' c vals
      | O =>
          match vals with
          | [] => a
          | x :: vals' => list_set c x row :: set_col rest O c vals'
          end
      end
  end.

(** [a[:, c]] *)
Definition column {A} (d : A) (c : nat) (a : ndarray A) : list A :=
  map (fun row => nth c row d) a.

End Nd.

(** ** flow_visualizer.py *)

Module FlowVisualizer.
Import Np Nd.

Local Open Scope result_scope.

Definition arange (lo hi : nat) : list Z :=
  map Z.of_nat (seq lo (hi - lo)).

(** [np.floor(255 * np.arange(0, n) / n)] *)
Definition ramp (n : nat) : list float64 :=
  map (fun i => ffloor (fdiv (of_int (255 * i)) (of_int (Z.of_nat n))))
      (arange 0 n).

Definition make_color_wheel : ndarray float64 :=
  let RY := 15%nat in
  let YG := 6%nat in
  let GC := 4%nat in
  let CB := 11%nat in
  let BM := 13%nat in
  let MR := 6%nat in
  let ncols := (RY + YG + GC + CB + BM + MR)%nat in
  let colorwheel := full ncols 3 (of_int 0) in
  let col := 0%nat in
  (* RY *)
  let colorwheel := set_col colorwheel 0 0 (repeat (of_int 255) RY) in
  let colorwheel := set_col colorwheel 0 1 (ramp RY) in
  let col := (col + RY)%nat in
  (* YG *)
  let colorwheel :=
    set_col colorwheel col 0 (map (fsub (of_int 255)) (ramp YG)) in
  let colorwheel := set_col colorwheel col 1 (repeat (of_int 255) YG) in
  let col := (col + YG)%nat in
  (* GC *)
  let colorwheel := set_col colorwheel col 1 (repeat (of_int 255) GC) in
  let colorwheel := set_col colorwheel col 2 (ramp GC) in
  let col := (col + GC)%nat in
  (* CB *)
  let colorwheel :=
    set_col colorwheel col 1 (map (fsub (of_int 255)) (ramp CB)) in
  let colorwheel := set_col colorwheel col 2 (repeat (of_int 255) CB) in
  let col := (col + CB)%nat in
  (* BM *)
  let colorwheel := set_col colorwheel col 2 (repeat (of_int 255) BM) in
  let colorwheel := set_col colorwheel col 0 (ramp BM) in
  let col := (col + BM)%nat in
  (* MR *)
  let colorwheel :=
    set_col colorwheel col 2 (map (fsub (of_int 255)) (ramp MR)) in
  let colorwheel := set_col colorwheel col 0 (repeat (of_int 255) MR) in
  colorwheel.

Definition pixel : Type := (float64 * float64 * float64)%type.

(** [img[:, :, i] = chan] *)
Definition set_channel (i : nat) (img : ndarray pixel) (chan : ndarray float64)
  : ndarray pixel :=
  amap2 (fun (p : pixel) x =>
           match p, i with
           | (_, g, b), 0%nat => (x, g, b)
           | (r, _, b), 1%nat => (r, x, b)
           | (r, g, _), _ => (r, g, x)
           end) img chan.

(** [fk = (a + 1) / 2 * (ncols - 1) + 1] *)
Definition wheel_position (ncols : Z) (a : float64) : float64 :=
  fadd (fmul (fdiv (fadd a (of_int 1)) (of_int 2)) (of_int (ncols - 1)))
       (of_int 1).

(** [k1 = k0 + 1; k1[k1 == ncols + 1] = 1] *)
Definition next_index (ncols : Z) (k0 : Z) : Z :=
  let k1 := (k0 + 1)%Z in
  if (k1 =? ncols + 1)%Z then 1%Z else k1.

Section WithLibm.
Context {L : Libm}.

(** [np.sqrt(u ** 2 + v ** 2)] *)
Definition magnitude (u v : ndarray float64) : ndarray float64 :=
  amap fsqrt (amap2 fadd (amap fpow2 u) (amap fpow2 v)).

(** The body of the loop of [compute_color] for channel [i], up to the
    argument of [np.uint8]: [np.floor(255 * col * (1 - NAN_idx))]. *)
Definition channel_floor (colorwheel : ndarray float64)
    (rad f : ndarray float64) (k0 k1 : ndarray Z) (NAN_idx : ndarray bool)
    (i : nat) : result (ndarray float64) :=
  let tmp := column NaN i colorwheel in
  c0 <- take tmp (amap (fun k => (k - 1)%Z) k0) ;;
  c1 <- take tmp (amap (fun k => (k - 1)%Z) k1) ;;
  let col0 := amap (fun x => fdiv x (of_int 255)) c0 in
  let col1 := amap (fun x => fdiv x (of_int 255)) c1 in
  let col :=
    amap2 fadd (amap2 fmul (amap (fsub (of_int 1)) f) col0)
               (amap2 fmul f col1) in
  let idx := amap (fun r => fle r (of_int 1)) rad in
  let col :=
    awhere idx
      (amap2 (fun r c => fsub (of_int 1) (fmul r (fsub (of_int 1) c))) rad col)
      col in
  let notidx := amap negb idx in
  let col := awhere notidx (amap (fun c => fmul c (Fin (3 # 4))) col) col in
  Ok (amap ffloor
        (amap2 fmul (amap (fmul (of_int 255)) col)
               (amap (fun b : bool => of_int (1 - (if b then 1 else 0)))
                     NAN_idx))).

(** The angle array [a] of [compute_color], for arrays already cleared of
    NaN. *)
Definition angles (u v : ndarray float64) : ndarray float64 :=
  amap (fun x => fdiv x (Fin np_pi))
       (amap2 arctan2 (amap fneg v) (amap fneg u)).

Fixpoint fill_channels (chan : nat -> result (ndarray float64))
    (channels : list nat) (img : ndarray pixel) : result (ndarray pixel) :=
  match channels with
  | [] => Ok img
  | i :: rest =>
      c <- chan i ;;
      fill_channels chan rest
        (set_channel i img (amap (fun x => of_int (np_uint8 x)) c))
  end.

(** [compute_color(u, v)].  The two arguments must have one shape (numpy
    raises otherwise; broadcasting of unequal shapes is not modelled).  The
    function overwrites the NaN entries of its arguments; the caller below
    passes temporaries, so that store is not returned. *)
Definition compute_color (u v : ndarray float64) : result (ndarray pixel) :=
  if negb (same_shape u v) then Raise ValueError else
  let '(height, width) := shape u in
  let img := full height width (of_int 0, of_int 0, of_int 0) in
  let NAN_idx := amap2 orb (amap isnan u) (amap isnan v) in
  let u := aset_mask u NAN_idx (of_int 0) in
  let v := aset_mask v NAN_idx (of_int 0) in
  let colorwheel := make_color_wheel in
  let ncols := Z.of_nat (length colorwheel) in
  let rad := magnitude u v in
  let a := angles u v in
  let fk := amap (wheel_position ncols) a in
  let k0 := amap (fun x => astype_int (ffloor x)) fk in
  let k1 := amap (next_index ncols) k0 in
  let f := amap2 (fun x k => fsub x (of_int k)) fk k0 in
  fill_channels (channel_floor colorwheel rad f k0 k1 NAN_idx)
                (seq 0 (snd (shape colorwheel))) img.

Definition flow_field : Type := ndarray (float64 * float64).

Definition UNKNOW_FLOW_THRESHOLD : float64 := of_int 10000000.

(** [flow_data[:, :, 0]] and [flow_data[:, :, 1]]: views, read when used. *)
Definition chan_u (flow_data : flow_field) : ndarray float64 :=
  amap fst flow_data.
Definition chan_v (flow_data : flow_field) : ndarray float64 :=
  amap snd flow_data.

(** A store through the view [u] (resp. [v]) under a boolean mask lands in
    [flow_data]. *)
Definition store_u (flow_data : flow_field) (mask : ndarray bool) (x : float64)
  : flow_field :=
  amap2 (fun (b : bool) (p : float64 * float64) =>
           if b then (x, snd p) else p) mask flow_data.
Definition store_v (flow_data : flow_field) (mask : ndarray bool) (x : float64)
  : flow_field :=
  amap2 (fun (b : bool) (p : float64 * float64) =>
           if b then (fst p, x) else p) mask flow_data.

(** [np.max(a)]: raises on an empty array, propagates NaN. *)
Definition np_max (a : ndarray float64) : result float64 :=
  match concat a with
  | [] => Raise ValueError
  | x :: xs => Ok (fold_left fmax xs x)
  end.

Definition np_min (a : ndarray float64) : result float64 :=
  match concat a with
  | [] => Raise ValueError
  | x :: xs => Ok (fold_left fmin xs x)
  end.

(** [idx_unknown = (abs(u) > T) | (abs(v) > T)] *)
Definition unknown_mask (flow_data : flow_field) : ndarray bool :=
  let u := chan_u flow_data in
  let v := chan_v flow_data in
  let pr1 := amap (fun x => fgt (fabs x) UNKNOW_FLOW_THRESHOLD) u in
  let pr2 := amap (fun x => fgt (fabs x) UNKNOW_FLOW_THRESHOLD) v in
  amap2 orb pr1 pr2.

(** [maxrad = max(-1, np.max(rad))] for the already masked channels. *)
Definition max_radius (u v : ndarray float64) : result float64 :=
  let rad := magnitude u v in
  m <- np_max rad ;;
  Ok (py_max (of_int (-1)) m).

(** [flow2img(flow_data)].  The result is paired with the contents of the
    caller's array when the call ends (normally or by an exception): [u]
    and [v] are views of it, and [u[idx_unknown] = v[idx_unknown] = 0]
    writes through them. *)
Definition flow2img (flow_data : flow_field)
  : result (ndarray (Z * Z * Z)) * flow_field :=
  let idx_unknown := unknown_mask flow_data in
  let flow_data := store_u flow_data idx_unknown (of_int 0) in
  let flow_data := store_v flow_data idx_unknown (of_int 0) in
  let u := chan_u flow_data in
  let v := chan_v flow_data in
  (( (* maxu, maxv, minu, minv: computed and never used *)
     _ <- np_max u ;;
     _ <- np_max v ;;
     _ <- np_min u ;;
     _ <- np_min v ;;
     maxrad <- max_radius u v ;;
     let u := amap (fun x => fadd (fdiv x maxrad) (Fin np_eps)) u in
     let v := amap (fun x => fadd (fdiv x maxrad) (Fin np_eps)) v in
     img <- compute_color u v ;;
     let idx := amap (fun b : bool => (b, b, b)) idx_unknown in
     let img :=
       amap2 (fun (m : bool * bool * bool) (p : pixel) =>
                match m, p with
                | (m0, m1, m2), (r, g, b) =>
                    (if m0 then of_int 0 else r,
                     if m1 then of_int 0 else g,
                     if m2 then of_int 0 else b)
                end) idx img in
     Ok (amap (fun p : pixel =>
                 match p with
                 | (r, g, b) => (np_uint8 r, np_uint8 g, np_uint8 b)
                 end) img)),
   flow_data).

(** *** Vocabulary of the properties

    The element-wise form of the two functions: what they compute at one
    pixel, once the reductions over the field are known. *)

(** [(abs(u) > T) | (abs(v) > T)] at one pixel. *)
Definition is_unknown (p : float64 * float64) : bool :=
  fgt (fabs (fst p)) UNKNOW_FLOW_THRESHOLD
  || fgt (fabs (snd p)) UNKNOW_FLOW_THRESHOLD.

(** [u[idx_unknown] = v[idx_unknown] = 0] at one pixel. *)
Definition mask_pixel (p : float64 * float64) : float64 * float64 :=
  if is_unknown p then (of_int 0, of_int 0) else p.

(** [x / maxrad + np.finfo(float).eps] *)
Definition normalize (maxrad x : float64) : float64 :=
  fadd (fdiv x maxrad) (Fin np_eps).

(** The pieces of the loop body of [compute_color] at one pixel: the
    interpolated colour [col] after the blend toward white or the
    darkening, and the argument of [np.uint8]. *)
Definition pixel_col (u v : float64) (i : nat) : float64 :=
  let nan := isnan u || isnan v in
  let u := if nan then of_int 0 else u in
  let v := if nan then of_int 0 else v in
  let colorwheel := make_color_wheel in
  let ncols := Z.of_nat (length colorwheel) in
  let rad := fsqrt (fadd (fpow2 u) (fpow2 v)) in
  let a := fdiv (arctan2 (fneg v) (fneg u)) (Fin np_pi) in
  let fk := wheel_position ncols a in
  let k0 := astype_int (ffloor fk) in
  let k1 := next_index ncols k0 in
  let f := fsub fk (of_int k0) in
  let tmp := column NaN i colorwheel in
  let col0 := fdiv (nth (Z.to_nat (k0 - 1)) tmp NaN) (of_int 255) in
  let col1 := fdiv (nth (Z.to_nat (k1 - 1)) tmp NaN) (of_int 255) in
  let col := fadd (fmul (fsub (of_int 1) f) col0) (fmul f col1) in
  let idx := fle rad (of_int 1) in
  let col :=
    if idx then fsub (of_int 1) (fmul rad (fsub (of_int 1) col)) else col in
  if negb idx then fmul col (Fin (3 # 4)) else col.

Definition pixel_floor (u v : float64) (i : nat) : float64 :=
  let nan := isnan u || isnan v in
  ffloor (fmul (fmul (of_int 255) (pixel_col u v i))
               (of_int (1 - (if nan then 1 else 0)))).

(** [compute_color] at one pixel. *)
Definition encode_pixel (u v : float64) : pixel :=
  (of_int (np_uint8 (pixel_floor u v 0)),
   of_int (np_uint8 (pixel_floor u v 1)),
   of_int (np_uint8 (pixel_floor u v 2))).

(** [img[idx] = 0] at one pixel. *)
Definition blank_unknown (p : float64 * float64) (c : pixel) : pixel :=
  match c with
  | (r, g, b) =>
      if is_unknown p then (of_int 0, of_int 0, of_int 0) else (r, g, b)
  end.

(** The image of [flow2img] before the final [np.uint8], at one pixel. *)
Definition float_pixel (maxrad : float64) (p : float64 * float64) : pixel :=
  let q := mask_pixel p in
  blank_unknown p
    (encode_pixel (normalize maxrad (fst q)) (normalize maxrad (snd q))).

Definition cast_pixel (c : pixel) : Z * Z * Z :=
  match c with
  | (r, g, b) => (np_uint8 r, np_uint8 g, np_uint8 b)
  end.

(** [flow2img] at one pixel. *)
Definition out_pixel (maxrad : float64) (p : float64 * float64) : Z * Z * Z :=
  cast_pixel (float_pixel maxrad p).

(** The argument [i] of [channel_floor] as [compute_color] passes it, for
    given [u] and [v]: the arrays handed to [np.uint8] in the loop. *)
Definition color_channels (u v : ndarray float64) (i : nat)
  : result (ndarray float64) :=
  let NAN_idx := amap2 orb (amap isnan u) (amap isnan v) in
  let u := aset_mask u NAN_idx (of_int 0) in
  let v := aset_mask v NAN_idx (of_int 0) in
  let colorwheel := make_color_wheel in
  let ncols := Z.of_nat (length colorwheel) in
  let rad := magnitude u v in
  let a := angles u v in
  let fk := amap (wheel_position ncols) a in
  let k0 := amap (fun x => astype_int (ffloor x)) fk in
  let k1 := amap (next_index ncols) k0 in
  let f := amap2 (fun x k => fsub x (of_int k)) fk k0 in
  channel_floor colorwheel rad f k0 k1 NAN_idx i.

(** The arrays [u] and [v] that [flow2img] hands to [compute_color]. *)
Definition normalized_u (flow_data : flow_field) (maxrad : float64)
  : ndarray float64 :=
  amap (normalize maxrad) (chan_u (amap mask_pixel flow_data)).
Definition normalized_v (flow_data : flow_field) (maxrad : float64)
  : ndarray float64 :=
  amap (normalize maxrad) (chan_v (amap mask_pixel flow_data)).

End WithLibm.

(** [abs(x) > 1e7], read on the value: an infinity is above the threshold,
    NaN is not. *)
Definition above_threshold (x : float64) : Prop :=
  match x with
  | Fin q => 10000000 < Qabs q
  | PInf | NInf => True
  | NaN => False
  end.

(** A float that is an integer between 0 and 255. *)
Definition byte_valued (x : float64) : Prop :=
  exists z, x = of_int z /\ (0 <= z <= 255)%Z.

(** The same test on the entries of the colour wheel, as a boolean. *)
Definition is_byte (x : float64) : bool :=
  match x with
  | Fin c => Qle_bool 0 c && Qle_bool c 255
  | _ => false
  end.

Definition byte_pixel (c : pixel) : Prop :=
  match c with
  | (r, g, b) => byte_valued r /\ byte_valued g /\ byte_valued b
  end.

Definition byte_triple (c : Z * Z * Z) : Prop :=
  match c with
  | (r, g, b) => (0 <= r <= 255 /\ 0 <= g <= 255 /\ 0 <= b <= 255)%Z
  end.

(** *** A libm to run the model with

    A square root by integer square root on a 2^-40 grid, and an [arctan2]
    that answers with the compass direction of the signs of its arguments
    (the true value on the axes and on the diagonals).  It satisfies the
    contract the theorems assume of a libm, and makes the definitions above
    evaluable. *)

Definition sqrtQ_grid (q : Q) : Q :=
  let n := Qnum q in
  let d := Zpos (Qden q) in
  if (n <=? 0)%Z then 0
  else Qmake (Z.sqrt (n * d * 2 ^ 80)) (Qden q * 2 ^ 40).

Definition sign_of (x : float64) : comparison :=
  match x with
  | NInf => Lt
  | PInf => Gt
  | Fin q => q ?= 0
  | NaN => Eq
  end.

Definition arctan2_compass (y x : float64) : float64 :=
  if isnan y || isnan x then NaN else
  match sign_of y, sign_of x with
  | Eq, Lt => Fin np_pi
  | Eq, _ => Fin 0
  | Gt, Gt => Fin (np_pi * (1 # 4))
  | Gt, Eq => Fin (np_pi * (1 # 2))
  | Gt, Lt => Fin (np_pi * (3 # 4))
  | Lt, Gt => Fin (- (np_pi * (1 # 4)))
  | Lt, Eq => Fin (- (np_pi * (1 # 2)))
  | Lt, Lt => Fin (- (np_pi * (3 # 4)))
  end.

Definition grid_libm : Libm :=
  {| sqrtQ := sqrtQ_grid; arctan2 := arctan2_compass |}.

(** Sample fields: a 2 x 2 field with one unknown pixel, a field of one
    unknown and one known pixel, a field with a zero pixel beside a moving
    one, and the 2 x 2 field without motion.  In the last three every
    pixel lies on a diagonal once normalised, where [arctan2_compass] is
    the true [arctan2]. *)
Definition sample_flow : flow_field :=
  [[(of_int 1, of_int 0); (of_int 0, of_int 0)];
   [(of_int 20000000, of_int 3); (of_int (-1), Fin (1 # 2))]].

Definition unknown_then_known : flow_field :=
  [[(of_int 20000000, of_int 3); (of_int 1, of_int 1)]].

Definition moving_then_still : flow_field :=
  [[(of_int 1, of_int 1); (of_int 0, of_int 0)]].

Definition zero_flow : flow_field := full 2 2 (of_int 0, of_int 0).

End FlowVisualizer.

(** ** dataset_mapper.py *)

Module DatasetMapper.

(** An image as [read_image] returns it: an H x W x C array of bytes. *)
Definition pixels : Type := list (list (list Z)).

(** numpy arrays are objects: an image is referred to by its address in the
    heap of arrays, [image.copy()] allocates a new one, and two names may
    refer to one array. *)
Definition loc : Type := nat.
Definition heap : Type := list pixels.

Definition deref (h : heap) (l : loc) : pixels := nth l h [].
Arguments deref : simpl never.

Record annotation : Type := {
  iscrowd : option Z;            (* obj.get("iscrowd", 0) *)
  anno_fields : list (string * Z)
}.

(** The keys of a dataset dict the mapper looks at; [None] is an absent
    key. *)
Record dataset_dict : Type := {
  file_name : string;
  pattern : option string;
  frame_seg_id : option Z;
  frame_seg_len : option Z;
  annotations : option (list annotation);
  width : option Z;
  height : option Z
}.

Definition pop_pattern (d : dataset_dict) : dataset_dict :=
  {| file_name := file_name d; pattern := None;
     frame_seg_id := frame_seg_id d; frame_seg_len := frame_seg_len d;
     annotations := annotations d; width := width d; height := height d |}.

Definition with_size (d : dataset_dict) (wh : Z * Z) : dataset_dict :=
  {| file_name := file_name d; pattern := pattern d;
     frame_seg_id := frame_seg_id d; frame_seg_len := frame_seg_len d;
     annotations := annotations d;
     width := Some (fst wh); height := Some (snd wh) |}.

Definition pop_annotations (d : dataset_dict) : dataset_dict :=
  {| file_name := file_name d; pattern := pattern d;
     frame_seg_id := frame_seg_id d; frame_seg_len := frame_seg_len d;
     annotations := None; width := width d; height := height d |}.

(** The fields of [self].  The last two are the key-frame cache. *)
Record DFFDatasetMapper : Type := {
  is_train : bool;
  image_format : string;
  frame_offset_min : Z;
  frame_offset_max : Z;
  key_frame_duration : Z;
  vid_image_root : string;
  key_frame_img : option loc;
  key_frame_seg_id : option Z
}.

(** [DFFDatasetMapper.__init__] *)
Definition init (is_train : bool) (image_format : string)
    (frame_offset_min frame_offset_max key_frame_duration : Z)
    (vid_image_root : string) : DFFDatasetMapper :=
  {| is_train := is_train;
     image_format := image_format;
     frame_offset_min := frame_offset_min;
     frame_offset_max := frame_offset_max;
     key_frame_duration := key_frame_duration;
     vid_image_root := vid_image_root;
     (* For testing *)
     key_frame_img := None;
     key_frame_seg_id := None |}.

Definition set_key_frame (self : DFFDatasetMapper) (img : option loc)
    (seg_id : option Z) : DFFDatasetMapper :=
  {| is_train := is_train self;
     image_format := image_format self;
     frame_offset_min := frame_offset_min self;
     frame_offset_max := frame_offset_max self;
     key_frame_duration := key_frame_duration self;
     vid_image_root := vid_image_root self;
     key_frame_img := img;
     key_frame_seg_id := seg_id |}.

(** What a call can touch: the heap of arrays and the mapper object. *)
Record world : Type := {
  arrays : heap;
  self : DFFDatasetMapper
}.

(** A computation that may raise; the world it leaves is returned in both
    cases, since an exception does not undo the stores made before it. *)
Definition M (A : Type) : Type := world -> result A * world.

Definition ret {A} (a : A) : M A := fun w => (Ok a, w).

Definition raise {A} (e : exn) : M A := fun w => (Raise e, w).

Definition bind {A B} (m : M A) (k : A -> M B) : M B :=
  fun w =>
    match m w with
    | (inl e, w') => (inl e, w')
    | (inr a, w') => k a w'
    end.

Definition lift {A} (r : result A) : M A := fun w => (r, w).

Declare Scope mapper_scope.
Delimit Scope mapper_scope with mapper.
Notation "x <- m ;; k" := (bind m (fun x => k))
  (at level 61, m at next level, right associativity) : mapper_scope.
Notation "m ;;; k" := (bind m (fun _ => k))
  (at level 61, right associativity) : mapper_scope.

Local Open Scope mapper_scope.
Local Open Scope Z_scope.

Definition get_self : M DFFDatasetMapper := fun w => (Ok (self w), w).

Definition put_key_frame (img : option loc) (seg_id : option Z) : M unit :=
  fun w =>
    (Ok tt, {| arrays := arrays w; self := set_key_frame (self w) img seg_id |}).

(** A new array holding [px]. *)
Definition alloc (px : pixels) : M loc :=
  fun w =>
    (Ok (length (arrays w)),
     {| arrays := arrays w ++ [px]; self := self w |}).

(** [image.copy()] *)
Definition copy (image : loc) : M loc :=
  fun w => alloc (deref (arrays w) image) w.

(** [d[key]] for a key that may be absent. *)
Definition getitem {A} (v : option A) : M A :=
  match v with
  | Some a => ret a
  | None => raise KeyError
  end.

(** [assert b] *)
Definition assert (b : bool) : M unit :=
  if b then ret tt else raise AssertionError.

(** [a % b] on Python integers. *)
Definition py_mod (a b : Z) : M Z :=
  if b =? 0 then raise ZeroDivisionError else ret (a mod b).

(** [random.randint(a, b)]: [a + randbelow(b - a + 1)], an error when the
    range is empty.  [entropy] is the generator's raw output for this call;
    reduced modulo the width of the range it is what [randbelow] returns. *)
Definition randint (a b : Z) (entropy : Z) : M Z :=
  if b <? a then raise ValueError else ret (a + entropy mod (b - a + 1)).

(** The collaborators of the mapper that live outside this file: image
    decoding, the size check, string formatting, and the augmentation
    pipeline with what follows it. *)
Class Framework : Type := {
  transforms : Type;
  tensor : Type;
  instances : Type;
  (* PathManager.open + Image.open + convert_PIL_to_numpy *)
  decode_image : string -> string -> option pixels;
  (* utils.check_image_size: raises on a mismatch, else gives the width and
     height the dict holds afterwards *)
  check_image_size : dataset_dict -> pixels -> result (Z * Z);
  (* pattern.format(ref_id) *)
  format_pattern : string -> Z -> string;
  (* os.path.join *)
  path_join : string -> string -> string;
  (* self.augmentations(aug_input): the transforms, and aug_input.image *)
  augmentations : pixels -> transforms * pixels;
  apply_image : transforms -> pixels -> pixels;
  (* torch.as_tensor(np.ascontiguousarray(image.transpose(2, 0, 1))) *)
  as_tensor : pixels -> tensor;
  transform_instance_annotations :
    annotation -> transforms -> nat * nat -> annotation;
  annotations_to_instances : list annotation -> nat * nat -> instances;
  filter_empty_instances : instances -> instances
}.

Section WithFramework.
Context `{Framework}.

(** [read_image(file_name, format)] *)
Definition read_image (file_name format : string) : M loc :=
  match decode_image file_name format with
  | Some px => alloc px
  | None => raise OSError
  end.

(** [random.randint(self.frame_offset_min, self.frame_offset_max + 1)] *)
Definition draw_offset (self : DFFDatasetMapper) (entropy : Z) : M Z :=
  randint (frame_offset_min self) (frame_offset_max self + 1) entropy.

(** [min(max(frame_seg_id + offset, 0), frame_seg_len - 1)] *)
Definition clamp_ref_id (seg_id offset seg_len : Z) : Z :=
  Z.min (Z.max (seg_id + offset) 0) (seg_len - 1).

(** The training branch of [__call__]. *)
Definition call_train (dataset_dict : dataset_dict) (image_cur : loc)
    (entropy : Z) : M (DatasetMapper.dataset_dict * loc) :=
  self <- get_self ;;
  let pattern := pattern dataset_dict in
  let dataset_dict := pop_pattern dataset_dict in
  match pattern with
  | None =>
      (* DET set *)
      image_ref <- copy image_cur ;;
      ret (dataset_dict, image_ref)
  | Some pattern =>
      (* VID set *)
      offset <- draw_offset self entropy ;;
      seg_id <- getitem (frame_seg_id dataset_dict) ;;
      seg_len <- getitem (frame_seg_len dataset_dict) ;;
      let ref_id := clamp_ref_id seg_id offset seg_len in
      let ref_file_name :=
        path_join (vid_image_root self) (format_pattern pattern ref_id) in
      image_ref <- read_image ref_file_name (image_format self) ;;
      ret (dataset_dict, image_ref)
  end.

(** The inference branch of [__call__]. *)
Definition call_test (dataset_dict : dataset_dict) (image_cur : loc)
  : M (DatasetMapper.dataset_dict * loc) :=
  let dataset_dict := pop_annotations dataset_dict in
  frame_seg_id <- getitem (frame_seg_id dataset_dict) ;;
  self <- get_self ;;
  r <- py_mod frame_seg_id (key_frame_duration self) ;;
  image_ref <-
    (if r =? 0 then
       image_ref <- copy image_cur ;;
       key <- copy image_cur ;;
       put_key_frame (Some key) (Some frame_seg_id) ;;;
       ret image_ref
     else
       match key_frame_img self with
       | None => raise AssertionError
       | Some key =>
           match key_frame_seg_id self with
           | None => raise TypeError
           | Some key_id =>
               assert ((0 <? frame_seg_id - key_id)
                       && (frame_seg_id - key_id <? key_frame_duration self)) ;;;
               ret key
           end
       end) ;;
  seg_len <- getitem (frame_seg_len dataset_dict) ;;
  (if frame_seg_id + 1 =? seg_len
   then put_key_frame None None
   else ret tt) ;;;
  ret (dataset_dict, image_ref).

(** [__call__] down to the choice of the reference frame: the current
    image is read and checked, then the branch of the mode runs. *)
Definition pair_frames (dataset_dict : dataset_dict) (entropy : Z)
  : M (DatasetMapper.dataset_dict * loc * loc) :=
  self <- get_self ;;
  image_cur <- read_image (file_name dataset_dict) (image_format self) ;;
  px <- (fun w => (Ok (deref (arrays w) image_cur), w)) ;;
  wh <- lift (check_image_size dataset_dict px) ;;
  let dataset_dict := with_size dataset_dict wh in
  r <- (if is_train self
        then call_train dataset_dict image_cur entropy
        else call_test dataset_dict image_cur) ;;
  ret (fst r, image_cur, snd r).

(** What [__call__] returns: the dict with the two tensors and, when there
    are annotations, the instances. *)
Record mapped : Type := {
  out_dict : dataset_dict;
  out_image_cur : tensor;
  out_image_ref : tensor;
  out_instances : option instances
}.

Definition image_shape (px : pixels) : nat * nat :=
  (length px, match px with [] => 0%nat | r :: _ => length r end).

(** [DFFDatasetMapper.__call__] *)
Definition call (dataset_dict : dataset_dict) (entropy : Z) : M mapped :=
  r <- pair_frames dataset_dict entropy ;;
  let '(dataset_dict, image_cur, image_ref) := r in
  ref_px <- (fun w => (Ok (deref (arrays w) image_ref), w)) ;;
  cur_px <- (fun w => (Ok (deref (arrays w) image_cur), w)) ;;
  wh <- lift (check_image_size dataset_dict ref_px) ;;
  let dataset_dict := with_size dataset_dict wh in
  (* do data augmentations *)
  let '(tfm, cur_px) := augmentations cur_px in
  let ref_px := apply_image tfm ref_px in
  let shape := image_shape cur_px in
  let annos :=
    option_map
      (fun objs =>
         map (fun obj => transform_instance_annotations obj tfm shape)
             (filter (fun obj =>
                        match iscrowd obj with
                        | Some c => c =? 0
                        | None => true
                        end) objs))
      (annotations dataset_dict) in
  ret {| out_dict := pop_annotations dataset_dict;
         out_image_cur := as_tensor cur_px;
         out_image_ref := as_tensor ref_px;
         out_instances :=
           option_map
             (fun a => filter_empty_instances (annotations_to_instances a shape))
             annos |}.

(** A run of calls on one mapper object: each call starts in the world the
    previous one left, whether it returned or raised.  The trace keeps the
    outcome of every call with the world it left. *)
Fixpoint trace {A} (f : dataset_dict -> Z -> M A)
    (calls : list (dataset_dict * Z)) (w : world)
  : list (result A * world) :=
  match calls with
  | [] => []
  | (d, entropy) :: rest =>
      let r := f d entropy w in
      r :: trace f rest (snd r)
  end.

(** The world in which each call of a trace starts. *)
Definition worlds_before {A} (w : world) (tr : list (result A * world))
  : list world :=
  w :: map snd tr.

End WithFramework.

(** *** Vocabulary of the properties *)

(** The most recent multiple of [D] at or before index [i]. *)
Definition key_index (D : Z) (i : nat) : nat :=
  Z.to_nat (D * (Z.of_nat i / D)).

(** The cache, when it holds an image, holds the index of a key frame. *)
Definition cache_inv (s : DFFDatasetMapper) : Prop :=
  forall l,
    key_frame_img s = Some l ->
    exists k,
      key_frame_seg_id s = Some k
      /\ key_frame_duration s <> 0
      /\ k mod key_frame_duration s = 0.

(** The calls for frames [i], [i + 1], ..., [i + m - 1], in that order. *)
Definition feed (frame : nat -> dataset_dict) (entropy : Z) (i m : nat)
  : list (dataset_dict * Z) :=
  map (fun j => (frame j, entropy)) (seq i m).

Section SequenceVocabulary.
Variables (D : Z) (fmt : string) (content : nat -> pixels).

(** A mapper about to be given frame [i] of a sequence fed in order: it is
    in inference mode, and unless [i] is itself a key frame the cache holds
    the pixels and the index of the most recent key frame. *)
Definition in_sequence (i : nat) (w : world) : Prop :=
  is_train (self w) = false
  /\ key_frame_duration (self w) = D
  /\ image_format (self w) = fmt
  /\ (Z.of_nat i mod D <> 0 ->
      exists key,
        key_frame_img (self w) = Some key
        /\ key_frame_seg_id (self w) = Some (D * (Z.of_nat i / D))
        /\ (key < length (arrays w))%nat
        /\ deref (arrays w) key = content (key_index D i)).

(** The outcome [r] of the call for frame [i], started in world [wb]: it
    returned; the current image is a new array holding frame [i] and the
    reference image holds the most recent key frame; at a key frame the
    reference image is another new array; elsewhere it is the very array
    the cache held when the call started (an array older than the call),
    cached under the index of the most recent key frame. *)
Definition paired_at (i : nat) (wb : world)
    (r : result (dataset_dict * loc * loc) * world) : Prop :=
  exists dd cur ref wa,
    r = (Ok (dd, cur, ref), wa)
    /\ cur = length (arrays wb)
    /\ deref (arrays wa) cur = content i
    /\ deref (arrays wa) ref = content (key_index D i)
    /\ (Z.of_nat i mod D = 0 ->
        key_index D i = i
        /\ ref <> cur
        /\ (length (arrays wb) <= ref)%nat)
    /\ (Z.of_nat i mod D <> 0 ->
        key_frame_img (self wb) = Some ref
        /\ key_frame_seg_id (self wb) = Some (Z.of_nat (key_index D i))
        /\ (ref < length (arrays wb))%nat).

End SequenceVocabulary.

(** *** A framework to run the model with

    Five one-pixel video frames [vid/0] ... [vid/4] and a still image
    [det.jpg]; no augmentation. *)

Definition toy_files : list (string * pixels) :=
  [("vid/0", [[[10]]]); ("vid/1", [[[11]]]); ("vid/2", [[[12]]]);
   ("vid/3", [[[13]]]); ("vid/4", [[[14]]]); ("det.jpg", [[[7]]])]%string.

Fixpoint lookup_file (name : string) (files : list (string * pixels))
  : option pixels :=
  match files with
  | [] => None
  | (n, px) :: rest => if String.eqb n name then Some px else lookup_file name rest
  end.

Definition toy_framework : Framework :=
  {| transforms := unit;
     tensor := pixels;
     instances := list annotation;
     decode_image := fun name _ => lookup_file name toy_files;
     check_image_size := fun _ _ => Ok (1, 1);
     format_pattern := fun p id =>
       (p ++ NilEmpty.string_of_uint (Nat.to_uint (Z.to_nat id)))%string;
     path_join := fun a b => (a ++ "/" ++ b)%string;
     augmentations := fun px => (tt, px);
     apply_image := fun _ px => px;
     as_tensor := fun px => px;
     transform_instance_annotations := fun a _ _ => a;
     annotations_to_instances := fun a _ => a;
     filter_empty_instances := fun a => a |}.

(** Frame [i] of the toy video, as the dataset lists it. *)
Definition toy_frame (seg_len : Z) (i : nat) : dataset_dict :=
  {| file_name :=
       ("vid/" ++ NilEmpty.string_of_uint (Nat.to_uint i))%string;
     pattern := Some ""%string;
     frame_seg_id := Some (Z.of_nat i);
     frame_seg_len := Some seg_len;
     annotations := None;
     width := None;
     height := None |}.

Definition toy_content (i : nat) : pixels := [[[10 + Z.of_nat i]]].

Definition toy_still : dataset_dict :=
  {| file_name := "det.jpg"%string;
     pattern := None;
     frame_seg_id := None;
     frame_seg_len := None;
     annotations := None;
     width := None;
     height := None |}.

End DatasetMapper.

(** ** flow_visualizer.py: the two display helpers *)

Module Visualize.
Import Np Nd FlowVisualizer.

Local Open Scope result_scope.

(** An image as OpenCV and [read_image] hand it over: H x W x 3 bytes. *)
Definition image : Type := ndarray (Z * Z * Z).

(** [str.upper()] on the ASCII letters.  (Python also maps letters outside
    ASCII; none of them maps to R, G or B, so the test below does not see
    the difference.) *)
Definition ascii_upper (c : ascii) : ascii :=
  let n := nat_of_ascii c in
  if ((97 <=? n) && (n <=? 122))%nat then ascii_of_nat (n - 32) else c.

Fixpoint upper (s : string) : string :=
  match s with
  | EmptyString => EmptyString
  | String c s' => String (ascii_upper c) (upper s')
  end.

(** [img[:, :, ::-1]] *)
Definition reverse_channels (img : image) : image :=
  amap (fun p : Z * Z * Z => match p with (a, b, c) => (c, b, a) end) img.

(** [np.concatenate([a, b, c], axis=0)]: the rows one after the other; the
    arrays must agree on the width. *)
Definition concatenate0 {A} (a b c : ndarray A) : result (ndarray A) :=
  if (snd (shape a) =? snd (shape b))%nat && (snd (shape b) =? snd (shape c))%nat
  then Ok (a ++ b ++ c)
  else Raise ValueError.

(** What the helper did with the stacked image: [cv2.imwrite(name, img)], or
    [cv2.imshow(title, img)] until a key is pressed. *)
Inductive shown : Type :=
| Written (name : string) (img : image)
| Displayed (title : string) (img : image).

Definition shape_eqb (s t : nat * nat) : bool :=
  ((fst s =? fst t) && (snd s =? snd t))%nat.

Section WithLibm.
Context {L : Libm}.

(** [visualize_sample_from_array(image1, image2, flow_map, img_format, save)].
    The second component is the caller's [flow_map] array when the call
    ends. *)
Definition visualize_sample_from_array (image1 image2 : image)
    (flow_map : flow_field) (img_format : string) (save : bool)
  : result shown * flow_field :=
  let img_format := upper img_format in
  if negb (String.eqb img_format "RGB" || String.eqb img_format "BGR")
  then (Raise AssertionError, flow_map)
  else if negb (shape_eqb (shape image1) (shape image2)
                && shape_eqb (shape image2) (shape flow_map))
  then (Raise AssertionError, flow_map)
  else
    let '(r, flow_data) := flow2img flow_map in
    ((flow_map <- r ;;
      let '(image1, image2, flow_map) :=
        if String.eqb img_format "RGB"
        then (reverse_channels image1, reverse_channels image2,
              reverse_channels flow_map)
        else (image1, image2, flow_map) in
      img <- concatenate0 image1 image2 flow_map ;;
      Ok (if save
          then Written "visualize_sample_from_array.jpg" img
          else Displayed "visualize_sample_from_array" img)),
     flow_data).

(** [visualize_sample_from_file(image_file1, image_file2, flow_map_file,
    save)], with the two readers it calls; the first component is what it
    prints. *)
Definition visualize_sample_from_file
    (read_image : string -> string -> result image)
    (read_flow : string -> result flow_field)
    (image_file1 image_file2 flow_map_file : string) (save : bool)
  : list string * result shown :=
  (["sample infos:";
    "  image file 1: " ++ image_file1;
    "  image file 2: " ++ image_file2;
    "  flow map file: " ++ flow_map_file]%string,
   image1 <- read_image image_file1 "BGR"%string ;;
   image2 <- read_image image_file2 "BGR"%string ;;
   flow <- read_flow flow_map_file ;;
   flow_map <- fst (flow2img flow) ;;
   img <- concatenate0 image1 image2 flow_map ;;
   Ok (if save
       then Written "visualize_sample_from_file.jpg" img
       else Displayed "visualize_sample_from_file" img)).

End WithLibm.

(** Two 2 x 2 images to go with [sample_flow]. *)
Definition sample_image1 : image :=
  [[(1, 2, 3); (4, 5, 6)]; [(7, 8, 9); (10, 11, 12)]]%Z.
Definition sample_image2 : image :=
  [[(21, 22, 23); (24, 25, 26)]; [(27, 28, 29); (30, 31, 32)]]%Z.

(** Readers for the helper that works from files: three image files and one
    flow file. *)
Definition narrow_image : image := [[(0, 0, 0)]; [(9, 9, 9)]]%Z.

Definition toy_read_image (file_name format : string) : result image :=
  if String.eqb file_name "short.jpg" then Ok sample_image1
  else if String.eqb file_name "tall.jpg" then Ok (sample_image1 ++ sample_image2)
  else if String.eqb file_name "narrow.jpg" then Ok narrow_image
  else Raise OSError.

Definition toy_read_flow (file_name : string) : result flow_field :=
  if String.eqb file_name "sample.flo" then Ok sample_flow else Raise OSError.

End Visualize.

(** ** dataset_mapper.py: [from_config]; train_net.py: the loaders and
    [Trainer.test] *)

Module Setup.
Import DatasetMapper.

Local Open Scope result_scope.

(** [sub in s] on strings. *)
Fixpoint contains (sub s : string) : bool :=
  if String.prefix sub s then true
  else match s with
       | EmptyString => false
       | String _ s' => contains sub s'
       end.

(** The entries of the configuration that the mapper and [Trainer.test]
    read.  A config node is an object: [Trainer.test] changes it in
    place. *)
Record cfg : Type := {
  DATASETS_TRAIN : list string;
  INPUT_FORMAT : string;
  INPUT_CROP_ENABLED : bool;
  INPUT_CROP_TYPE : string;
  INPUT_CROP_SIZE : list Q;
  FRAME_OFFSET_RANGE : list Z;
  KEY_FRAME_DURATION : Z;
  DATALOADER_NUM_WORKERS : Z;
  is_frozen : bool
}.

Definition set_frozen (c : cfg) (b : bool) : cfg :=
  {| DATASETS_TRAIN := DATASETS_TRAIN c; INPUT_FORMAT := INPUT_FORMAT c;
     INPUT_CROP_ENABLED := INPUT_CROP_ENABLED c;
     INPUT_CROP_TYPE := INPUT_CROP_TYPE c;
     INPUT_CROP_SIZE := INPUT_CROP_SIZE c;
     FRAME_OFFSET_RANGE := FRAME_OFFSET_RANGE c;
     KEY_FRAME_DURATION := KEY_FRAME_DURATION c;
     DATALOADER_NUM_WORKERS := DATALOADER_NUM_WORKERS c;
     is_frozen := b |}.

Definition set_num_workers (c : cfg) (n : Z) : cfg :=
  {| DATASETS_TRAIN := DATASETS_TRAIN c; INPUT_FORMAT := INPUT_FORMAT c;
     INPUT_CROP_ENABLED := INPUT_CROP_ENABLED c;
     INPUT_CROP_TYPE := INPUT_CROP_TYPE c;
     INPUT_CROP_SIZE := INPUT_CROP_SIZE c;
     FRAME_OFFSET_RANGE := FRAME_OFFSET_RANGE c;
     KEY_FRAME_DURATION := KEY_FRAME_DURATION c;
     DATALOADER_NUM_WORKERS := n;
     is_frozen := is_frozen c |}.

(** The keyword arguments [from_config] returns for [__init__]. *)
Record mapper_args (augmentation : Type) : Type := {
  arg_is_train : bool;
  arg_augmentations : list augmentation;
  arg_image_format : string;
  arg_frame_offset_min : Z;
  arg_frame_offset_max : Z;
  arg_key_frame_duration : Z;
  arg_vid_image_root : string
}.
Arguments arg_is_train {augmentation}.
Arguments arg_augmentations {augmentation}.
Arguments arg_image_format {augmentation}.
Arguments arg_frame_offset_min {augmentation}.
Arguments arg_frame_offset_max {augmentation}.
Arguments arg_key_frame_duration {augmentation}.
Arguments arg_vid_image_root {augmentation}.

Section WithCatalog.
(** [utils.build_augmentation], [T.RandomCrop] and
    [MetadataCatalog.get(name).img_dir] come from the framework. *)
Variable augmentation : Type.
Variable build_augmentation : cfg -> bool -> list augmentation.
Variable RandomCrop : string -> list Q -> augmentation.
Variable img_dir : string -> result string.

(** The loop over [cfg.DATASETS.TRAIN]: the root of the last name that
    contains "vid". *)
Fixpoint find_vid_root (names : list string) (root : option string)
  : result (option string) :=
  match names with
  | [] => Ok root
  | set_name :: rest =>
      if contains "vid" set_name
      then r <- img_dir set_name ;; find_vid_root rest (Some r)
      else find_vid_root rest root
  end.

(** [DFFDatasetMapper.from_config(cfg, is_train)] *)
Definition from_config (c : cfg) (is_train : bool)
  : result (mapper_args augmentation) :=
  let augs := build_augmentation c is_train in
  let augs :=
    if INPUT_CROP_ENABLED c && is_train
    then RandomCrop (INPUT_CROP_TYPE c) (INPUT_CROP_SIZE c) :: augs
    else augs in
  vid_image_root <- find_vid_root (DATASETS_TRAIN c) None ;;
  match vid_image_root with
  | None => Raise AssertionError
  | Some vid_image_root =>
      omin <- Nd.np_index (FRAME_OFFSET_RANGE c) 0 ;;
      omax <- Nd.np_index (FRAME_OFFSET_RANGE c) 1 ;;
      Ok {| arg_is_train := is_train;
            arg_augmentations := augs;
            arg_image_format := INPUT_FORMAT c;
            arg_frame_offset_min := omin;
            arg_frame_offset_max := omax;
            arg_key_frame_duration := KEY_FRAME_DURATION c;
            arg_vid_image_root := vid_image_root |}
  end.

(** [DFFDatasetMapper(cfg, is_train)]: [from_config], then [__init__] on
    what it returns.  The mapper comes with the augmentations its
    [AugmentationList] wraps. *)
Definition new_mapper (c : cfg) (is_train : bool)
  : result (DFFDatasetMapper * list augmentation) :=
  a <- from_config c is_train ;;
  Ok (init (arg_is_train a) (arg_image_format a) (arg_frame_offset_min a)
           (arg_frame_offset_max a) (arg_key_frame_duration a)
           (arg_vid_image_root a),
      arg_augmentations a).

(** The mappers of [Trainer.build_train_loader] and
    [Trainer.build_test_loader]. *)
Definition train_loader_mapper (c : cfg) := new_mapper c true.
Definition test_loader_mapper (c : cfg) := new_mapper c false.

End WithCatalog.

Section WithEvaluation.
(** [super().test(cfg, model, evaluators)]: it reads the config and
    returns results or raises. *)
Variable results : Type.
Variable evaluate : cfg -> result results.

Definition show_int (z : Z) : string := NilZero.string_of_int (Z.to_int z).

(** The config [Trainer.test] hands to the evaluation. *)
Definition evaluation_cfg (c : cfg) : cfg :=
  if (DATALOADER_NUM_WORKERS c =? 0)%Z then c
  else set_frozen (set_num_workers (set_frozen c false) 0) true.

(** [Trainer.test(cfg, model, evaluators)]: what it returns (nothing), the
    config afterwards, and the warnings it logs. *)
Definition test (c : cfg) : result unit * cfg * list string :=
  let num_workers := DATALOADER_NUM_WORKERS c in
  let before :=
    if (num_workers =? 0)%Z then []
    else [("Now perform evaluation, but the number of data loader's workers is "
           ++ show_int num_workers ++ ", change to 0.")%string] in
  let c := evaluation_cfg c in
  match evaluate c with
  | inl e => (Raise e, c, before)
  | inr _ =>
      if (num_workers =? 0)%Z then (Ok tt, c, before)
      else
        (Ok tt,
         set_frozen (set_num_workers (set_frozen c false) num_workers) true,
         before
         ++ [("Evaluation done, change the number of data loader's workers "
              ++ "back to " ++ show_int num_workers ++ ".")%string])
  end.

End WithEvaluation.

(** A catalog and a config to run the model with. *)
Definition toy_img_dir (name : string) : result string :=
  if String.eqb name "vid_train" then Ok "data/vid"%string
  else if String.eqb name "vid_extra" then Ok "data/extra"%string
  else Raise KeyError.

Definition toy_cfg : cfg :=
  {| DATASETS_TRAIN := ["vid_extra"; "det_train"; "vid_train"; "coco"]%string;
     INPUT_FORMAT := "BGR"%string;
     INPUT_CROP_ENABLED := true;
     INPUT_CROP_TYPE := "relative"%string;
     INPUT_CROP_SIZE := [9 # 10; 9 # 10];
     FRAME_OFFSET_RANGE := [-9; 0]%Z;
     KEY_FRAME_DURATION := 10;
     DATALOADER_NUM_WORKERS := 4;
     is_frozen := true |}.

Inductive toy_augmentation : Type :=
| ToyCrop (crop_type : string) (crop_size : list Q)
| ToyResize
| ToyFlip.

Definition toy_build_augmentation (c : cfg) (is_train : bool)
  : list toy_augmentation :=
  if is_train then [ToyResize; ToyFlip] else [ToyResize].

Definition toy_cfg_without_vid : cfg :=
  {| DATASETS_TRAIN := ["coco_2017_train"]%string;
     INPUT_FORMAT := "BGR"%string;
     INPUT_CROP_ENABLED := false;
     INPUT_CROP_TYPE := "relative"%string;
     INPUT_CROP_SIZE := [9 # 10; 9 # 10];
     FRAME_OFFSET_RANGE := [-9; 0]%Z;
     KEY_FRAME_DURATION := 10;
     DATALOADER_NUM_WORKERS := 4;
     is_frozen := true |}.

(** An evaluation that needs the frames in order, which several workers do
    not give. *)
Definition toy_evaluate (c : cfg) : result unit :=
  if (DATALOADER_NUM_WORKERS c =? 0)%Z then Ok tt else Raise OSError.

End Setup.

(** ** Vocabulary and sample data of the further properties *)

Module MapperVocabulary.
Import DatasetMapper.
Local Open Scope Z_scope.

(** The fields of [self] that [__init__] sets from the configuration. *)
Definition same_config (s s' : DFFDatasetMapper) : Prop :=
  is_train s' = is_train s
  /\ image_format s' = image_format s
  /\ frame_offset_min s' = frame_offset_min s
  /\ frame_offset_max s' = frame_offset_max s
  /\ key_frame_duration s' = key_frame_duration s
  /\ vid_image_root s' = vid_image_root s.

(** A key frame whose record lacks [frame_seg_len], a frame with three
    annotations (the first a crowd), and the state after frame 0 of the toy
    video was mapped with [key_frame_duration = 2]. *)
Definition toy_frame_no_len : dataset_dict :=
  {| file_name := "vid/0"%string;
     pattern := Some ""%string;
     frame_seg_id := Some 0;
     frame_seg_len := None;
     annotations := None;
     width := None;
     height := None |}.

Definition toy_annotated : dataset_dict :=
  {| file_name := "vid/0"%string;
     pattern := Some ""%string;
     frame_seg_id := Some 0;
     frame_seg_len := Some 5;
     annotations :=
       Some [{| iscrowd := Some 1; anno_fields := [("category_id"%string, 3)] |};
             {| iscrowd := None; anno_fields := [("category_id"%string, 1)] |};
             {| iscrowd := Some 0; anno_fields := [("category_id"%string, 2)] |}];
     width := None;
     height := None |}.

Definition toy_cached : world :=
  {| arrays := [toy_content 0; toy_content 0; toy_content 0];
     self := set_key_frame (init false "BGR" (-9) 0 2 "vid")
                           (Some 2%nat) (Some 0) |}.

End MapperVocabulary.

Module FlowSamples.
Import Np Nd FlowVisualizer.

(** A field of two rows without pixels, a field with a NaN component, and
    two channels with NaN and infinity. *)
Definition empty_rows : flow_field := [[]; []].

Definition nan_flow : flow_field :=
  [[(NaN, of_int 1); (of_int 1, of_int 1)]].

Definition nan_u : ndarray float64 := [[of_int 1; NaN]].
Definition nan_v : ndarray float64 := [[PInf; of_int 0]].

End FlowSamples.

(* ================================================================== *)
(** * Part II: properties *)
(* ================================================================== *)

(** ** The frame-pairing scheduler *)

Module MapperFacts.
Import DatasetMapper.

Local Open Scope Z_scope.

Ltac unfold_mapper :=
  unfold call_train, call_test, draw_offset, randint, py_mod, getitem, assert,
    put_key_frame, copy, alloc, read_image, get_self, lift, bind, ret, raise.

(** Destructs the scrutinee of the innermost [match] of the goal. *)
Ltac case_split :=
  match goal with
  | |- context [match ?x with _ => _ end] =>
      lazymatch x with
      | context [match _ with _ => _ end] => fail
      | _ => destruct x eqn:?
      end
  end.

Lemma deref_new (h : heap) (px : pixels) :
  deref (h ++ [px]) (length h) = px.
Proof.
  unfold deref. rewrite app_nth2 by lia. now rewrite Nat.sub_diag.
Qed.

Lemma deref_old (h h' : heap) (l : loc) :
  (l < length h)%nat -> deref (h ++ h') l = deref h l.
Proof.
  intros Hl. unfold deref. now rewrite app_nth1.
Qed.

Lemma deref_second (h : heap) (a b : pixels) :
  deref ((h ++ [a]) ++ [b]) (length h) = a.
Proof.
  rewrite deref_old by (rewrite length_app; cbn; lia). apply deref_new.
Qed.

Lemma deref_next (h : heap) (a b : pixels) :
  deref ((h ++ [a]) ++ [b]) (S (length h)) = b.
Proof.
  replace (S (length h)) with (length (h ++ [a]))
    by (rewrite length_app; cbn; lia).
  apply deref_new.
Qed.

(** Going from a non-key index to the next index stays within the same
    key-frame period unless the next index is a key frame. *)
Lemma same_period (D i : Z) :
  0 < D -> 0 <= i -> (i + 1) mod D <> 0 -> (i + 1) / D = i / D.
Proof.
  intros HD Hi Hnext.
  pose proof (Z.div_mod i D ltac:(lia)) as Hdm.
  pose proof (Z.mod_pos_bound i D HD) as Hr.
  symmetry. apply Z.div_unique with (r := i mod D + 1); [|lia].
  left. split; [lia|].
  assert (Hne : i mod D + 1 <> D).
  { intros Heq. apply Hnext.
    replace (i + 1) with (D * (i / D + 1)) by lia.
    rewrite Z.mul_comm. apply Z_mod_mult. }
  lia.
Qed.

Section WithFramework.
Context `{Framework}.

(** The tail of [__call__] (size check, augmentation, tensors) leaves the
    world as [pair_frames] left it. *)
Lemma call_world (d : dataset_dict) (entropy : Z) (w : world) :
  snd (call d entropy w) = snd (pair_frames d entropy w).
Proof.
  unfold call, bind, lift.
  destruct (pair_frames d entropy w) as [[e | [[dd cur] ref]] w']; cbn;
    [reflexivity|].
  destruct (check_image_size dd (deref (arrays w') ref)); cbn;
    [reflexivity|].
  destruct (augmentations (deref (arrays w') cur)); reflexivity.
Qed.

(** When the pairing raises, so does the whole call. *)
Lemma call_raises (d : dataset_dict) (entropy : Z) (w w' : world) (e : exn) :
  pair_frames d entropy w = (Raise e, w') ->
  call d entropy w = (Raise e, w').
Proof.
  intros Hp. unfold call, bind. now rewrite Hp.
Qed.

(** What [__call__] returns once the frames are paired: the transform
    drawn for the current image, applied to both images as they were
    paired. *)
Lemma call_after_pairing (d dd : dataset_dict) (entropy : Z) (w w' : world)
    (cur ref : loc) (wh : Z * Z) :
  pair_frames d entropy w = (Ok (dd, cur, ref), w') ->
  check_image_size dd (deref (arrays w') ref) = Ok wh ->
  exists out,
    call d entropy w = (Ok out, w')
    /\ out_image_cur out
       = as_tensor (snd (augmentations (deref (arrays w') cur)))
    /\ out_image_ref out
       = as_tensor (apply_image (fst (augmentations (deref (arrays w') cur)))
                                (deref (arrays w') ref)).
Proof.
  intros Hpair Hchk. unfold call, bind, lift. rewrite Hpair. cbn.
  rewrite Hchk. cbn.
  destruct (augmentations (deref (arrays w') cur)) as [tfm px]. cbn.
  eexists. split; [reflexivity|]. cbn. now split.
Qed.

(** C7.  In training mode, for a record without [pattern], the reference
    image is a new array with the pixels of the current image as it was
    read, before any augmentation: [pair_frames] returns two distinct new
    arrays, both holding the decoded file, and touches nothing else; the
    tensors [__call__] returns are then one transform applied to those same
    pixels. *)
Theorem still_image_ref_is_copy (d : dataset_dict) (entropy : Z) (w : world)
    (px : pixels) (wh wh' : Z * Z) :
  is_train (self w) = true ->
  pattern d = None ->
  decode_image (file_name d) (image_format (self w)) = Some px ->
  check_image_size d px = Ok wh ->
  check_image_size (pop_pattern (with_size d wh)) px = Ok wh' ->
  let cur := length (arrays w) in
  let ref := S cur in
  let w' := {| arrays := (arrays w ++ [px]) ++ [px]; self := self w |} in
  pair_frames d entropy w = (Ok (pop_pattern (with_size d wh), cur, ref), w')
  /\ cur <> ref
  /\ deref (arrays w') cur = px
  /\ deref (arrays w') ref = px
  /\ (forall l, (l < length (arrays w))%nat ->
        l <> ref /\ deref (arrays w') l = deref (arrays w) l)
  /\ exists out,
       call d entropy w = (Ok out, w')
       /\ out_image_cur out = as_tensor (snd (augmentations px))
       /\ out_image_ref out = as_tensor (apply_image (fst (augmentations px)) px).
Proof.
  intros Htrain Hpat Hdec Hchk Hchk' cur ref w'.
  assert (Hpair :
    pair_frames d entropy w = (Ok (pop_pattern (with_size d wh), cur, ref), w')).
  { unfold pair_frames. unfold_mapper. cbn. rewrite Hdec. cbn.
    rewrite deref_new, Hchk. cbn. rewrite Htrain. unfold_mapper. cbn.
    rewrite Hpat. cbn. rewrite deref_new, length_app. cbn.
    subst cur ref w'. now rewrite Nat.add_1_r. }
  split; [exact Hpair|].
  split; [subst cur ref; lia|].
  split; [apply deref_second|].
  split; [apply deref_next|].
  split.
  - intros l Hl. split; [subst ref cur; lia|].
    cbn. rewrite <- app_assoc. now apply deref_old.
  - unfold call, bind, lift. rewrite Hpair. cbn.
    subst cur ref. rewrite deref_next, deref_second, Hchk'. cbn.
    destruct (augmentations px) as [tfm px'] eqn:Haug. cbn.
    eexists. split; [reflexivity|]. cbn. now split.
Qed.

(** C4.  In inference mode, a call for a frame whose [frame_seg_id] is not
    a multiple of [key_frame_duration] never returns when the cache is
    empty, or when [frame_seg_id - key_frame_seg_id] is not strictly
    between 0 and [key_frame_duration]: both [pair_frames] and [__call__]
    raise, and the cache is left as it was.  When the image was read and
    passed the size check and [key_frame_duration] is not zero, the
    exception is the assertion failure. *)
Theorem out_of_order_frame_raises (d : dataset_dict) (entropy : Z) (w : world)
    (id : Z) :
  is_train (self w) = false ->
  frame_seg_id d = Some id ->
  id mod key_frame_duration (self w) <> 0 ->
  (key_frame_img (self w) = None
   \/ exists key_id,
        key_frame_seg_id (self w) = Some key_id
        /\ ~ (0 < id - key_id < key_frame_duration (self w))) ->
  exists e w',
    pair_frames d entropy w = (Raise e, w')
    /\ call d entropy w = (Raise e, w')
    /\ self w' = self w
    /\ (forall px wh,
          decode_image (file_name d) (image_format (self w)) = Some px ->
          check_image_size d px = Ok wh ->
          key_frame_duration (self w) <> 0 ->
          e = AssertionError).
Proof.
  intros Htest Hid Hmod Hcache.
  assert (Hpair : exists e w',
    pair_frames d entropy w = (Raise e, w')
    /\ self w' = self w
    /\ (forall px wh,
          decode_image (file_name d) (image_format (self w)) = Some px ->
          check_image_size d px = Ok wh ->
          key_frame_duration (self w) <> 0 ->
          e = AssertionError)).
  { unfold pair_frames. unfold_mapper. cbn.
    destruct (decode_image (file_name d) (image_format (self w))) as [px|];
      cbn; [|do 2 eexists; split; [reflexivity|]; split; [reflexivity|];
             intros; discriminate].
    rewrite deref_new.
    destruct (check_image_size d px) as [e|wh] eqn:Hchk; cbn;
      [do 2 eexists; split; [reflexivity|]; split; [reflexivity|];
       intros px0 wh0 Hpx Hc; injection Hpx as <-; rewrite Hchk in Hc;
       discriminate|].
    rewrite Htest. unfold_mapper. cbn. rewrite Hid. cbn.
    destruct (key_frame_duration (self w) =? 0) eqn:HD0; cbn;
      [do 2 eexists; split; [reflexivity|]; split; [reflexivity|];
       intros ? ? _ _ HD; apply Z.eqb_eq in HD0; contradiction|].
    destruct (id mod key_frame_duration (self w) =? 0) eqn:Hkey;
      [apply Z.eqb_eq in Hkey; contradiction|].
    destruct Hcache as [Hnone | [key_id [Hsome Hbad]]].
    - rewrite Hnone. cbn.
      do 2 eexists; split; [reflexivity|]; split; [reflexivity|].
      intros; reflexivity.
    - destruct (key_frame_img (self w)); cbn;
        [|do 2 eexists; split; [reflexivity|]; split; [reflexivity|];
          intros; reflexivity].
      rewrite Hsome.
      destruct ((0 <? id - key_id)
                && (id - key_id <? key_frame_duration (self w))) eqn:Hrange;
        cbn.
      + apply andb_true_iff in Hrange as [H1 H2].
        apply Z.ltb_lt in H1, H2. exfalso. apply Hbad. lia.
      + do 2 eexists; split; [reflexivity|]; split; [reflexivity|].
        intros; reflexivity. }
  destruct Hpair as (e & w' & Hp & Hself & Hkind).
  exists e, w'. repeat split; auto using call_raises.
Qed.

(** A key frame in inference mode. *)
Lemma pair_frames_key (d : dataset_dict) (entropy : Z) (w : world)
    (px : pixels) (wh : Z * Z) (id len : Z) :
  is_train (self w) = false ->
  frame_seg_id d = Some id ->
  frame_seg_len d = Some len ->
  key_frame_duration (self w) <> 0 ->
  id mod key_frame_duration (self w) = 0 ->
  decode_image (file_name d) (image_format (self w)) = Some px ->
  check_image_size d px = Ok wh ->
  let cur := length (arrays w) in
  pair_frames d entropy w =
    (Ok (pop_annotations (with_size d wh), cur, S cur),
     {| arrays := ((arrays w ++ [px]) ++ [px]) ++ [px];
        self := if id + 1 =? len
                then set_key_frame (self w) None None
                else set_key_frame (self w) (Some (S (S cur))) (Some id) |}).
Proof.
  intros Htest Hid Hlen HD Hkey Hdec Hchk cur.
  unfold pair_frames. unfold_mapper. cbn. rewrite Hdec. cbn.
  rewrite deref_new, Hchk. cbn. rewrite Htest. unfold_mapper. cbn.
  rewrite Hid. cbn.
  apply Z.eqb_neq in HD. rewrite HD. cbn.
  apply Z.eqb_eq in Hkey. rewrite Hkey. cbn.
  rewrite Hlen. cbn.
  repeat (rewrite deref_new || rewrite deref_second).
  rewrite !length_app. cbn. rewrite !Nat.add_1_r.
  destruct (id + 1 =? len); reflexivity.
Qed.

(** A frame between key frames, asked for in order. *)
Lemma pair_frames_between (d : dataset_dict) (entropy : Z) (w : world)
    (px : pixels) (wh : Z * Z) (id len key_id : Z) (key : loc) :
  is_train (self w) = false ->
  frame_seg_id d = Some id ->
  frame_seg_len d = Some len ->
  key_frame_duration (self w) <> 0 ->
  id mod key_frame_duration (self w) <> 0 ->
  key_frame_img (self w) = Some key ->
  key_frame_seg_id (self w) = Some key_id ->
  0 < id - key_id < key_frame_duration (self w) ->
  decode_image (file_name d) (image_format (self w)) = Some px ->
  check_image_size d px = Ok wh ->
  pair_frames d entropy w =
    (Ok (pop_annotations (with_size d wh), length (arrays w), key),
     {| arrays := arrays w ++ [px];
        self := if id + 1 =? len
                then set_key_frame (self w) None None
                else self w |}).
Proof.
  intros Htest Hid Hlen HD Hkey Himg Hseg Hrange Hdec Hchk.
  unfold pair_frames. unfold_mapper. cbn. rewrite Hdec. cbn.
  rewrite deref_new, Hchk. cbn. rewrite Htest. unfold_mapper. cbn.
  rewrite Hid. cbn.
  apply Z.eqb_neq in HD. rewrite HD. cbn.
  apply Z.eqb_neq in Hkey. rewrite Hkey. cbn.
  rewrite Himg, Hseg.
  replace ((0 <? id - key_id) && (id - key_id <? key_frame_duration (self w)))
    with true by (symmetry; apply andb_true_iff; split; apply Z.ltb_lt; lia).
  cbn. rewrite Hlen. cbn.
  destruct (id + 1 =? len); reflexivity.
Qed.
End WithFramework.

Section Sequential.
Context `{Framework}.
Variables (D : Z) (n : nat) (fmt : string) (frame : nat -> dataset_dict)
  (content : nat -> pixels) (entropy : Z).
Hypothesis HD : 0 < D.
Hypothesis Hid :
  forall i, (i < n)%nat -> frame_seg_id (frame i) = Some (Z.of_nat i).
Hypothesis Hlen :
  forall i, (i < n)%nat -> frame_seg_len (frame i) = Some (Z.of_nat n).
Hypothesis Hdecode :
  forall i, (i < n)%nat ->
    decode_image (file_name (frame i)) fmt = Some (content i).
Hypothesis Hcheck :
  forall i, (i < n)%nat ->
    exists wh, check_image_size (frame i) (content i) = Ok wh.

Lemma key_index_key (i : nat) : Z.of_nat i mod D = 0 -> key_index D i = i.
Proof.
  intros Hk. unfold key_index.
  pose proof (Z.div_mod (Z.of_nat i) D ltac:(lia)). 
  replace (D * (Z.of_nat i / D)) with (Z.of_nat i) by lia.
  apply Nat2Z.id.
Qed.

Lemma key_index_Z (i : nat) : Z.of_nat (key_index D i) = D * (Z.of_nat i / D).
Proof.
  unfold key_index. apply Z2Nat.id.
  apply Z.mul_nonneg_nonneg; [lia|]. apply Z.div_pos; lia.
Qed.

Lemma key_index_next (i : nat) :
  Z.of_nat (S i) mod D <> 0 -> key_index D (S i) = key_index D i.
Proof.
  intros Hn. unfold key_index. rewrite Nat2Z.inj_succ, <- Z.add_1_r in *.
  now rewrite same_period by lia.
Qed.

(** One call in the middle of a sequence. *)
Lemma sequence_step (i : nat) (w : world) :
  (i < n)%nat ->
  in_sequence D fmt content i w ->
  let r := pair_frames (frame i) entropy w in
  paired_at D content i w r
  /\ ((S i < n)%nat -> in_sequence D fmt content (S i) (snd r))
  /\ (S i = n ->
      key_frame_img (self (snd r)) = None
      /\ key_frame_seg_id (self (snd r)) = None).
Proof.
  intros Hi (Htest & HDw & Hfmt & Hcache) r.
  destruct (Hcheck i Hi) as [wh Hchk].
  pose proof (Hdecode i Hi) as Hdec. rewrite <- Hfmt in Hdec.
  assert (HD0 : key_frame_duration (self w) <> 0) by lia.
  assert (Hlast : S i = n -> (Z.of_nat i + 1 =? Z.of_nat n) = true)
    by (intros; apply Z.eqb_eq; lia).
  assert (Hmore : (S i < n)%nat -> (Z.of_nat i + 1 =? Z.of_nat n) = false)
    by (intros; apply Z.eqb_neq; lia).
  destruct (Z.eq_dec (Z.of_nat i mod D) 0) as [Hkey | Hkey].
  - (* key frame *)
    assert (Hr : r = _) by
      (apply (pair_frames_key (frame i) entropy w (content i) wh
                (Z.of_nat i) (Z.of_nat n)); auto; now rewrite HDw).
    rewrite Hr. cbn [snd]. split; [|split].
    + do 4 eexists. split; [reflexivity|]. cbn [arrays].
      rewrite key_index_key by assumption.
      split; [reflexivity|].
      split; [rewrite deref_old by (rewrite !length_app; cbn; lia);
              apply deref_second|].
      split; [rewrite deref_old by (rewrite !length_app; cbn; lia);
              apply deref_next|].
      split; [intros _; repeat split; lia|contradiction].
    + intros Hnext.
      rewrite (Hmore Hnext).
      cbn. repeat split; auto.
      intros Hnk. eexists. split; [reflexivity|].
      rewrite Nat2Z.inj_succ, <- Z.add_1_r in Hnk |- *.
      rewrite same_period by lia.
      pose proof (Z.div_mod (Z.of_nat i) D ltac:(lia)) as Hdm.
      rewrite Hkey, Z.add_0_r in Hdm.
      split; [now rewrite <- Hdm|].
      cbn [arrays].
      split; [rewrite !length_app; cbn; lia|].
      rewrite key_index_next by (now rewrite Nat2Z.inj_succ, <- Z.add_1_r).
      rewrite key_index_key by assumption.
      replace (S (S (length (arrays w))))
        with (length ((arrays w ++ [content i]) ++ [content i]))
        by (rewrite !length_app; cbn; lia).
      apply deref_new.
    + intros Hn. rewrite (Hlast Hn). now cbn.
  - (* between key frames *)
    destruct (Hcache Hkey) as (key & Himg & Hseg & Hvalid & Hpx).
    pose proof (Z.div_mod (Z.of_nat i) D ltac:(lia)) as Hdm.
    pose proof (Z.mod_pos_bound (Z.of_nat i) D HD) as Hbound.
    assert (Hr : r = _) by
      (apply (pair_frames_between (frame i) entropy w (content i) wh
                (Z.of_nat i) (Z.of_nat n) (D * (Z.of_nat i / D)) key);
       auto; rewrite HDw; auto; lia).
    rewrite Hr. cbn [snd]. split; [|split].
    + do 4 eexists. split; [reflexivity|]. cbn [arrays].
      split; [reflexivity|].
      split; [apply deref_new|].
      split; [now rewrite deref_old|].
      split; [contradiction|].
      intros _. split; [assumption|]. split; [now rewrite key_index_Z|].
      assumption.
    + intros Hnext.
      rewrite (Hmore Hnext).
      repeat split; auto. cbn [arrays].
      intros Hnk. exists key. split; [assumption|].
      rewrite key_index_next by assumption.
      rewrite Nat2Z.inj_succ, <- Z.add_1_r in Hnk |- *.
      rewrite same_period by lia.
      split; [assumption|].
      split; [rewrite length_app; cbn; lia|].
      now rewrite deref_old.
    + intros Hn. rewrite (Hlast Hn). now cbn.
Qed.

Lemma sequence_from (m : nat) : forall (i : nat) (w : world),
  (i + m = n)%nat ->
  in_sequence D fmt content i w ->
  let tr := trace pair_frames (feed frame entropy i m) w in
  length tr = m
  /\ (forall p, (p < m)%nat ->
        exists r wb,
          nth_error tr p = Some r
          /\ nth_error (worlds_before w tr) p = Some wb
          /\ paired_at D content (i + p) wb r)
  /\ exists wl,
       nth_error (worlds_before w tr) m = Some wl
       /\ ((0 < m)%nat ->
           key_frame_img (self wl) = None /\ key_frame_seg_id (self wl) = None).
Proof.
  induction m as [|m IH]; intros i w Hsum Hin tr.
  - cbn. split; [reflexivity|]. split; [intros; lia|].
    exists w. split; [reflexivity|]. intros; lia.
  - subst tr. unfold feed. cbn [seq map trace].
    destruct (sequence_step i w ltac:(lia) Hin) as (Hpair & Hnext & Hend).
    set (r := pair_frames (frame i) entropy w) in *.
    fold (feed frame entropy (S i) m).
    destruct m as [|m'].
    + cbn. split; [reflexivity|]. split.
      * intros p Hp. assert (p = 0)%nat as -> by lia. cbn.
        exists r, w. rewrite Nat.add_0_r. auto.
      * exists (snd r). split; [reflexivity|]. intros _. apply Hend. lia.
    + destruct (IH (S i) (snd r) ltac:(lia) (Hnext ltac:(lia)))
        as (Hlen' & Hall & wl & Hwl & Hclear).
      split; [cbn [length]; now rewrite Hlen'|]. split.
      * intros [|p] Hp.
        -- cbn. exists r, w. rewrite Nat.add_0_r. auto.
        -- destruct (Hall p ltac:(lia)) as (r' & wb & Hr' & Hwb & Hp').
           exists r', wb. cbn [nth_error]. split; [assumption|].
           split; [exact Hwb|]. now rewrite Nat.add_succ_r.
      * exists wl. split; [exact Hwl|]. intros _. apply Hclear. lia.
Qed.


(** C3.  In inference mode, feeding the frames 0, 1, ..., n-1 of a sequence
    in order to a mapper with [key_frame_duration = D] makes every call
    return; at the indices that are multiples of [D] the reference image is
    a new copy of the current image; at every other index it is the array
    the cache holds, which carries the pixels of the frame at the most
    recent multiple of [D]; and after the call for index n-1 both cache
    fields are [None] again. *)
Theorem sequential_inference (w0 : world) :
  is_train (self w0) = false ->
  key_frame_duration (self w0) = D ->
  image_format (self w0) = fmt ->
  (0 < n)%nat ->
  let tr := trace pair_frames (feed frame entropy 0 n) w0 in
  length tr = n
  /\ (forall i, (i < n)%nat ->
        exists r wb,
          nth_error tr i = Some r
          /\ nth_error (worlds_before w0 tr) i = Some wb
          /\ paired_at D content i wb r)
  /\ exists wl,
       nth_error (worlds_before w0 tr) n = Some wl
       /\ key_frame_img (self wl) = None
       /\ key_frame_seg_id (self wl) = None.
Proof.
  intros Htest HDw Hfmt Hn tr.
  assert (Hin : in_sequence D fmt content 0 w0).
  { repeat split; auto. intros Hc. exfalso. apply Hc.
    change (Z.of_nat 0) with 0. apply Z.mod_0_l. lia. }
  destruct (sequence_from n 0%nat w0 eq_refl Hin) as (Hlen' & Hall & wl & Hwl & Hclear).
  split; [exact Hlen'|]. split; [exact Hall|].
  exists wl. split; [exact Hwl|]. now apply Hclear.
Qed.

End Sequential.

Section Invariant.
Context `{Framework}.

Lemma cache_inv_clear (s : DFFDatasetMapper) :
  cache_inv (set_key_frame s None None).
Proof.
  intros l Hl. discriminate.
Qed.

Lemma cache_inv_key (s : DFFDatasetMapper) (key : loc) (id : Z) :
  (key_frame_duration s =? 0) = false ->
  (id mod key_frame_duration s =? 0) = true ->
  cache_inv (set_key_frame s (Some key) (Some id)).
Proof.
  intros HD Hkey l _. exists id. cbn.
  apply Z.eqb_neq in HD. apply Z.eqb_eq in Hkey. auto.
Qed.

(** One call keeps the cache invariant, whatever it is given and however
    it ends. *)
Lemma pair_frames_cache_inv (d : dataset_dict) (entropy : Z) (w : world) :
  cache_inv (self w) -> cache_inv (self (snd (pair_frames d entropy w))).
Proof.
  intros Hinv. unfold pair_frames. unfold_mapper. cbn.
  repeat (case_split; cbn; unfold_mapper; cbn);
    auto using cache_inv_clear, cache_inv_key.
Qed.

Lemma trace_cache_inv (calls : list (dataset_dict * Z)) : forall w,
  cache_inv (self w) ->
  Forall (fun r => cache_inv (self (snd r))) (trace call calls w).
Proof.
  induction calls as [|[d entropy] rest IH]; intros w Hinv; cbn.
  - constructor.
  - assert (Hstep : cache_inv (self (snd (call d entropy w))))
      by (rewrite call_world; now apply pair_frames_cache_inv).
    constructor; [exact Hstep|]. now apply IH.
Qed.

(** C10.  Starting from a new mapper, in either mode, after every call of
    any run of calls: when [key_frame_img] is not [None], [key_frame_seg_id]
    is a multiple of [key_frame_duration].  And a training-mode call
    neither reads nor writes the cache: whatever the two cache fields
    hold, the call gives the same outcome and the same arrays as with an
    empty cache, and leaves the two fields as they were. *)
Theorem cache_invariant (mode : bool) (fmt : string) (omin omax D : Z)
    (root : string) (h : heap) (calls : list (dataset_dict * Z)) :
  Forall (fun r => cache_inv (self (snd r)))
         (trace call calls
            {| arrays := h; self := init mode fmt omin omax D root |})
  /\ forall (d : dataset_dict) (entropy : Z) (img : option loc)
            (seg_id : option Z),
       let empty := init true fmt omin omax D root in
       let loaded := set_key_frame empty img seg_id in
       let r := call d entropy {| arrays := h; self := empty |} in
       call d entropy {| arrays := h; self := loaded |}
       = (fst r, {| arrays := arrays (snd r); self := loaded |}).
Proof.
  split.
  - apply trace_cache_inv. intros l Hl. discriminate.
  - intros d entropy img seg_id. cbn zeta.
    unfold call, pair_frames. unfold_mapper. cbn.
    repeat (case_split; cbn; unfold_mapper; cbn); reflexivity.
Qed.

(** What [random.randint(frame_offset_min, frame_offset_max + 1)] can
    give: every integer from [frame_offset_min] to [frame_offset_max + 1],
    both included, and nothing else. *)
Lemma draw_offset_range (s : DFFDatasetMapper) (entropy offset : Z)
    (w w' : world) :
  draw_offset s entropy w = (Ok offset, w') ->
  frame_offset_min s <= offset <= frame_offset_max s + 1.
Proof.
  unfold draw_offset, randint, raise, ret.
  destruct (frame_offset_max s + 1 <? frame_offset_min s) eqn:E;
    [discriminate|].
  intros Heq. injection Heq as <- _. apply Z.ltb_ge in E.
  pose proof (Z.mod_pos_bound entropy
                (frame_offset_max s + 1 - frame_offset_min s + 1) ltac:(lia)).
  lia.
Qed.

Lemma draw_offset_reaches (s : DFFDatasetMapper) (offset : Z) (w : world) :
  frame_offset_min s <= offset <= frame_offset_max s + 1 ->
  draw_offset s (offset - frame_offset_min s) w = (Ok offset, w).
Proof.
  intros Hr. unfold draw_offset, randint, raise, ret.
  replace (frame_offset_max s + 1 <? frame_offset_min s) with false
    by (symmetry; apply Z.ltb_ge; lia).
  rewrite Z.mod_small by lia. do 2 f_equal. lia.
Qed.

(** The clamp keeps the reference index inside the sequence. *)
Lemma clamp_ref_id_range (seg_id offset seg_len : Z) :
  1 <= seg_len ->
  0 <= clamp_ref_id seg_id offset seg_len <= seg_len - 1.
Proof.
  unfold clamp_ref_id. lia.
Qed.

End Invariant.

(** C1.  With [frame_offset_min = -9] and [frame_offset_max = 0], the draw
    [random.randint(-9, 0 + 1)] can give the offset 1, one more than
    [frame_offset_max]: for frame 3 of a sequence of 5 the reference frame
    read is then frame 4, which no offset in [-9, 0] selects. *)
Theorem offset_one_past_max :
  let mapper := init true "BGR" (-9) 0 10 "vid" in
  let w := {| arrays := []; self := mapper |} in
  draw_offset mapper 10 w = (Ok 1, w)
  /\ frame_offset_max mapper < 1
  /\ clamp_ref_id 3 1 5 = 4
  /\ (forall offset, -9 <= offset <= 0 -> clamp_ref_id 3 offset 5 <> 4)
  /\ exists dd w',
       pair_frames (H := toy_framework) (toy_frame 5 3) 10 w
       = (Ok (dd, 0%nat, 1%nat), w')
       /\ deref (arrays w') 0%nat = toy_content 3
       /\ deref (arrays w') 1%nat = toy_content 4.
Proof.
  cbv zeta. split; [reflexivity|]. split; [reflexivity|].
  split; [reflexivity|].
  split; [intros offset Hr; unfold clamp_ref_id; lia|].
  do 2 eexists. split; [vm_compute; reflexivity|].
  split; reflexivity.
Qed.

(** *** The theorems at the toy video *)

Lemma still_image_ref_is_copy_witness :
  let w := {| arrays := []; self := init true "BGR" (-9) 0 10 "vid" |} in
  let w' := {| arrays := [toy_content 0] ++ [[[[7]]]; [[[7]]]];
               self := self w |} in
  is_train (self w) = true
  /\ pattern toy_still = None
  /\ pair_frames (H := toy_framework) toy_still 0
       {| arrays := [toy_content 0]; self := self w |}
     = (Ok (pop_pattern (with_size toy_still (1, 1)), 1%nat, 2%nat), w')
  /\ deref (arrays w') 1%nat = [[[7]]]
  /\ deref (arrays w') 2%nat = [[[7]]].
Proof.
  cbv zeta.
  pose proof (still_image_ref_is_copy (H := toy_framework) toy_still 0
                {| arrays := [toy_content 0];
                   self := init true "BGR" (-9) 0 10 "vid" |}
                [[[7]]] (1, 1) (1, 1)
                eq_refl eq_refl eq_refl eq_refl eq_refl) as Hthm.
  cbv zeta in Hthm.
  destruct Hthm as (Hpair & _ & Hcur & Href & _).
  split; [reflexivity|]. split; [reflexivity|].
  split; [exact Hpair|]. split; [exact Hcur | exact Href].
Defined.

Lemma out_of_order_frame_raises_witness :
  let w := {| arrays := []; self := init false "BGR" (-9) 0 2 "vid" |} in
  1 mod key_frame_duration (self w) <> 0
  /\ key_frame_img (self w) = None
  /\ exists e w',
       pair_frames (H := toy_framework) (toy_frame 5 1) 0 w = (Raise e, w')
       /\ call (H := toy_framework) (toy_frame 5 1) 0 w = (Raise e, w')
       /\ self w' = self w
       /\ e = AssertionError.
Proof.
  cbv zeta.
  assert (Hmod : 1 mod 2 <> 0) by (vm_compute; discriminate).
  split; [exact Hmod|]. split; [reflexivity|].
  destruct (out_of_order_frame_raises (H := toy_framework) (toy_frame 5 1) 0
              {| arrays := []; self := init false "BGR" (-9) 0 2 "vid" |} 1
              eq_refl eq_refl Hmod (or_introl eq_refl))
    as (e & w' & Hpair & Hcall & Hself & Hkind).
  exists e, w'. repeat split; try assumption.
  apply (Hkind (toy_content 1) (1, 1)); [reflexivity | reflexivity |].
  vm_compute; discriminate.
Defined.

Lemma toy_decode (i : nat) :
  (i < 5)%nat ->
  decode_image (Framework := toy_framework) (file_name (toy_frame 5 i)) "BGR"
  = Some (toy_content i).
Proof.
  intros Hi. do 5 (destruct i as [|i]; [reflexivity|]). lia.
Defined.

Lemma sequential_inference_witness :
  let w0 := {| arrays := []; self := init false "BGR" (-9) 0 2 "vid" |} in
  let tr := trace (pair_frames (H := toy_framework))
                  (feed (toy_frame 5) 0 0 5) w0 in
  0 < 2
  /\ length tr = 5%nat
  /\ (forall i, (i < 5)%nat ->
        exists r wb,
          nth_error tr i = Some r
          /\ nth_error (worlds_before w0 tr) i = Some wb
          /\ paired_at 2 toy_content i wb r)
  /\ exists wl,
       nth_error (worlds_before w0 tr) 5 = Some wl
       /\ key_frame_img (self wl) = None
       /\ key_frame_seg_id (self wl) = None.
Proof.
  cbv zeta. split; [lia|].
  apply (sequential_inference (H := toy_framework) 2 5 "BGR" (toy_frame 5)
           toy_content 0).
  - lia.
  - intros i _. reflexivity.
  - intros i _. reflexivity.
  - exact toy_decode.
  - intros i _. exists (1, 1). reflexivity.
  - reflexivity.
  - reflexivity.
  - reflexivity.
  - lia.
Defined.

End MapperFacts.

(** ** The flow colour encoder *)

Module FlowFacts.
Import Np Nd FlowVisualizer.

Local Open Scope Q_scope.

Lemma Qltb_true (x y : Q) : Qltb x y = true <-> x < y.
Proof.
  unfold Qltb. rewrite negb_true_iff. split.
  - intros Hb. apply Qnot_le_lt. intros Hle.
    apply Qle_bool_iff in Hle. congruence.
  - intros Hlt. destruct (Qle_bool y x) eqn:E; [|reflexivity].
    apply Qle_bool_iff in E. lra.
Qed.

Lemma Qltb_false (x y : Q) : Qltb x y = false <-> y <= x.
Proof.
  unfold Qltb. rewrite negb_false_iff. apply Qle_bool_iff.
Qed.

Lemma Qeq_bool_false (x y : Q) : ~ x == y -> Qeq_bool x y = false.
Proof.
  intros Hne. destruct (Qeq_bool x y) eqn:E; [|reflexivity].
  apply Qeq_bool_iff in E. contradiction.
Qed.

Lemma Qtruncate_Z (z : Z) : Qtruncate (inject_Z z) = z.
Proof.
  unfold Qtruncate. destruct (Qltb (inject_Z z) 0).
  - unfold Qceiling. rewrite <- inject_Z_opp, Qfloor_Z. lia.
  - apply Qfloor_Z.
Qed.

Lemma fdiv_fin (a b : Q) :
  ~ b == 0 -> fdiv (Fin a) (Fin b) = Fin (a / b).
Proof.
  intros Hb. cbn. now rewrite Qeq_bool_false.
Qed.

Lemma isnan_fneg (x : float64) : isnan (fneg x) = isnan x.
Proof. now destruct x. Qed.

Lemma wheel_length : length make_color_wheel = 55%nat.
Proof. reflexivity. Qed.

Lemma wheel_entry (i : nat) (k : Z) :
  (i < 3)%nat -> (1 <= k <= 55)%Z ->
  exists c,
    nth (Z.to_nat (k - 1)) (column NaN i make_color_wheel) NaN = Fin c
    /\ 0 <= c <= 255.
Proof.
  intros Hi Hk.
  assert (Hall : forallb is_byte (column NaN i make_color_wheel) = true).
  { do 3 (destruct i as [|i]; [vm_compute; reflexivity|]). lia. }
  rewrite forallb_forall in Hall.
  assert (Hlen : length (column NaN i make_color_wheel) = 55%nat).
  { unfold column. now rewrite length_map, wheel_length. }
  assert (Hb : is_byte (nth (Z.to_nat (k - 1))
                            (column NaN i make_color_wheel) NaN) = true)
    by (apply Hall, nth_In; lia).
  destruct (nth (Z.to_nat (k - 1)) (column NaN i make_color_wheel) NaN)
    as [| |c|]; try discriminate.
  exists c. split; [reflexivity|].
  cbn in Hb. apply andb_true_iff in Hb as [H0 H1].
  apply Qle_bool_iff in H0, H1. split; assumption.
Qed.

Lemma wheel_position_fin (a : Q) :
  wheel_position 55 (Fin a) = Fin ((a + 1) / 2 * 54 + 1).
Proof. reflexivity. Qed.

Lemma index_bounds (a : Q) :
  -1 <= a <= 1 ->
  let fk := (a + 1) / 2 * 54 + 1 in
  let k0 := astype_int (ffloor (Fin fk)) in
  let k1 := next_index 55 k0 in
  k0 = Qfloor fk
  /\ (1 <= k0 <= 55)%Z
  /\ (1 <= k1 <= 55)%Z
  /\ k1 = (if (k0 =? 55)%Z then 1 else k0 + 1)%Z
  /\ 0 <= fk - inject_Z k0 < 1.
Proof.
  intros Ha fk k0 k1.
  assert (Hfk : 1 <= fk <= 55).
  { unfold fk, Qdiv. change (/ 2) with (1 # 2). lra. }
  assert (Hk0 : k0 = Qfloor fk) by (unfold k0; cbn; apply Qtruncate_Z).
  assert (Hlo : (1 <= Qfloor fk)%Z).
  { rewrite <- (Qfloor_Z 1). apply Qfloor_resp_le. apply Hfk. }
  assert (Hhi : (Qfloor fk <= 55)%Z).
  { rewrite <- (Qfloor_Z 55). apply Qfloor_resp_le. apply Hfk. }
  split; [exact Hk0|]. split; [lia|].
  assert (Hk1 : k1 = (if (k0 =? 55)%Z then 1 else k0 + 1)%Z).
  { unfold k1, next_index.
    replace (k0 + 1 =? 55 + 1)%Z with (k0 =? 55)%Z; [reflexivity|].
    destruct (Z.eqb_spec k0 55), (Z.eqb_spec (k0 + 1) (55 + 1)); lia. }
  split; [rewrite Hk1; destruct (Z.eqb_spec k0 55); lia|].
  split; [exact Hk1|].
  rewrite Hk0. pose proof (Qfloor_le fk). pose proof (Qlt_floor fk) as Hlt.
  rewrite inject_Z_plus in Hlt. change (inject_Z 1) with 1 in Hlt. lra.
Qed.

Section PerPixel.
Context `{LS : LibmSpec}.

(** The angle of a pixel cleared of NaN lies in [-1, 1]. *)
Lemma pixel_angle (u v : float64) :
  isnan u = false -> isnan v = false ->
  exists a,
    fdiv (arctan2 (fneg v) (fneg u)) (Fin np_pi) = Fin a /\ -1 <= a <= 1.
Proof.
  intros Hu Hv.
  destruct (arctan2_range (fneg v) (fneg u)) as (t & Ht & Hrange);
    [now rewrite isnan_fneg | now rewrite isnan_fneg |].
  rewrite Ht. exists (t / np_pi). split.
  - apply fdiv_fin. vm_compute. discriminate.
  - assert (Hpi : 0 < np_pi) by reflexivity.
    split.
    + apply Qle_shift_div_l; [exact Hpi|]. lra.
    + apply Qle_shift_div_r; [exact Hpi|]. lra.
Qed.

(** The magnitude of a pixel cleared of NaN is a non-negative number or
    +inf. *)
Lemma pixel_radius (u v : float64) :
  isnan u = false -> isnan v = false ->
  fsqrt (fadd (fpow2 u) (fpow2 v)) = PInf
  \/ exists r, fsqrt (fadd (fpow2 u) (fpow2 v)) = Fin r /\ 0 <= r.
Proof.
  intros Hu Hv.
  assert (Hsq : forall x, isnan x = false ->
            fpow2 x = PInf \/ exists q, fpow2 x = Fin q /\ 0 <= q).
  { intros [| |q|] Hx; try discriminate; cbn; auto.
    right. exists (q * q). split; [reflexivity|]. nra. }
  destruct (Hsq u Hu) as [-> | (p & -> & Hp)];
    destruct (Hsq v Hv) as [-> | (q & -> & Hq)]; cbn; auto.
  right. replace (Qltb (p + q) 0) with false
    by (symmetry; apply Qltb_false; lra).
  eexists. split; [reflexivity|]. apply sqrtQ_nonneg.
Qed.

Lemma pixel_col_range (u v : float64) (i : nat) :
  (i < 3)%nat -> exists c, pixel_col u v i = Fin c /\ 0 <= c <= 1.
Proof.
  intros Hi. unfold pixel_col. rewrite wheel_length.
  set (nan := isnan u || isnan v).
  set (u' := if nan then of_int 0 else u).
  set (v' := if nan then of_int 0 else v).
  assert (Hu : isnan u' = false).
  { unfold u', nan. destruct u, v; reflexivity. }
  assert (Hv : isnan v' = false).
  { unfold v', nan. destruct u, v; reflexivity. }
  destruct (pixel_angle u' v' Hu Hv) as (a & -> & Ha).
  change (Z.of_nat 55) with 55%Z. rewrite wheel_position_fin.
  destruct (index_bounds a Ha) as (Hk0 & Hk0r & Hk1r & _ & Hf).
  set (fk := (a + 1) / 2 * 54 + 1) in *.
  set (k0 := astype_int (ffloor (Fin fk))) in *.
  set (k1 := next_index 55 k0) in *.
  destruct (wheel_entry i k0 Hi Hk0r) as (c0 & -> & Hc0).
  destruct (wheel_entry i k1 Hi Hk1r) as (c1 & -> & Hc1).
  unfold of_int. rewrite !fdiv_fin by (vm_compute; discriminate).
  change (fsub (Fin fk) (Fin (inject_Z k0))) with (Fin (fk + - inject_Z k0)).
  set (f := fk + - inject_Z k0) in *.
  assert (Hf' : 0 <= f < 1) by (unfold f; lra).
  cbn [fsub fadd fmul fneg].
  set (col := (inject_Z 1 + - f) * (c0 / inject_Z 255) + f * (c1 / inject_Z 255)).
  assert (Hcol : 0 <= col <= 1).
  { unfold col. change (inject_Z 1) with 1. change (inject_Z 255) with 255.
    assert (0 <= c0 / 255 <= 1) by (split; [apply Qle_shift_div_l | apply Qle_shift_div_r]; lra).
    assert (0 <= c1 / 255 <= 1) by (split; [apply Qle_shift_div_l | apply Qle_shift_div_r]; lra).
    nra. }
  destruct (pixel_radius u' v' Hu Hv) as [-> | (r & -> & Hr)].
  - cbn. exists (col * (3 # 4)). split; [reflexivity|]. lra.
  - cbn [fle]. destruct (Qle_bool r (inject_Z 1)) eqn:E; cbn.
    + apply Qle_bool_iff in E. change (inject_Z 1) with 1 in *.
      eexists. split; [reflexivity|]. nra.
    + exists (col * (3 # 4)). split; [reflexivity|]. lra.
Qed.

Lemma floor_byte (x : Q) :
  0 <= x <= 255 -> (0 <= Qfloor x <= 255)%Z.
Proof.
  intros Hx. split.
  - rewrite <- (Qfloor_Z 0). apply Qfloor_resp_le. apply Hx.
  - rewrite <- (Qfloor_Z 255). apply Qfloor_resp_le. apply Hx.
Qed.

Lemma pixel_floor_byte (u v : float64) (i : nat) :
  (i < 3)%nat -> byte_valued (pixel_floor u v i).
Proof.
  intros Hi. unfold pixel_floor.
  destruct (pixel_col_range u v i Hi) as (c & -> & Hc).
  cbn [fmul of_int ffloor].
  eexists. split; [reflexivity|]. apply floor_byte.
  destruct (isnan u || isnan v).
  - change (inject_Z (1 - 1)) with 0. change (inject_Z 255) with 255.
    split; [|apply Qle_trans with 0; [|lra]]; ring_simplify; lra.
  - change (inject_Z (1 - 0)) with 1. change (inject_Z 255) with 255. lra.
Qed.

(** A NaN pixel is encoded as 0 on every channel. *)
Lemma pixel_floor_nan (u v : float64) (i : nat) :
  (i < 3)%nat -> isnan u || isnan v = true -> pixel_floor u v i = of_int 0.
Proof.
  intros Hi Hnan. unfold pixel_floor.
  destruct (pixel_col_range u v i Hi) as (c & -> & Hc).
  rewrite Hnan. cbn [fmul of_int ffloor]. unfold of_int. do 2 f_equal.
  change (inject_Z (1 - 1)) with 0.
  assert (Heq : inject_Z 255 * c * 0 == inject_Z 0) by (change (inject_Z 0) with 0; ring).
  rewrite Heq. apply Qfloor_Z.
Qed.

End PerPixel.

(** ** Arrays *)

Section ArrayFacts.
Context {A B C E : Type}.

Lemma map2_same (f : B -> C -> E) (g : A -> B) (h : A -> C) (l : list A) :
  map2 f (map g l) (map h l) = map (fun x => f (g x) (h x)) l.
Proof. induction l as [|x l IH]; cbn; [reflexivity | now rewrite IH]. Qed.

Lemma amap2_same (f : B -> C -> E) (g : A -> B) (h : A -> C) (a : ndarray A) :
  amap2 f (amap g a) (amap h a) = amap (fun x => f (g x) (h x)) a.
Proof.
  unfold amap2, amap. induction a as [|r a IH]; cbn; [reflexivity|].
  now rewrite map2_same, IH.
Qed.

Lemma amap_amap (f : B -> C) (g : A -> B) (a : ndarray A) :
  amap f (amap g a) = amap (fun x => f (g x)) a.
Proof.
  unfold amap. rewrite map_map. apply map_ext. intros r. apply map_map.
Qed.

Lemma amap_ext (f g : A -> B) (a : ndarray A) :
  (forall x, f x = g x) -> amap f a = amap g a.
Proof.
  intros Hfg. unfold amap. apply map_ext. intros r. now apply map_ext.
Qed.

Lemma amap_id (a : ndarray A) : amap (fun x => x) a = a.
Proof.
  unfold amap. rewrite <- (map_id a) at 2. apply map_ext. intros r.
  apply map_id.
Qed.

Lemma shape_amap (f : A -> B) (a : ndarray A) : shape (amap f a) = shape a.
Proof.
  unfold shape, amap. rewrite length_map. destruct a; cbn; [reflexivity|].
  now rewrite length_map.
Qed.

Lemma row_lengths_amap (f : A -> B) (a : ndarray A) :
  row_lengths (amap f a) = row_lengths a.
Proof.
  unfold row_lengths, amap. rewrite map_map. apply map_ext. intros r.
  apply length_map.
Qed.

Lemma full_rectangular (x : B) (a : ndarray A) :
  rectangular a ->
  full (fst (shape a)) (snd (shape a)) x = amap (fun _ => x) a.
Proof.
  unfold rectangular, full. set (w := snd (shape a)). clearbody w.
  unfold shape. cbn [fst]. induction 1 as [|r a Hr _ IH]; cbn;
    [reflexivity|].
  rewrite IH. f_equal. rewrite <- Hr. clear.
  induction r; cbn; [reflexivity | now f_equal].
Qed.

Lemma aall_amap (P : B -> Prop) (f : A -> B) (a : ndarray A) :
  (forall x, P (f x)) -> aall P (amap f a).
Proof.
  intros HP. unfold aall, amap. apply Forall_map, Forall_forall.
  intros r _. apply Forall_map, Forall_forall. intros x _. apply HP.
Qed.

Lemma aget_amap (f : A -> B) (a : ndarray A) (i j : nat) :
  aget (amap f a) i j = option_map f (aget a i j).
Proof.
  unfold aget, amap. rewrite nth_error_map.
  destruct (nth_error a i) as [r|]; cbn; [apply nth_error_map | reflexivity].
Qed.

Lemma take_ok (tmp : list B) (d : B) (k : A -> Z) (a : ndarray A) :
  (forall x, (0 <= k x < Z.of_nat (length tmp))%Z) ->
  take tmp (amap k a)
  = Ok (amap (fun x => nth (Z.to_nat (k x)) tmp d) a).
Proof.
  intros Hk.
  assert (Hone : forall x,
            np_index tmp (k x) = Ok (nth (Z.to_nat (k x)) tmp d)).
  { intros x. specialize (Hk x). unfold np_index.
    replace (k x <? 0)%Z with false by (symmetry; apply Z.ltb_ge; lia).
    replace ((0 <=? k x) && (k x <? Z.of_nat (length tmp)))%Z with true
      by (symmetry; apply andb_true_iff; split;
          [apply Z.leb_le | apply Z.ltb_lt]; lia).
    rewrite (nth_error_nth' tmp d) by lia. reflexivity. }
  unfold take, amapM, amap.
  assert (Hrow : forall r : list A,
            mapM (np_index tmp) (map k r)
            = Ok (map (fun x => nth (Z.to_nat (k x)) tmp d) r)).
  { induction r as [|x r IH]; cbn; [reflexivity|].
    rewrite Hone. cbn. rewrite IH. reflexivity. }
  induction a as [|r a IH]; cbn; [reflexivity|].
  rewrite Hrow. cbn. rewrite IH. reflexivity.
Qed.

End ArrayFacts.

Lemma amap2_same_r {A B C} (f : B -> A -> C) (g : A -> B) (a : ndarray A) :
  amap2 f (amap g a) a = amap (fun x => f (g x) x) a.
Proof. rewrite <- (amap_id a) at 2. apply amap2_same. Qed.

Lemma same_shape_amap {A B C} (f : A -> B) (g : A -> C) (a : ndarray A) :
  same_shape (amap f a) (amap g a) = true.
Proof.
  unfold same_shape. rewrite !row_lengths_amap.
  now destruct (list_eq_dec Nat.eq_dec (row_lengths a) (row_lengths a)).
Qed.

Ltac fuse :=
  repeat (rewrite amap_amap || rewrite amap2_same || rewrite amap2_same_r);
  cbv beta.

Section Fused.
Context `{LS : LibmSpec}.

Lemma pixel_k0 (u v : float64) :
  let nan := isnan u || isnan v in
  let u' := if nan then of_int 0 else u in
  let v' := if nan then of_int 0 else v in
  let k0 :=
    astype_int
      (ffloor (wheel_position 55
                 (fdiv (arctan2 (fneg v') (fneg u')) (Fin np_pi)))) in
  (1 <= k0 <= 55)%Z /\ (1 <= next_index 55 k0 <= 55)%Z.
Proof.
  intros nan u' v' k0.
  assert (Hu : isnan u' = false) by (unfold u', nan; destruct u, v; reflexivity).
  assert (Hv : isnan v' = false) by (unfold v', nan; destruct u, v; reflexivity).
  destruct (pixel_angle u' v' Hu Hv) as (a & Ha & Hr).
  unfold k0. rewrite Ha, wheel_position_fin.
  destruct (index_bounds a Hr) as (_ & H0 & H1 & _). auto.
Qed.

Lemma color_channels_fused {A} (fu fv : A -> float64) (base : ndarray A)
    (i : nat) :
  color_channels (amap fu base) (amap fv base) i
  = Ok (amap (fun p => pixel_floor (fu p) (fv p) i) base).
Proof.
  unfold color_channels, channel_floor, magnitude, angles, aset_mask, awhere.
  rewrite wheel_length. change (Z.of_nat 55) with 55%Z.
  fuse.
  rewrite (take_ok _ NaN).
  2:{ intros p. unfold column. rewrite length_map, wheel_length.
      pose proof (pixel_k0 (fu p) (fv p)) as Hk. cbv zeta in Hk.
      change (Z.of_nat 55) with 55%Z. lia. }
  cbn [rbind Ok].
  rewrite (take_ok _ NaN).
  2:{ intros p. unfold column. rewrite length_map, wheel_length.
      pose proof (pixel_k0 (fu p) (fv p)) as Hk. cbv zeta in Hk.
      change (Z.of_nat 55) with 55%Z. lia. }
  cbn [rbind Ok]. fuse.
  apply (f_equal Ok), amap_ext. intros p.
  unfold pixel_floor, pixel_col. rewrite wheel_length. reflexivity.
Qed.


Lemma compute_color_fused {A} (fu fv : A -> float64) (base : ndarray A) :
  rectangular base ->
  compute_color (amap fu base) (amap fv base)
  = Ok (amap (fun p => encode_pixel (fu p) (fv p)) base).
Proof.
  intros Hrect.
  change (compute_color (amap fu base) (amap fv base))
    with (if negb (same_shape (amap fu base) (amap fv base))
          then Raise ValueError
          else let '(height, width) := shape (amap fu base) in
               fill_channels (color_channels (amap fu base) (amap fv base))
                 (seq 0 (snd (shape make_color_wheel)))
                 (full height width (of_int 0, of_int 0, of_int 0))).
  change (snd (shape make_color_wheel)) with 3%nat.
  rewrite same_shape_amap, shape_amap. cbn [negb].
  rewrite (surjective_pairing (shape base)), full_rectangular by assumption.
  cbn [seq fill_channels].
  rewrite !color_channels_fused. cbn [rbind Ok]. unfold set_channel.
  fuse. apply (f_equal Ok), amap_ext. intros p. reflexivity.
Qed.
End Fused.

(** ** [flow2img], element by element *)

Lemma unknown_mask_fused (flow : flow_field) :
  unknown_mask flow = amap is_unknown flow.
Proof.
  unfold unknown_mask, chan_u, chan_v. fuse. reflexivity.
Qed.

Lemma masked_store (flow : flow_field) :
  store_v (store_u flow (unknown_mask flow) (of_int 0)) (unknown_mask flow)
          (of_int 0)
  = amap mask_pixel flow.
Proof.
  rewrite unknown_mask_fused. unfold store_v, store_u. fuse.
  apply amap_ext. intros [u v]. unfold mask_pixel.
  destruct (is_unknown (u, v)); reflexivity.
Qed.

Lemma concat_amap {A B} (f : A -> B) (a : ndarray A) :
  concat (amap f a) = map f (concat a).
Proof.
  unfold amap. symmetry. apply concat_map.
Qed.

Section Reductions.
Context `{L : Libm}.

Lemma np_max_nonempty {A} (f : A -> float64) (a : ndarray A) :
  concat a <> [] -> exists m, np_max (amap f a) = Ok m.
Proof.
  intros Hne. unfold np_max. rewrite concat_amap.
  destruct (concat a) as [|x xs]; [contradiction|]. cbn. eauto.
Qed.

Lemma np_min_nonempty {A} (f : A -> float64) (a : ndarray A) :
  concat a <> [] -> exists m, np_min (amap f a) = Ok m.
Proof.
  intros Hne. unfold np_min. rewrite concat_amap.
  destruct (concat a) as [|x xs]; [contradiction|]. cbn. eauto.
Qed.

Lemma max_radius_nonempty {A} (fu fv : A -> float64) (a : ndarray A) :
  concat a <> [] -> exists maxrad, max_radius (amap fu a) (amap fv a) = Ok maxrad.
Proof.
  intros Hne. unfold max_radius, magnitude. fuse.
  destruct (np_max_nonempty
              (fun x => fsqrt (fadd (fpow2 (fu x)) (fpow2 (fv x)))) a Hne)
    as [m ->].
  cbn. eauto.
Qed.

(** The array of the caller after the call, whatever the call did. *)
Lemma flow2img_store (flow : flow_field) :
  snd (flow2img flow) = amap mask_pixel flow.
Proof.
  unfold flow2img. cbn [snd]. apply masked_store.
Qed.

End Reductions.

Lemma positive_shape_nonempty {A} (a : ndarray A) :
  rectangular a ->
  (0 < fst (shape a))%nat -> (0 < snd (shape a))%nat ->
  concat a <> [].
Proof.
  unfold rectangular. destruct a as [|r a]; cbn; [lia|].
  intros Hrect _ Hw. inversion Hrect as [|? ? Hr _]; subst.
  destruct r; cbn in *; [lia | discriminate].
Qed.

Lemma aget_nonempty {A} (a : ndarray A) (i j : nat) (x : A) :
  aget a i j = Some x -> concat a <> [].
Proof.
  unfold aget. intros Hget Hnil.
  destruct (nth_error a i) as [r|] eqn:Hr; [|discriminate].
  apply nth_error_In in Hr. apply nth_error_In in Hget.
  assert (Hin : In x (concat a)) by (apply in_concat; eauto).
  rewrite Hnil in Hin. contradiction.
Qed.

Lemma fgt_threshold (x : float64) :
  fgt (fabs x) UNKNOW_FLOW_THRESHOLD = true <-> above_threshold x.
Proof.
  destruct x as [| |q|]; cbn; try (split; [auto | reflexivity]);
    try (split; [discriminate | contradiction]).
  apply Qltb_true.
Qed.

Lemma is_unknown_iff (p : float64 * float64) :
  is_unknown p = true <-> above_threshold (fst p) \/ above_threshold (snd p).
Proof.
  unfold is_unknown. rewrite orb_true_iff, !fgt_threshold. reflexivity.
Qed.

Section Encoder.
Context `{LS : LibmSpec}.

(** [flow2img] on a non-empty rectangular field returns, and its image is
    [out_pixel] at every pixel, for the [maxrad] the masked field gives. *)
Lemma flow2img_fused (flow : flow_field) :
  rectangular flow ->
  concat flow <> [] ->
  exists maxrad,
    max_radius (chan_u (amap mask_pixel flow)) (chan_v (amap mask_pixel flow))
    = Ok maxrad
    /\ compute_color (normalized_u flow maxrad) (normalized_v flow maxrad)
       = Ok (amap (fun p =>
                     encode_pixel (normalize maxrad (fst (mask_pixel p)))
                                  (normalize maxrad (snd (mask_pixel p))))
                  flow)
    /\ fst (flow2img flow) = Ok (amap (out_pixel maxrad) flow).
Proof.
  intros Hrect Hne.
  assert (Hcolor : forall maxrad,
    compute_color (normalized_u flow maxrad) (normalized_v flow maxrad)
    = Ok (amap (fun p =>
                  encode_pixel (normalize maxrad (fst (mask_pixel p)))
                               (normalize maxrad (snd (mask_pixel p))))
               flow)).
  { intros maxrad. unfold normalized_u, normalized_v, chan_u, chan_v. fuse.
    now apply (compute_color_fused
                 (fun p => normalize maxrad (fst (mask_pixel p)))
                 (fun p => normalize maxrad (snd (mask_pixel p)))). }
  unfold flow2img. cbn [fst]. rewrite masked_store.
  unfold chan_u, chan_v. fuse.
  destruct (max_radius_nonempty (fun p => fst (mask_pixel p))
              (fun p => snd (mask_pixel p)) flow Hne) as [maxrad Hmax].
  exists maxrad. split; [exact Hmax|]. split; [apply Hcolor|].
  destruct (np_max_nonempty (fun p => fst (mask_pixel p)) flow Hne) as [? ->].
  destruct (np_max_nonempty (fun p => snd (mask_pixel p)) flow Hne) as [? ->].
  destruct (np_min_nonempty (fun p => fst (mask_pixel p)) flow Hne) as [? ->].
  destruct (np_min_nonempty (fun p => snd (mask_pixel p)) flow Hne) as [? ->].
  cbn [rbind Ok]. rewrite Hmax. cbn [rbind Ok]. fuse.
  specialize (Hcolor maxrad).
  unfold normalized_u, normalized_v, chan_u, chan_v, normalize in Hcolor.
  rewrite !amap_amap in Hcolor. cbv beta in Hcolor.
  rewrite Hcolor. cbn [rbind Ok].
  rewrite unknown_mask_fused. fuse.
  apply (f_equal Ok), amap_ext. intros p.
  unfold out_pixel, float_pixel, cast_pixel, blank_unknown, encode_pixel,
    normalize.
  destruct (is_unknown p); reflexivity.
Qed.

End Encoder.

(** ** The libm of the model meets the contract *)

Lemma sqrtQ_grid_nonneg (q : Q) : 0 <= sqrtQ_grid q.
Proof.
  unfold sqrtQ_grid. destruct (Qnum q <=? 0)%Z; [apply Qle_refl|].
  unfold Qle. cbn. rewrite Z.mul_1_r. apply Z.sqrt_nonneg.
Qed.

Lemma sqrtQ_grid_zero (q : Q) : q == 0 -> sqrtQ_grid q == 0.
Proof.
  unfold Qeq. cbn. rewrite Z.mul_1_r. intros Hq. unfold sqrtQ_grid.
  rewrite Hq. reflexivity.
Qed.

Lemma arctan2_compass_range (y x : float64) :
  isnan y = false -> isnan x = false ->
  exists t, arctan2_compass y x = Fin t /\ - np_pi <= t <= np_pi.
Proof.
  intros Hy Hx. unfold arctan2_compass. rewrite Hy, Hx. cbn [orb].
  destruct (sign_of y), (sign_of x); eexists; (split; [reflexivity|]);
    split; unfold Qle; cbn; lia.
Qed.

Lemma grid_libm_spec : LibmSpec grid_libm.
Proof.
  constructor.
  - exact sqrtQ_grid_nonneg.
  - exact sqrtQ_grid_zero.
  - exact arctan2_compass_range.
Defined.

(** ** Bytes *)

Lemma np_uint8_byte (z : Z) : (0 <= z <= 255)%Z -> np_uint8 (of_int z) = z.
Proof.
  intros Hz. unfold np_uint8, of_int. rewrite Qtruncate_Z.
  apply Z.mod_small. lia.
Qed.

Lemma byte_valued_zero : byte_valued (of_int 0).
Proof. exists 0%Z. split; [reflexivity | lia]. Qed.

Lemma same_shape_zip {A B} (u : ndarray A) (v : ndarray B) :
  same_shape u v = true ->
  u = amap fst (amap2 pair u v) /\ v = amap snd (amap2 pair u v).
Proof.
  unfold same_shape.
  destruct (list_eq_dec Nat.eq_dec (row_lengths u) (row_lengths v))
    as [Hlen|]; [intros _ | discriminate].
  assert (Hrow : forall (r : list A) (s : list B),
            length r = length s ->
            r = map fst (map2 pair r s) /\ s = map snd (map2 pair r s)).
  { induction r as [|x r IH]; intros [|y s] Hl; try discriminate; cbn;
      [split; reflexivity|].
    injection Hl as Hl. destruct (IH s Hl) as [Hr Hs].
    split; f_equal; assumption. }
  revert v Hlen. unfold amap, amap2.
  induction u as [|r u IH]; intros [|s v] Hlen; try discriminate; cbn;
    [split; reflexivity|].
  cbn in Hlen. injection Hlen as Hl Hlen.
  destruct (Hrow r s Hl) as [Hr Hs]. destruct (IH v Hlen) as [Hu Hv].
  split; f_equal; assumption.
Qed.

Section Ranges.
Context `{LS : LibmSpec}.

Lemma encode_pixel_bytes (u v : float64) : byte_pixel (encode_pixel u v).
Proof.
  unfold encode_pixel, byte_pixel.
  assert (Hch : forall i, (i < 3)%nat ->
            byte_valued (of_int (np_uint8 (pixel_floor u v i)))).
  { intros i Hi. destruct (pixel_floor_byte u v i Hi) as (z & -> & Hz).
    rewrite np_uint8_byte by assumption. now exists z. }
  repeat split; apply Hch; lia.
Qed.

Lemma float_pixel_bytes (maxrad : float64) (p : float64 * float64) :
  byte_pixel (float_pixel maxrad p).
Proof.
  unfold float_pixel, blank_unknown.
  pose proof (encode_pixel_bytes (normalize maxrad (fst (mask_pixel p)))
                (normalize maxrad (snd (mask_pixel p)))) as Hb.
  destruct (encode_pixel _ _) as [[r g] b].
  destruct (is_unknown p); [|exact Hb].
  repeat split; apply byte_valued_zero.
Qed.

Lemma out_pixel_bytes (maxrad : float64) (p : float64 * float64) :
  byte_triple (out_pixel maxrad p).
Proof.
  unfold out_pixel. pose proof (float_pixel_bytes maxrad p) as Hb.
  destruct (float_pixel maxrad p) as [[r g] b].
  destruct Hb as ((zr & -> & Hr) & (zg & -> & Hg) & (zb & -> & Hzb)).
  cbn [cast_pixel byte_triple]. now rewrite !np_uint8_byte.
Qed.

Lemma out_pixel_unknown (maxrad : float64) (p : float64 * float64) :
  is_unknown p = true -> out_pixel maxrad p = (0, 0, 0)%Z.
Proof.
  intros Hp. unfold out_pixel, float_pixel, blank_unknown, encode_pixel.
  rewrite Hp. reflexivity.
Qed.

End Ranges.

(** ** The claims about the encoder *)

(** C5 (as the code has it).  [flow2img] writes into the array it is
    given: both channels of every pixel with [|u| > 1e7] or [|v| > 1e7]
    become 0, and no other element changes.  What it returns, and what it
    leaves in the array, depend on the contents of the array alone: two
    calls on equal contents give equal results. *)
Theorem flow2img_overwrites_unknown_only `{L : Libm} (flow : flow_field) :
  snd (flow2img flow) = amap mask_pixel flow
  /\ (forall i j p,
        aget flow i j = Some p ->
        aget (snd (flow2img flow)) i j
        = Some (if is_unknown p then (of_int 0, of_int 0) else p))
  /\ (aall (fun p => is_unknown p = false) flow -> snd (flow2img flow) = flow)
  /\ (forall flow', flow' = flow -> flow2img flow' = flow2img flow).
Proof.
  split; [apply flow2img_store|]. split; [|split].
  - intros i j p Hget. rewrite flow2img_store, aget_amap, Hget. reflexivity.
  - intros Hknown. rewrite flow2img_store.
    unfold amap, aall in *.
    rewrite <- (map_id flow) at 2. apply map_ext_in. intros r Hr.
    rewrite Forall_forall in Hknown. specialize (Hknown r Hr).
    rewrite <- (map_id r) at 2. apply map_ext_in. intros p Hp.
    rewrite Forall_forall in Hknown. unfold mask_pixel.
    now rewrite (Hknown p Hp).
  - intros flow' ->. reflexivity.
Qed.

(** C5 (as stated) fails: the field with an unknown first pixel comes back
    with that pixel zeroed, and a second call on the same array then gives
    another image than the first call did. *)
Lemma flow2img_changes_its_input :
  snd (flow2img (L := grid_libm) unknown_then_known)
  = [[(Fin 0, Fin 0); (Fin 1, Fin 1)]]
  /\ snd (flow2img (L := grid_libm) unknown_then_known) <> unknown_then_known
  /\ fst (flow2img (L := grid_libm) unknown_then_known)
     = Ok [[(0, 0, 0); (191, 86, 0)]]%Z
  /\ fst (flow2img (L := grid_libm)
            (snd (flow2img (L := grid_libm) unknown_then_known)))
     = Ok [[(255, 254, 254); (191, 86, 0)]]%Z.
Proof.
  split; [vm_compute; reflexivity|].
  split; [vm_compute; discriminate|].
  split; vm_compute; reflexivity.
Qed.

(** C2.  The field without motion is encoded as black, not white: [maxrad]
    is 0, every [u / maxrad] is 0/0 = NaN, and [compute_color] zeroes the
    NaN pixels.  A pixel without motion beside a moving one is encoded as
    (255, 254, 254). *)
Theorem zero_flow_encodes_black :
  fst (flow2img (L := grid_libm) zero_flow)
  = Ok [[(0, 0, 0); (0, 0, 0)]; [(0, 0, 0); (0, 0, 0)]]%Z
  /\ max_radius (L := grid_libm) (chan_u zero_flow) (chan_v zero_flow)
     = Ok (Fin 0)
  /\ normalized_u zero_flow (Fin 0) = [[NaN; NaN]; [NaN; NaN]]
  /\ fst (flow2img (L := grid_libm) moving_then_still)
     = Ok [[(191, 86, 0); (255, 254, 254)]]%Z.
Proof.
  repeat split; vm_compute; reflexivity.
Qed.

Section EncoderClaims.
Context `{LS : LibmSpec}.

(** C2, for every libm and every shape: a field whose every [u] and [v]
    is 0 is encoded as 0 on every channel of every pixel. *)
Lemma all_zero_flow_is_black (flow : flow_field) :
  rectangular flow ->
  concat flow <> [] ->
  aall (fun p => p = (of_int 0, of_int 0)) flow ->
  fst (flow2img flow) = Ok (amap (fun _ => (0, 0, 0)%Z) flow).
Proof.
  intros Hrect Hne Hzero.
  destruct (flow2img_fused flow Hrect Hne) as (maxrad & Hmax & _ & ->).
  f_equal.
  assert (Hin : forall p, In p (concat flow) -> p = (of_int 0, of_int 0)).
  { intros p Hp. apply in_concat in Hp as (r & Hr & Hp).
    unfold aall in Hzero. rewrite Forall_forall in Hzero.
    specialize (Hzero r Hr). rewrite Forall_forall in Hzero. auto. }
  set (s := sqrtQ (inject_Z 0 * inject_Z 0 + inject_Z 0 * inject_Z 0)).
  assert (Hs : s == 0) by (apply sqrtQ_zero; reflexivity).
  assert (Hrad :
    fsqrt (fadd (fpow2 (fst (mask_pixel (of_int 0, of_int 0))))
                (fpow2 (snd (mask_pixel (of_int 0, of_int 0)))))
    = Fin s) by reflexivity.
  assert (Hmaxrad : maxrad = Fin s).
  { unfold max_radius, magnitude, chan_u, chan_v in Hmax.
    revert Hmax. fuse. unfold np_max. rewrite concat_amap.
    destruct (concat flow) as [|p ps] eqn:Hc; [contradiction|].
    cbn [map rbind Ok].
    assert (Hfold : forall l : list (float64 * float64),
              (forall q, In q l -> q = (of_int 0, of_int 0)) ->
              fold_left fmax
                (map (fun x => fsqrt (fadd (fpow2 (fst (mask_pixel x)))
                                           (fpow2 (snd (mask_pixel x))))) l)
                (Fin s)
              = Fin s).
    { induction l as [|q l IH]; intros Hl; [reflexivity|].
      cbn [map fold_left]. rewrite (Hl q (or_introl eq_refl)), Hrad.
      replace (fmax (Fin s) (Fin s)) with (Fin s).
      - apply IH. intros q' Hq'. apply Hl. now right.
      - unfold fmax. cbn [isnan flt].
        replace (Qltb s s) with false; [reflexivity|].
        symmetry. apply Qltb_false. apply Qle_refl. }
    rewrite (Hin p (or_introl eq_refl)), Hrad.
    rewrite Hfold by (intros q Hq; apply Hin; now right).
    intros Heq. injection Heq as <-.
    unfold py_max, fgt, flt, of_int.
    replace (Qltb (inject_Z (-1)) s) with true; [reflexivity|].
    symmetry. apply Qltb_true. rewrite Hs. reflexivity. }
  subst maxrad. unfold amap. apply map_ext_in. intros r Hr.
  apply map_ext_in. intros p Hp.
  rewrite (Hin p) by (apply in_concat; eauto).
  unfold out_pixel, float_pixel.
  change (mask_pixel (of_int 0, of_int 0)) with (of_int 0, of_int 0).
  cbn [fst snd].
  assert (Hnan : normalize (Fin s) (of_int 0) = NaN).
  { unfold normalize, of_int, fdiv.
    replace (Qeq_bool s 0) with true
      by (symmetry; now apply Qeq_bool_iff).
    reflexivity. }
  rewrite Hnan. unfold encode_pixel.
  rewrite !pixel_floor_nan by (reflexivity || lia).
  reflexivity.
Qed.

(** C9.  For a field of positive height and width, [flow2img] returns an
    image of the same height and width whose three channels are integers
    between 0 and 255.  Nothing outside that range reaches a conversion to
    [uint8]: the arrays [np.floor(255 * col * (1 - NAN_idx))] of
    [compute_color] and the image [compute_color] returns hold integers
    between 0 and 255, and so does the image after [img[idx] = 0]. *)
Theorem flow2img_shape_and_range (flow : flow_field) :
  rectangular flow ->
  (0 < fst (shape flow))%nat ->
  (0 < snd (shape flow))%nat ->
  exists img maxrad cimg,
    fst (flow2img flow) = Ok img
    /\ shape img = shape flow
    /\ row_lengths img = row_lengths flow
    /\ aall byte_triple img
    /\ max_radius (chan_u (snd (flow2img flow))) (chan_v (snd (flow2img flow)))
       = Ok maxrad
    /\ (forall i, (i < 3)%nat ->
          exists c,
            color_channels (normalized_u flow maxrad)
                           (normalized_v flow maxrad) i = Ok c
            /\ aall byte_valued c)
    /\ compute_color (normalized_u flow maxrad) (normalized_v flow maxrad)
       = Ok cimg
    /\ aall byte_pixel cimg
    /\ aall byte_pixel (amap (float_pixel maxrad) flow)
    /\ img = amap cast_pixel (amap (float_pixel maxrad) flow).
Proof.
  intros Hrect Hh Hw.
  pose proof (positive_shape_nonempty flow Hrect Hh Hw) as Hne.
  destruct (flow2img_fused flow Hrect Hne) as (maxrad & Hmax & Hcolor & Himg).
  do 3 eexists. split; [exact Himg|].
  split; [apply shape_amap|]. split; [apply row_lengths_amap|].
  split; [apply aall_amap, out_pixel_bytes|].
  split; [rewrite flow2img_store; exact Hmax|].
  split.
  - intros i Hi. eexists. split.
    + unfold normalized_u, normalized_v, chan_u, chan_v. fuse.
      apply (color_channels_fused
               (fun p => normalize maxrad (fst (mask_pixel p)))
               (fun p => normalize maxrad (snd (mask_pixel p)))).
    + apply aall_amap. intros p. now apply pixel_floor_byte.
  - split; [exact Hcolor|].
    split; [apply aall_amap; intros p; apply encode_pixel_bytes|].
    split; [apply aall_amap, float_pixel_bytes|].
    rewrite amap_amap. reflexivity.
Qed.

(** C6.  At a pixel with [|u| > 1e7] or [|v| > 1e7], whatever the other
    channel holds, the image is (0, 0, 0); and the pixel enters the
    reduction for [maxrad] as (0, 0), with magnitude 0. *)
Theorem unknown_flow_is_black (flow : flow_field) (i j : nat)
    (p : float64 * float64) :
  rectangular flow ->
  aget flow i j = Some p ->
  above_threshold (fst p) \/ above_threshold (snd p) ->
  exists img maxrad r,
    fst (flow2img flow) = Ok img
    /\ aget img i j = Some (0, 0, 0)%Z
    /\ aget (snd (flow2img flow)) i j = Some (of_int 0, of_int 0)
    /\ max_radius (chan_u (snd (flow2img flow))) (chan_v (snd (flow2img flow)))
       = Ok maxrad
    /\ aget (magnitude (chan_u (snd (flow2img flow)))
                       (chan_v (snd (flow2img flow)))) i j
       = Some (Fin r)
    /\ r == 0.
Proof.
  intros Hrect Hget Hp. apply is_unknown_iff in Hp.
  pose proof (aget_nonempty flow i j p Hget) as Hne.
  destruct (flow2img_fused flow Hrect Hne) as (maxrad & Hmax & _ & Himg).
  do 3 eexists. split; [exact Himg|].
  split; [rewrite aget_amap, Hget; cbn; now rewrite out_pixel_unknown|].
  rewrite flow2img_store.
  split; [rewrite aget_amap, Hget; cbn; unfold mask_pixel; now rewrite Hp|].
  split; [exact Hmax|].
  unfold magnitude, chan_u, chan_v. fuse.
  rewrite aget_amap, Hget. cbn [option_map]. unfold mask_pixel. rewrite Hp.
  cbn [fst snd]. split; [reflexivity|].
  apply sqrtQ_zero. reflexivity.
Qed.

(** C8.  The colour wheel has 55 = 15 + 6 + 4 + 11 + 13 + 6 rows.  For an
    angle [a] in [-1, 1], [fk = (a + 1) / 2 * 54 + 1] gives
    [k0 = floor(fk)] in [1, 55], and [k1] is [k0 + 1], or 1 when [k0] is
    55, so that [k0 - 1] and [k1 - 1] index rows of the wheel.  And every
    angle [compute_color] computes, for any pair of arrays of one shape,
    lies in [-1, 1], so that the call never fails on an index. *)
Theorem wheel_indices_in_bounds :
  length make_color_wheel = (15 + 6 + 4 + 11 + 13 + 6)%nat
  /\ length make_color_wheel = 55%nat
  /\ (forall a,
        -1 <= a <= 1 ->
        let fk := wheel_position 55 (Fin a) in
        let k0 := astype_int (ffloor fk) in
        let k1 := next_index 55 k0 in
        fk = Fin ((a + 1) / 2 * 54 + 1)
        /\ (1 <= k0 <= 55)%Z
        /\ (1 <= k1 <= 55)%Z
        /\ k1 = (if (k0 =? 55)%Z then 1 else k0 + 1)%Z
        /\ (exists row, np_index make_color_wheel (k0 - 1) = Ok row
                        /\ nth_error make_color_wheel (Z.to_nat (k0 - 1))
                           = Some row)
        /\ (exists row, np_index make_color_wheel (k1 - 1) = Ok row
                        /\ nth_error make_color_wheel (Z.to_nat (k1 - 1))
                           = Some row))
  /\ (forall u v : ndarray float64,
        same_shape u v = true ->
        let NAN_idx := amap2 orb (amap isnan u) (amap isnan v) in
        aall (fun x => exists a, x = Fin a /\ -1 <= a <= 1)
             (angles (aset_mask u NAN_idx (of_int 0))
                     (aset_mask v NAN_idx (of_int 0)))
        /\ forall i, exists c, color_channels u v i = Ok c).
Proof.
  split; [reflexivity|]. split; [reflexivity|]. split.
  - intros a Ha fk k0 k1.
    destruct (index_bounds a Ha) as (_ & Hk0 & Hk1 & Hnext & _).
    fold k0 in Hk0, Hk1, Hnext. fold k1 in Hk1, Hnext.
    assert (Hrow : forall k, (1 <= k <= 55)%Z ->
              exists row, np_index make_color_wheel (k - 1) = Ok row
                          /\ nth_error make_color_wheel (Z.to_nat (k - 1))
                             = Some row).
    { intros k Hk. unfold np_index. rewrite wheel_length.
      replace (k - 1 <? 0)%Z with false by (symmetry; apply Z.ltb_ge; lia).
      replace ((0 <=? k - 1) && (k - 1 <? Z.of_nat 55))%Z with true
        by (symmetry; apply andb_true_iff; split;
            [apply Z.leb_le | apply Z.ltb_lt]; lia).
      destruct (nth_error make_color_wheel (Z.to_nat (k - 1))) as [row|] eqn:E;
        [eauto|].
      apply nth_error_None in E. rewrite wheel_length in E. lia. }
    split; [apply wheel_position_fin|]. split; [exact Hk0|].
    split; [exact Hk1|]. split; [exact Hnext|]. split; now apply Hrow.
  - intros u v Hshape NAN_idx.
    destruct (same_shape_zip u v Hshape) as [Hu Hv].
    remember (amap2 pair u v) as base eqn:Hbase. clear Hbase.
    subst NAN_idx. rewrite Hu, Hv. split.
    + unfold angles, aset_mask. fuse. apply aall_amap. intros p.
      apply pixel_angle; destruct (fst p), (snd p); reflexivity.
    + intros i. eexists. apply color_channels_fused.
Qed.

End EncoderClaims.

(** *** The theorems at the sample field *)

Lemma sample_flow_rectangular : rectangular sample_flow.
Proof. repeat constructor. Defined.

(** C9 (as first stated, for every field) fails on a field without
    pixels: with two rows of width 0, and with no row at all, [np.max]
    raises [ValueError] on the empty channel and [flow2img] returns no
    image. *)
Lemma flow2img_raises_without_pixels :
  rectangular FlowSamples.empty_rows
  /\ shape FlowSamples.empty_rows = (2, 0)%nat
  /\ fst (flow2img (L := grid_libm) FlowSamples.empty_rows) = Raise ValueError
  /\ fst (flow2img (L := grid_libm) []) = Raise ValueError.
Proof.
  split; [repeat constructor|]. split; [reflexivity|].
  split; reflexivity.
Qed.

Lemma flow2img_shape_and_range_witness :
  rectangular sample_flow
  /\ (0 < fst (shape sample_flow))%nat
  /\ (0 < snd (shape sample_flow))%nat
  /\ exists img,
       fst (flow2img (L := grid_libm) sample_flow) = Ok img
       /\ shape img = shape sample_flow
       /\ row_lengths img = row_lengths sample_flow
       /\ aall byte_triple img.
Proof.
  split; [exact sample_flow_rectangular|].
  split; [cbn; lia|]. split; [cbn; lia|].
  destruct (flow2img_shape_and_range (LS := grid_libm_spec) sample_flow
              sample_flow_rectangular
              (Nat.lt_0_succ 1) (Nat.lt_0_succ 1))
    as (img & maxrad & cimg & Himg & Hshape & Hrows & Hbytes & _).
  exists img. repeat split; assumption.
Defined.

Lemma unknown_flow_is_black_witness :
  aget sample_flow 1 0 = Some (of_int 20000000, of_int 3)
  /\ above_threshold (of_int 20000000)
  /\ exists img,
       fst (flow2img (L := grid_libm) sample_flow) = Ok img
       /\ aget img 1 0 = Some (0, 0, 0)%Z
       /\ aget (snd (flow2img (L := grid_libm) sample_flow)) 1 0
          = Some (of_int 0, of_int 0).
Proof.
  split; [reflexivity|]. split; [reflexivity|].
  destruct (unknown_flow_is_black (LS := grid_libm_spec) sample_flow 1 0
              (of_int 20000000, of_int 3)
              sample_flow_rectangular eq_refl (or_introl eq_refl))
    as (img & maxrad & r & Himg & Hblack & Hmasked & _).
  exists img. repeat split; assumption.
Defined.

Lemma wheel_indices_in_bounds_witness :
  length make_color_wheel = 55%nat
  /\ -1 <= 1 <= 1
  /\ (1 <= astype_int (ffloor (wheel_position 55 (Fin 1))) <= 55)%Z
  /\ (1 <= next_index 55 (astype_int (ffloor (wheel_position 55 (Fin 1))))
      <= 55)%Z.
Proof.
  destruct (wheel_indices_in_bounds (LS := grid_libm_spec))
    as (_ & Hlen & Hidx & _).
  assert (Hone : -1 <= 1 <= 1) by (split; unfold Qle; cbn; lia).
  destruct (Hidx 1 Hone) as (_ & Hk0 & Hk1 & _).
  repeat split; assumption || apply Hk0 || apply Hk1 || apply Hone.
Defined.

End FlowFacts.

(** ** One call of the mapper, branch by branch *)

Module MapperCallFacts.
Import DatasetMapper MapperVocabulary MapperFacts.
Local Open Scope Z_scope.
Section WithFramework.
Context `{Framework}.

Lemma same_config_refl (s : DFFDatasetMapper) : same_config s s.
Proof. repeat split. Qed.

Lemma same_config_set (s : DFFDatasetMapper) (img : option loc)
    (id : option Z) :
  same_config s (set_key_frame s img id).
Proof. repeat split. Qed.

Ltac frame_leaf :=
  split;
  [ first [ exists []; split; [now rewrite app_nil_r | cbn; lia]
          | eexists; split; [rewrite <- ?app_assoc; reflexivity | cbn; lia] ]
  | unfold same_config; cbn; repeat split ].

(** X1.  Whatever the record, the draw and the state, and whether the call
    returns or raises: [__call__] only adds arrays (at most three, behind
    the ones that exist, none of which it changes or frees), and it never
    changes the configuration fields of [self]; only the key-frame cache
    can differ afterwards. *)
Theorem call_keeps_arrays_and_config (d : dataset_dict) (entropy : Z)
    (w : world) :
  let w' := snd (call d entropy w) in
  (exists new, arrays w' = arrays w ++ new /\ (length new <= 3)%nat)
  /\ same_config (self w) (self w').
Proof.
  cbv zeta. rewrite call_world.
  unfold pair_frames. unfold_mapper. cbn.
  repeat (case_split; cbn; unfold_mapper; cbn); frame_leaf.
Qed.


(** X3.  The training branch for a video record: the reference image is read
    from [vid_image_root] joined with the pattern formatted at [ref_id];
    the offset drawn lies in [frame_offset_min, frame_offset_max + 1];
    [ref_id] is clamped into the sequence, and is [frame_seg_id + offset]
    when that is a frame of the sequence.  Current and reference image are
    two new arrays; the [pattern] key is gone from the dict; the cache is
    not touched. *)
Theorem training_video_reference (d : dataset_dict) (entropy : Z) (w : world)
    (pat : string) (id len : Z) (px rpx : pixels) (wh : Z * Z) :
  is_train (self w) = true ->
  pattern d = Some pat ->
  frame_seg_id d = Some id ->
  frame_seg_len d = Some len ->
  frame_offset_min (self w) <= frame_offset_max (self w) + 1 ->
  decode_image (file_name d) (image_format (self w)) = Some px ->
  check_image_size d px = Ok wh ->
  let offset :=
    frame_offset_min (self w)
    + entropy mod (frame_offset_max (self w) + 1 - frame_offset_min (self w) + 1)
  in
  let ref_id := clamp_ref_id id offset len in
  decode_image
    (path_join (vid_image_root (self w)) (format_pattern pat ref_id))
    (image_format (self w)) = Some rpx ->
  let cur := length (arrays w) in
  pair_frames d entropy w
  = (Ok (pop_pattern (with_size d wh), cur, S cur),
     {| arrays := (arrays w ++ [px]) ++ [rpx]; self := self w |})
  /\ frame_offset_min (self w) <= offset <= frame_offset_max (self w) + 1
  /\ (1 <= len -> 0 <= ref_id <= len - 1)
  /\ (0 <= id + offset <= len - 1 -> ref_id = id + offset).
Proof.
  intros Htrain Hpat Hid Hlen Hrange Hdec Hchk offset ref_id Hrdec cur.
  split; [|split; [|split]].
  - unfold pair_frames. unfold_mapper. cbn. rewrite Hdec. cbn.
    rewrite deref_new, Hchk. cbn. rewrite Htrain. unfold_mapper. cbn.
    rewrite Hpat. cbn.
    replace (frame_offset_max (self w) + 1 <? frame_offset_min (self w))
      with false by (symmetry; apply Z.ltb_ge; lia).
    cbn. rewrite Hid. cbn. rewrite Hlen. cbn.
    fold offset. fold ref_id. rewrite Hrdec. cbn.
    rewrite length_app. cbn. subst cur. now rewrite Nat.add_1_r.
  - subst offset.
    pose proof (Z.mod_pos_bound entropy
      (frame_offset_max (self w) + 1 - frame_offset_min (self w) + 1)
      ltac:(lia)).
    lia.
  - intros Hl. now apply clamp_ref_id_range.
  - intros Hin. subst ref_id. unfold clamp_ref_id. lia.
Qed.

(** X4.  The offsets [random.randint(frame_offset_min,
    frame_offset_max + 1)] can give are exactly the integers from
    [frame_offset_min] to [frame_offset_max + 1], both included; with an
    empty range there is none. *)
Theorem offsets_drawn (s : DFFDatasetMapper) (offset : Z) (w : world) :
  (exists entropy, draw_offset s entropy w = (Ok offset, w))
  <-> frame_offset_min s <= offset <= frame_offset_max s + 1.
Proof.
  split.
  - intros [entropy He]. eapply draw_offset_range. exact He.
  - intros Hr. eexists. now apply draw_offset_reaches.
Qed.

(** X5.  An offset range with [frame_offset_max + 1 < frame_offset_min]:
    every training call for a video record raises the [ValueError] of
    [random.randint], after the current image was read. *)
Theorem empty_offset_range_raises (d : dataset_dict) (entropy : Z) (w : world)
    (pat : string) (px : pixels) (wh : Z * Z) :
  is_train (self w) = true ->
  pattern d = Some pat ->
  frame_offset_max (self w) + 1 < frame_offset_min (self w) ->
  decode_image (file_name d) (image_format (self w)) = Some px ->
  check_image_size d px = Ok wh ->
  call d entropy w
  = (Raise ValueError, {| arrays := arrays w ++ [px]; self := self w |}).
Proof.
  intros Htrain Hpat Hrange Hdec Hchk. apply call_raises.
  unfold pair_frames. unfold_mapper. cbn. rewrite Hdec. cbn.
  rewrite deref_new, Hchk. cbn. rewrite Htrain. unfold_mapper. cbn.
  rewrite Hpat. cbn.
  replace (frame_offset_max (self w) + 1 <? frame_offset_min (self w))
    with true by (symmetry; apply Z.ltb_lt; lia).
  reflexivity.
Qed.

(** X6.  Inference on a record without [frame_seg_id] (a still image):
    [KeyError] after the current image was read; the cache is not
    touched. *)
Theorem inference_needs_frame_seg_id (d : dataset_dict) (entropy : Z)
    (w : world) (px : pixels) (wh : Z * Z) :
  is_train (self w) = false ->
  frame_seg_id d = None ->
  decode_image (file_name d) (image_format (self w)) = Some px ->
  check_image_size d px = Ok wh ->
  call d entropy w
  = (Raise KeyError, {| arrays := arrays w ++ [px]; self := self w |}).
Proof.
  intros Htest Hid Hdec Hchk. apply call_raises.
  unfold pair_frames. unfold_mapper. cbn. rewrite Hdec. cbn.
  rewrite deref_new, Hchk. cbn. rewrite Htest. unfold_mapper. cbn.
  rewrite Hid. reflexivity.
Qed.

(** X7.  Inference on a key frame whose record has no [frame_seg_len]: the
    call raises [KeyError], but only after the frame was stored in the
    cache, where the next call finds it. *)
Theorem key_frame_cached_before_key_error (d : dataset_dict) (entropy : Z)
    (w : world) (px : pixels) (wh : Z * Z) (id : Z) :
  is_train (self w) = false ->
  frame_seg_id d = Some id ->
  frame_seg_len d = None ->
  key_frame_duration (self w) <> 0 ->
  id mod key_frame_duration (self w) = 0 ->
  decode_image (file_name d) (image_format (self w)) = Some px ->
  check_image_size d px = Ok wh ->
  let key := S (S (length (arrays w))) in
  let w' := {| arrays := ((arrays w ++ [px]) ++ [px]) ++ [px];
               self := set_key_frame (self w) (Some key) (Some id) |} in
  call d entropy w = (Raise KeyError, w')
  /\ deref (arrays w') key = px.
Proof.
  intros Htest Hid Hlen HD Hkey Hdec Hchk key w'. split.
  - apply call_raises.
    unfold pair_frames. unfold_mapper. cbn. rewrite Hdec. cbn.
    rewrite deref_new, Hchk. cbn. rewrite Htest. unfold_mapper. cbn.
    rewrite Hid. cbn.
    apply Z.eqb_neq in HD. rewrite HD. cbn.
    apply Z.eqb_eq in Hkey. rewrite Hkey. cbn.
    rewrite Hlen. cbn.
    repeat (rewrite deref_new || rewrite deref_second).
    rewrite !length_app. cbn. rewrite !Nat.add_1_r. reflexivity.
  - subst w' key. cbn [arrays].
    replace (S (S (length (arrays w))))
      with (length ((arrays w ++ [px]) ++ [px]))
      by (rewrite !length_app; cbn; lia).
    apply deref_new.
Qed.

(** X8.  [key_frame_duration = 0]: every inference call on a record with a
    [frame_seg_id] raises [ZeroDivisionError]. *)
Theorem zero_duration_raises (d : dataset_dict) (entropy : Z) (w : world)
    (px : pixels) (wh : Z * Z) (id : Z) :
  is_train (self w) = false ->
  frame_seg_id d = Some id ->
  key_frame_duration (self w) = 0 ->
  decode_image (file_name d) (image_format (self w)) = Some px ->
  check_image_size d px = Ok wh ->
  call d entropy w
  = (Raise ZeroDivisionError,
     {| arrays := arrays w ++ [px]; self := self w |}).
Proof.
  intros Htest Hid HD Hdec Hchk. apply call_raises.
  unfold pair_frames. unfold_mapper. cbn. rewrite Hdec. cbn.
  rewrite deref_new, Hchk. cbn. rewrite Htest. unfold_mapper. cbn.
  rewrite Hid. cbn. rewrite HD. reflexivity.
Qed.


(** X9.  One inference call on a key frame: the current image, the reference
    image and the cached image are three new arrays with the pixels of the
    file; the cache keeps the third under the frame's index, unless the
    frame is the last of its sequence, which empties the cache. *)
Theorem key_frame_makes_three_copies (d : dataset_dict) (entropy : Z)
    (w : world) (px : pixels) (wh : Z * Z) (id len : Z) :
  is_train (self w) = false ->
  frame_seg_id d = Some id ->
  frame_seg_len d = Some len ->
  key_frame_duration (self w) <> 0 ->
  id mod key_frame_duration (self w) = 0 ->
  decode_image (file_name d) (image_format (self w)) = Some px ->
  check_image_size d px = Ok wh ->
  let cur := length (arrays w) in
  let ref := S cur in
  let key := S ref in
  exists w',
    pair_frames d entropy w
    = (Ok (pop_annotations (with_size d wh), cur, ref), w')
    /\ arrays w' = arrays w ++ [px; px; px]
    /\ deref (arrays w') cur = px
    /\ deref (arrays w') ref = px
    /\ deref (arrays w') key = px
    /\ (id + 1 <> len ->
        key_frame_img (self w') = Some key
        /\ key_frame_seg_id (self w') = Some id)
    /\ (id + 1 = len ->
        key_frame_img (self w') = None /\ key_frame_seg_id (self w') = None).
Proof.
  intros Htest Hid Hlen HD Hkey Hdec Hchk cur ref key.
  eexists. split.
  - now apply (pair_frames_key d entropy w px wh id len).
  - cbn [arrays self]. split; [now rewrite <- !app_assoc|].
    split; [rewrite deref_old by (rewrite !length_app; cbn; lia);
            apply deref_second|].
    split; [rewrite deref_old by (rewrite !length_app; cbn; lia);
            apply deref_next|].
    split.
    { subst key ref cur.
      replace (S (S (length (arrays w))))
        with (length ((arrays w ++ [px]) ++ [px]))
        by (rewrite !length_app; cbn; lia).
      apply deref_new. }
    split.
    + intros Hne. apply Z.eqb_neq in Hne. rewrite Hne. now split.
    + intros He. apply Z.eqb_eq in He. rewrite He. now split.
Qed.

(** X10.  One inference call between key frames, with a cached key frame less
    than [key_frame_duration] behind: the reference image is the cached
    array itself (nothing is copied, only the current image is new),
    whatever file the record names; the cache stays as it is unless the
    frame is the last of its sequence. *)
Theorem between_frames_share_cache (d : dataset_dict) (entropy : Z)
    (w : world) (px : pixels) (wh : Z * Z) (id len key_id : Z) (key : loc) :
  is_train (self w) = false ->
  frame_seg_id d = Some id ->
  frame_seg_len d = Some len ->
  id mod key_frame_duration (self w) <> 0 ->
  key_frame_img (self w) = Some key ->
  key_frame_seg_id (self w) = Some key_id ->
  0 < id - key_id < key_frame_duration (self w) ->
  decode_image (file_name d) (image_format (self w)) = Some px ->
  check_image_size d px = Ok wh ->
  exists w',
    pair_frames d entropy w
    = (Ok (pop_annotations (with_size d wh), length (arrays w), key), w')
    /\ arrays w' = arrays w ++ [px]
    /\ ((key < length (arrays w))%nat ->
        deref (arrays w') key = deref (arrays w) key)
    /\ (id + 1 <> len -> self w' = self w)
    /\ (id + 1 = len ->
        key_frame_img (self w') = None /\ key_frame_seg_id (self w') = None).
Proof.
  intros Htest Hid Hlen Hkey Himg Hseg Hrange Hdec Hchk.
  eexists. split.
  - apply (pair_frames_between d entropy w px wh id len key_id key);
      auto; lia.
  - cbn [arrays self]. split; [reflexivity|].
    split; [intros Hv; now apply deref_old|].
    split.
    + intros Hne. apply Z.eqb_neq in Hne. now rewrite Hne.
    + intros He. apply Z.eqb_eq in He. rewrite He. now split.
Qed.

(** X11.  What a returning inference call leaves in the cache: nothing after
    the last frame of a sequence; otherwise a key frame, which is the
    current frame or lies less than [key_frame_duration] behind it (and is
    then the reference image returned). *)
Theorem inference_leaves_recent_key (d dd : dataset_dict) (entropy : Z)
    (w w' : world) (cur ref : loc) :
  is_train (self w) = false ->
  pair_frames d entropy w = (Ok (dd, cur, ref), w') ->
  exists id len,
    frame_seg_id d = Some id
    /\ frame_seg_len d = Some len
    /\ (id + 1 = len ->
        key_frame_img (self w') = None /\ key_frame_seg_id (self w') = None)
    /\ (id + 1 <> len ->
        exists key key_id,
          key_frame_img (self w') = Some key
          /\ key_frame_seg_id (self w') = Some key_id
          /\ (id mod key_frame_duration (self w) = 0 /\ key_id = id
              \/ ref = key /\ 0 < id - key_id < key_frame_duration (self w))).
Proof.
  intros Htest. unfold pair_frames. unfold_mapper. cbn.
  rewrite Htest. unfold_mapper. cbn.
  repeat (case_split; cbn; unfold_mapper; cbn);
    intros Hp; try discriminate; injection Hp as <- <- <- <-;
    do 2 eexists; (split; [reflexivity|]); (split; [reflexivity|]);
    repeat match goal with
           | E : (_ =? _) = true |- _ => apply Z.eqb_eq in E
           | E : (_ =? _) = false |- _ => apply Z.eqb_neq in E
           | E : (_ && _) = true |- _ => apply andb_true_iff in E as [? ?]
           | E : (_ <? _) = true |- _ => apply Z.ltb_lt in E
           end;
    cbn; (split; [intros; try lia; now split|]); intros; try contradiction;
    try lia;
    repeat match goal with
           | E : key_frame_img _ = _ |- _ => rewrite E
           | E : key_frame_seg_id _ = _ |- _ => rewrite E
           end;
    do 2 eexists; (split; [reflexivity|]); (split; [reflexivity|]);
    first [left; split; [assumption | reflexivity] | right; split; [reflexivity | lia]].
Qed.

(** X12.  In inference, a returning call carries no annotations and builds no
    instances, also for a record that has annotations; the record's
    [pattern] and [file_name] are kept. *)
Theorem inference_builds_no_instances (d : dataset_dict) (entropy : Z)
    (w w' : world) (out : mapped) :
  is_train (self w) = false ->
  call d entropy w = (Ok out, w') ->
  out_instances out = None
  /\ annotations (out_dict out) = None
  /\ pattern (out_dict out) = pattern d
  /\ file_name (out_dict out) = file_name d.
Proof.
  intros Htest. unfold call, pair_frames. unfold_mapper. cbn.
  rewrite Htest. unfold_mapper. cbn.
  repeat (case_split; cbn; unfold_mapper; cbn);
    intros Hc; try discriminate; injection Hc as <- <-; cbn; auto.
Qed.

(** X13.  In training, a returning call builds its instances from the
    annotations whose [iscrowd] is absent or 0, in their order, each
    transformed with the transform drawn for the current image and with
    the shape of the augmented current image, which is also the shape the
    instances are built for; the tensor [image_cur] is that augmented
    image; the keys [pattern] and [annotations] are gone from the returned
    dict. *)
Theorem training_drops_crowd_annotations (d : dataset_dict) (entropy : Z)
    (w w' : world) (out : mapped) :
  is_train (self w) = true ->
  call d entropy w = (Ok out, w') ->
  let image_cur := deref (arrays w') (length (arrays w)) in
  let tfm := fst (augmentations image_cur) in
  let shape := image_shape (snd (augmentations image_cur)) in
  out_instances out
  = option_map
      (fun objs =>
         filter_empty_instances
           (annotations_to_instances
              (map (fun obj => transform_instance_annotations obj tfm shape)
                   (filter (fun obj =>
                              match iscrowd obj with
                              | Some c => c =? 0
                              | None => true
                              end) objs))
              shape))
      (annotations d)
  /\ out_image_cur out = as_tensor (snd (augmentations image_cur))
  /\ pattern (out_dict out) = None
  /\ annotations (out_dict out) = None.
Proof.
  intros Htrain. unfold call, pair_frames. unfold_mapper. cbn.
  rewrite Htrain. unfold_mapper. cbn.
  repeat (case_split; cbn; unfold_mapper; cbn);
    intros Hc; try discriminate; injection Hc as <- <-; cbn;
    rewrite ?deref_new, ?deref_second;
    try (rewrite deref_old by (rewrite ?length_app; cbn; lia));
    rewrite ?deref_new, ?deref_second;
    repeat match goal with
           | E : augmentations _ = _ |- _ => revert E
           end;
    rewrite ?deref_new, ?deref_second;
    try (rewrite deref_old by (rewrite ?length_app; cbn; lia));
    rewrite ?deref_new, ?deref_second;
    intros E; rewrite E; cbn;
    (split; [destruct (annotations d); reflexivity|]);
    repeat split.
Qed.

End WithFramework.

(** *** The theorems at the toy video *)

Lemma training_video_reference_witness :
  let w := {| arrays := []; self := init true "BGR" (-9) 0 10 "vid" |} in
  is_train (self w) = true
  /\ frame_offset_min (self w) <= frame_offset_max (self w) + 1
  /\ pair_frames (H := toy_framework) (toy_frame 5 1) 3 w
     = (Ok (pop_pattern (with_size (toy_frame 5 1) (1, 1)), 0%nat, 1%nat),
        {| arrays := [toy_content 1; toy_content 0]; self := self w |})
  /\ clamp_ref_id 1 (-6) 5 = 0.
Proof.
  cbv zeta.
  assert (Hrange : -9 <= 0 + 1) by lia.
  pose proof (training_video_reference (H := toy_framework) (toy_frame 5 1) 3
                {| arrays := []; self := init true "BGR" (-9) 0 10 "vid" |}
                "" 1 5 (toy_content 1) (toy_content 0) (1, 1)
                eq_refl eq_refl eq_refl eq_refl Hrange eq_refl eq_refl
                eq_refl) as Hthm.
  cbv zeta in Hthm. destruct Hthm as (Hpair & _).
  split; [reflexivity|]. split; [exact Hrange|].
  split; [exact Hpair | reflexivity].
Defined.

Lemma empty_offset_range_raises_witness :
  let w := {| arrays := []; self := init true "BGR" 5 0 10 "vid" |} in
  frame_offset_max (self w) + 1 < frame_offset_min (self w)
  /\ call (H := toy_framework) (toy_frame 5 3) 0 w
     = (Raise ValueError,
        {| arrays := [toy_content 3]; self := self w |}).
Proof.
  cbv zeta.
  assert (Hempty : 0 + 1 < 5) by lia.
  split; [exact Hempty|].
  apply (empty_offset_range_raises (H := toy_framework) (toy_frame 5 3) 0
           {| arrays := []; self := init true "BGR" 5 0 10 "vid" |}
           "" (toy_content 3) (1, 1) eq_refl eq_refl Hempty eq_refl eq_refl).
Defined.

Lemma inference_needs_frame_seg_id_witness :
  let w := {| arrays := []; self := init false "BGR" (-9) 0 2 "vid" |} in
  frame_seg_id toy_still = None
  /\ call (H := toy_framework) toy_still 0 w
     = (Raise KeyError, {| arrays := [[[[7]]]]; self := self w |}).
Proof.
  cbv zeta. split; [reflexivity|].
  apply (inference_needs_frame_seg_id (H := toy_framework) toy_still 0
           {| arrays := []; self := init false "BGR" (-9) 0 2 "vid" |}
           [[[7]]] (1, 1) eq_refl eq_refl eq_refl eq_refl).
Defined.

Lemma key_frame_cached_before_key_error_witness :
  let w := {| arrays := []; self := init false "BGR" (-9) 0 2 "vid" |} in
  frame_seg_len toy_frame_no_len = None
  /\ exists w',
       call (H := toy_framework) toy_frame_no_len 0 w = (Raise KeyError, w')
       /\ key_frame_img (self w') = Some 2%nat
       /\ key_frame_seg_id (self w') = Some 0
       /\ deref (arrays w') 2%nat = toy_content 0.
Proof.
  cbv zeta. split; [reflexivity|].
  assert (Hd : 2 <> 0) by discriminate.
  pose proof (key_frame_cached_before_key_error (H := toy_framework)
                toy_frame_no_len 0
                {| arrays := []; self := init false "BGR" (-9) 0 2 "vid" |}
                (toy_content 0) (1, 1) 0
                eq_refl eq_refl eq_refl Hd eq_refl eq_refl eq_refl) as Hthm.
  cbv zeta in Hthm. destruct Hthm as (Hcall & Hkey).
  eexists. split; [exact Hcall|].
  split; [reflexivity|]. split; [reflexivity | exact Hkey].
Defined.

Lemma zero_duration_raises_witness :
  let w := {| arrays := []; self := init false "BGR" (-9) 0 0 "vid" |} in
  key_frame_duration (self w) = 0
  /\ call (H := toy_framework) (toy_frame 5 0) 0 w
     = (Raise ZeroDivisionError,
        {| arrays := [toy_content 0]; self := self w |}).
Proof.
  cbv zeta. split; [reflexivity|].
  apply (zero_duration_raises (H := toy_framework) (toy_frame 5 0) 0
           {| arrays := []; self := init false "BGR" (-9) 0 0 "vid" |}
           (toy_content 0) (1, 1) 0 eq_refl eq_refl eq_refl eq_refl eq_refl).
Defined.

Lemma key_frame_makes_three_copies_witness :
  let w := {| arrays := []; self := init false "BGR" (-9) 0 2 "vid" |} in
  2 mod key_frame_duration (self w) = 0
  /\ exists w',
       pair_frames (H := toy_framework) (toy_frame 5 2) 0 w
       = (Ok (pop_annotations (with_size (toy_frame 5 2) (1, 1)),
              0%nat, 1%nat), w')
       /\ arrays w' = [toy_content 2; toy_content 2; toy_content 2]
       /\ key_frame_img (self w') = Some 2%nat
       /\ key_frame_seg_id (self w') = Some 2.
Proof.
  cbv zeta. split; [reflexivity|].
  assert (Hd : 2 <> 0) by discriminate.
  assert (Hlast : 2 + 1 <> 5) by discriminate.
  pose proof (key_frame_makes_three_copies (H := toy_framework)
                (toy_frame 5 2) 0
                {| arrays := []; self := init false "BGR" (-9) 0 2 "vid" |}
                (toy_content 2) (1, 1) 2 5
                eq_refl eq_refl eq_refl Hd eq_refl eq_refl eq_refl) as Hthm.
  cbv zeta in Hthm.
  destruct Hthm as (w' & Hpair & Harr & _ & _ & _ & Hkeep & _).
  exists w'. split; [exact Hpair|]. split; [exact Harr|].
  exact (Hkeep Hlast).
Defined.

Lemma between_frames_share_cache_witness :
  1 mod key_frame_duration (self toy_cached) <> 0
  /\ key_frame_img (self toy_cached) = Some 2%nat
  /\ exists w',
       pair_frames (H := toy_framework) (toy_frame 5 1) 0 toy_cached
       = (Ok (pop_annotations (with_size (toy_frame 5 1) (1, 1)),
              3%nat, 2%nat), w')
       /\ arrays w' = arrays toy_cached ++ [toy_content 1]
       /\ deref (arrays w') 2%nat = toy_content 0
       /\ self w' = self toy_cached.
Proof.
  assert (Hmod : 1 mod 2 <> 0) by (vm_compute; discriminate).
  assert (Hnear : 0 < 1 - 0 < 2) by lia.
  assert (Hlast : 1 + 1 <> 5) by discriminate.
  split; [exact Hmod|]. split; [reflexivity|].
  destruct (between_frames_share_cache (H := toy_framework) (toy_frame 5 1)
              0 toy_cached (toy_content 1) (1, 1) 1 5 0 2%nat
              eq_refl eq_refl eq_refl Hmod eq_refl eq_refl Hnear eq_refl
              eq_refl)
    as (w' & Hpair & Harr & Hsame & Hkeep & _).
  exists w'. split; [exact Hpair|]. split; [exact Harr|].
  split; [|exact (Hkeep Hlast)].
  rewrite Hsame; [reflexivity | cbn; lia].
Defined.

Lemma inference_leaves_recent_key_witness :
  exists dd cur ref w',
    pair_frames (H := toy_framework) (toy_frame 5 1) 0 toy_cached
    = (Ok (dd, cur, ref), w')
    /\ key_frame_img (self w') = Some ref
    /\ key_frame_seg_id (self w') = Some 0.
Proof.
  destruct (pair_frames (H := toy_framework) (toy_frame 5 1) 0 toy_cached)
    as [[e | [[dd cur] ref]] w'] eqn:Hpair; [vm_compute in Hpair; discriminate|].
  exists dd, cur, ref, w'. split; [reflexivity|].
  destruct (inference_leaves_recent_key (H := toy_framework) (toy_frame 5 1)
              dd 0 toy_cached w' cur ref eq_refl Hpair)
    as (id & len & Hid & Hlen & _ & Hkeep).
  injection Hid as <-. injection Hlen as <-.
  assert (Hlast : 1 + 1 <> 5) by discriminate.
  destruct (Hkeep Hlast) as (key & key_id & Himg & Hseg & Hcase).
  destruct Hcase as [[Hmod _] | [-> Hnear]];
    [vm_compute in Hmod; discriminate|].
  split; [exact Himg|]. rewrite Hseg. f_equal.
  change (key_frame_duration (self toy_cached)) with 2 in Hnear. lia.
Defined.

Lemma inference_builds_no_instances_witness :
  let w := {| arrays := []; self := init false "BGR" (-9) 0 2 "vid" |} in
  exists out,
    fst (call (H := toy_framework) toy_annotated 0 w) = Ok out
    /\ annotations toy_annotated <> None
    /\ out_instances out = None
    /\ annotations (out_dict out) = None.
Proof.
  cbv zeta.
  destruct (call (H := toy_framework) toy_annotated 0
              {| arrays := []; self := init false "BGR" (-9) 0 2 "vid" |})
    as [[e | out] w'] eqn:Hcall; [vm_compute in Hcall; discriminate|].
  exists out. split; [reflexivity|]. split; [discriminate|].
  destruct (inference_builds_no_instances (H := toy_framework) toy_annotated
              0 {| arrays := []; self := init false "BGR" (-9) 0 2 "vid" |}
              w' out eq_refl Hcall) as (Hinst & Hanno & _).
  split; assumption.
Defined.

Lemma training_drops_crowd_annotations_witness :
  let w := {| arrays := []; self := init true "BGR" (-9) 0 10 "vid" |} in
  exists out,
    fst (call (H := toy_framework) toy_annotated 3 w) = Ok out
    /\ option_map (map iscrowd) (annotations toy_annotated)
       = Some [Some 1; None; Some 0]
    /\ option_map (map iscrowd) (out_instances out) = Some [None; Some 0]
    /\ out_image_cur out = toy_content 0
    /\ annotations (out_dict out) = None.
Proof.
  cbv zeta.
  destruct (call (H := toy_framework) toy_annotated 3
              {| arrays := []; self := init true "BGR" (-9) 0 10 "vid" |})
    as [[e | out] w'] eqn:Hcall; [vm_compute in Hcall; discriminate|].
  exists out. split; [reflexivity|]. split; [reflexivity|].
  pose proof (training_drops_crowd_annotations (H := toy_framework)
                toy_annotated 3
                {| arrays := []; self := init true "BGR" (-9) 0 10 "vid" |}
                w' out eq_refl Hcall) as Hthm.
  cbv zeta in Hthm. destruct Hthm as (Hinst & Hcur & _ & Hanno).
  assert (Harr : arrays w' = [toy_content 0; toy_content 0])
    by (vm_compute in Hcall; now injection Hcall as _ <-).
  rewrite Harr in Hinst, Hcur.
  split; [rewrite Hinst; reflexivity|]. split; [exact Hcur | exact Hanno].
Defined.

End MapperCallFacts.

(** ** The encoder at its edges *)

Module EncoderFacts.
Import Np Nd FlowVisualizer FlowSamples FlowFacts.
Local Open Scope Q_scope.

Lemma amap_no_elements {A} (f : A -> A) (a : ndarray A) :
  concat a = [] -> amap f a = a.
Proof.
  unfold amap. induction a as [|r a IH]; cbn; [reflexivity|].
  intros Hc. apply app_eq_nil in Hc as [-> Hc]. cbn. now rewrite IH.
Qed.

Lemma mask_pixel_known (p : float64 * float64) :
  is_unknown (mask_pixel p) = false.
Proof.
  unfold mask_pixel. destruct (is_unknown p) eqn:E; [reflexivity | exact E].
Qed.

Lemma mask_pixel_idempotent (p : float64 * float64) :
  mask_pixel (mask_pixel p) = mask_pixel p.
Proof.
  unfold mask_pixel at 1. now rewrite mask_pixel_known.
Qed.

Lemma fold_fmax_nan (l : list float64) : fold_left fmax l NaN = NaN.
Proof. induction l as [|x l IH]; cbn; auto. Qed.

Lemma fold_fmax_has_nan (l : list float64) (x : float64) :
  In NaN (x :: l) -> fold_left fmax l x = NaN.
Proof.
  revert x. induction l as [|y l IH]; intros x Hin.
  - destruct Hin as [-> | []]. reflexivity.
  - cbn [fold_left]. destruct Hin as [-> | [-> | Hin]].
    + cbn. apply fold_fmax_nan.
    + replace (fmax x NaN) with NaN by (unfold fmax; destruct x; reflexivity).
      apply fold_fmax_nan.
    + apply IH. now right.
Qed.

(** The maximum of finite values: an upper bound that is attained. *)
Lemma fold_fmax_fin (l : list float64) : forall x : Q,
  Forall (fun y => exists r, y = Fin r) l ->
  exists m,
    fold_left fmax l (Fin x) = Fin m
    /\ In (Fin m) (Fin x :: l)
    /\ x <= m
    /\ Forall (fun y => exists r, y = Fin r /\ r <= m) l.
Proof.
  induction l as [|y l IH]; intros x Hall.
  - exists x. cbn. repeat split; auto. apply Qle_refl.
  - inversion Hall as [|? ? [r ->] Hall']; subst. cbn [fold_left].
    unfold fmax at 2. cbn [isnan flt].
    destruct (Qltb x r) eqn:E.
    + apply Qltb_true in E.
      destruct (IH r Hall') as (m & Hm & Hin & Hle & Hrest).
      exists m. split; [exact Hm|]. split.
      * destruct Hin as [Hin | Hin]; [right; left; exact Hin | right; right; exact Hin].
      * split; [lra|]. constructor; [eauto|exact Hrest].
    + apply Qltb_false in E.
      destruct (IH x Hall') as (m & Hm & Hin & Hle & Hrest).
      exists m. split; [exact Hm|]. split.
      * destruct Hin as [Hin | Hin]; [left; exact Hin | right; right; exact Hin].
      * split; [exact Hle|]. constructor; [exists r; split; [reflexivity | lra] | exact Hrest].
Qed.

Section WithLibm.
Context {L : Libm}.

(** X14.  A field without pixels (no rows, or rows of width 0): [flow2img]
    raises the [ValueError] of [np.max] on an empty array, and the field is
    as it was. *)
Theorem flow2img_empty_raises (flow : flow_field) :
  concat flow = [] ->
  flow2img flow = (Raise ValueError, flow).
Proof.
  intros Hempty. unfold flow2img. rewrite masked_store.
  rewrite (amap_no_elements mask_pixel flow Hempty).
  unfold np_max at 1, chan_u. rewrite concat_amap, Hempty. reflexivity.
Qed.

(** X15.  The array [flow2img] leaves to its caller has no unknown pixel, so a
    second call on it stores nothing new. *)
Theorem masking_is_idempotent (flow : flow_field) :
  snd (flow2img (snd (flow2img flow))) = snd (flow2img flow)
  /\ aall (fun p => is_unknown p = false) (snd (flow2img flow)).
Proof.
  rewrite !flow2img_store. split.
  - rewrite amap_amap. apply amap_ext, mask_pixel_idempotent.
  - apply aall_amap, mask_pixel_known.
Qed.

End WithLibm.

Section WithContract.
Context `{LS : LibmSpec}.

(** X16.  A NaN component in a pixel that is not masked as unknown makes
    [np.max(rad)] NaN, and [max(-1, nan)] is -1: every component of the
    field is then divided by -1, and the pixel with the NaN comes out
    black. *)
Theorem nan_makes_maxrad_minus_one (flow : flow_field) (i j : nat)
    (p : float64 * float64) :
  rectangular flow ->
  aget flow i j = Some p ->
  is_unknown p = false ->
  isnan (fst p) || isnan (snd p) = true ->
  max_radius (chan_u (snd (flow2img flow))) (chan_v (snd (flow2img flow)))
  = Ok (of_int (-1))
  /\ fst (flow2img flow) = Ok (amap (out_pixel (of_int (-1))) flow)
  /\ (exists img, fst (flow2img flow) = Ok img
                  /\ aget img i j = Some (0, 0, 0)%Z)
  /\ forall a, normalize (of_int (-1)) (Fin a) = Fin (a / inject_Z (-1) + np_eps).
Proof.
  intros Hrect Hget Hknown Hnan.
  pose proof (aget_nonempty flow i j p Hget) as Hne.
  destruct (flow2img_fused flow Hrect Hne) as (maxrad & Hmax & _ & Himg).
  assert (Hminus : maxrad = of_int (-1)).
  { assert (Hin : In p (concat flow)).
    { unfold aget in Hget.
      destruct (nth_error flow i) as [r|] eqn:Hr; [|discriminate].
      apply in_concat. exists r. split; eauto using nth_error_In. }
    revert Hmax. unfold max_radius, magnitude, chan_u, chan_v. fuse.
    unfold np_max. rewrite concat_amap.
    destruct (concat flow) as [|q qs] eqn:Hc; [contradiction|].
    cbn [map rbind Ok].
    rewrite fold_fmax_has_nan.
    - intros Heq. injection Heq as <-. reflexivity.
    - change (In NaN (map (fun x => fsqrt (fadd (fpow2 (fst (mask_pixel x)))
                                               (fpow2 (snd (mask_pixel x)))))
                          (q :: qs))).
      apply in_map_iff. exists p. split; [|exact Hin].
      unfold mask_pixel. rewrite Hknown.
      destruct p as [[| |a|] [| |b|]]; try discriminate; reflexivity. }
  subst maxrad. rewrite flow2img_store.
  split; [exact Hmax|]. split; [exact Himg|]. split.
  - eexists. split; [exact Himg|]. rewrite aget_amap, Hget. cbn [option_map].
    f_equal. unfold out_pixel, float_pixel, blank_unknown, mask_pixel.
    rewrite Hknown.
    assert (Hn : isnan (normalize (of_int (-1)) (fst p))
                 || isnan (normalize (of_int (-1)) (snd p)) = true).
    { destruct p as [[| |a|] [| |b|]]; try discriminate; reflexivity. }
    unfold encode_pixel. rewrite !pixel_floor_nan by (exact Hn || lia).
    reflexivity.
  - intros a. unfold normalize, of_int.
    rewrite fdiv_fin by (intros Hc; discriminate). reflexivity.
Qed.

(** X17.  Without NaN, [maxrad] is the largest magnitude of the masked field:
    a non-negative number that bounds every magnitude and is one of
    them; the floor -1 of [max(-1, ...)] never applies. *)
Theorem maxrad_is_largest_magnitude (flow : flow_field) :
  concat flow <> [] ->
  aall (fun p => isnan (fst p) = false /\ isnan (snd p) = false) flow ->
  let masked := snd (flow2img flow) in
  let rad := magnitude (chan_u masked) (chan_v masked) in
  exists m,
    max_radius (chan_u masked) (chan_v masked) = Ok (Fin m)
    /\ 0 <= m
    /\ In (Fin m) (concat rad)
    /\ aall (fun x => exists r, x = Fin r /\ 0 <= r <= m) rad.
Proof.
  intros Hne Hfin masked rad. subst rad masked. rewrite flow2img_store.
  unfold max_radius, magnitude, chan_u, chan_v. fuse.
  set (g := fun x : float64 * float64 =>
              fsqrt (fadd (fpow2 (fst (mask_pixel x)))
                          (fpow2 (snd (mask_pixel x))))).
  assert (Hg : forall p, In p (concat flow) -> exists r, g p = Fin r /\ 0 <= r).
  { intros p Hp. apply in_concat in Hp as (row & Hrow & Hp).
    unfold aall in Hfin. rewrite Forall_forall in Hfin.
    specialize (Hfin row Hrow). rewrite Forall_forall in Hfin.
    destruct (Hfin p Hp) as [Hu Hv]. unfold g, mask_pixel.
    destruct (is_unknown p) eqn:E.
    - cbn. eexists. split; [reflexivity|]. apply sqrtQ_nonneg.
    - assert (Hnot : ~ (above_threshold (fst p) \/ above_threshold (snd p))).
      { intros Habove. apply is_unknown_iff in Habove. congruence. }
      destruct p as [[| |a|] [| |b|]]; try discriminate;
        try (exfalso; apply Hnot; cbn; tauto).
      cbn. replace (Qltb (a * a + b * b) 0) with false
        by (symmetry; apply Qltb_false; nra).
      eexists. split; [reflexivity|]. apply sqrtQ_nonneg. }
  unfold np_max. rewrite concat_amap.
  destruct (concat flow) as [|q qs] eqn:Hc; [contradiction|].
  cbn [map rbind Ok].
  destruct (Hg q (or_introl eq_refl)) as (x & Hx & Hx0).
  assert (Hall : Forall (fun y => exists r, y = Fin r) (map g qs)).
  { apply Forall_map, Forall_forall. intros p Hp.
    destruct (Hg p (or_intror Hp)) as (r & Hr & _). eauto. }
  rewrite Hx.
  destruct (fold_fmax_fin (map g qs) x Hall) as (m & Hm & Hin & Hle & Hrest).
  rewrite Hm. exists m.
  assert (Hm0 : 0 <= m) by lra.
  split.
  { unfold py_max, fgt, flt, of_int.
    replace (Qltb (inject_Z (-1)) m) with true; [reflexivity|].
    symmetry. apply Qltb_true.
    apply Qlt_le_trans with 0; [unfold Qlt; cbn; lia | exact Hm0]. }
  split; [exact Hm0|].
  split; [exact Hin|].
  unfold aall, amap. apply Forall_map, Forall_forall. intros row Hrow.
  apply Forall_map, Forall_forall. intros p Hp.
  assert (Hpin : In p (q :: qs)) by (rewrite <- Hc; apply in_concat; eauto).
  destruct (Hg p Hpin) as (r & Hr & Hr0).
  exists r. split; [exact Hr|]. split; [exact Hr0|].
  destruct Hpin as [<- | Hpin].
  - rewrite Hx in Hr. injection Hr as <-. exact Hle.
  - rewrite Forall_forall in Hrest.
    destruct (Hrest (g p)) as (r' & Hr' & Hle'); [now apply in_map|].
    rewrite Hr in Hr'. injection Hr' as <-. exact Hle'.
Qed.


(** The colour of a pixel without NaN, in terms of its magnitude: a colour
    [col] of the wheel in [0, 1], blended toward white when the magnitude
    is at most 1, and scaled by 3/4 otherwise. *)
Lemma pixel_col_form (u v : float64) (i : nat) :
  (i < 3)%nat -> isnan u = false -> isnan v = false ->
  exists col,
    0 <= col <= 1
    /\ ((exists r,
           fsqrt (fadd (fpow2 u) (fpow2 v)) = Fin r
           /\ 0 <= r <= 1
           /\ pixel_col u v i = Fin (1 + - (r * (1 + - col))))
        \/ (fle (fsqrt (fadd (fpow2 u) (fpow2 v))) (of_int 1) = false
            /\ pixel_col u v i = Fin (col * (3 # 4)))).
Proof.
  intros Hi Hu Hv. unfold pixel_col. rewrite wheel_length, Hu, Hv.
  cbn [orb].
  destruct (pixel_angle u v Hu Hv) as (a & -> & Ha).
  change (Z.of_nat 55) with 55%Z. rewrite wheel_position_fin.
  destruct (index_bounds a Ha) as (Hk0 & Hk0r & Hk1r & _ & Hf).
  set (fk := (a + 1) / 2 * 54 + 1) in *.
  set (k0 := astype_int (ffloor (Fin fk))) in *.
  set (k1 := next_index 55 k0) in *.
  destruct (wheel_entry i k0 Hi Hk0r) as (c0 & -> & Hc0).
  destruct (wheel_entry i k1 Hi Hk1r) as (c1 & -> & Hc1).
  unfold of_int. rewrite !fdiv_fin by (vm_compute; discriminate).
  change (fsub (Fin fk) (Fin (inject_Z k0))) with (Fin (fk + - inject_Z k0)).
  set (f := fk + - inject_Z k0) in *.
  assert (Hf' : 0 <= f < 1) by (unfold f; lra).
  cbn [fsub fadd fmul fneg].
  set (col := (inject_Z 1 + - f) * (c0 / inject_Z 255)
              + f * (c1 / inject_Z 255)).
  assert (Hcol : 0 <= col <= 1).
  { unfold col. change (inject_Z 1) with 1. change (inject_Z 255) with 255.
    assert (0 <= c0 / 255 <= 1)
      by (split; [apply Qle_shift_div_l | apply Qle_shift_div_r]; lra).
    assert (0 <= c1 / 255 <= 1)
      by (split; [apply Qle_shift_div_l | apply Qle_shift_div_r]; lra).
    nra. }
  exists col. split; [exact Hcol|].
  destruct (pixel_radius u v Hu Hv) as [-> | (r & -> & Hr)].
  - right. split; reflexivity.
  - cbn [fle]. destruct (Qle_bool r (inject_Z 1)) eqn:E; cbn.
    + left. apply Qle_bool_iff in E. change (inject_Z 1) with 1 in E.
      exists r. repeat split; auto.
    + right. split; reflexivity.
Qed.

Lemma np_uint8_floor (x : Q) :
  0 <= x <= 255 -> np_uint8 (ffloor (Fin x)) = Qfloor x.
Proof.
  intros Hx. cbn [ffloor]. apply np_uint8_byte. now apply floor_byte.
Qed.

(** What [compute_color] returns, pixel by pixel. *)
Lemma compute_color_at (u v : ndarray float64) :
  same_shape u v = true ->
  rectangular u ->
  exists img,
    compute_color u v = Ok img
    /\ shape img = shape u
    /\ row_lengths img = row_lengths u
    /\ aall byte_pixel img
    /\ forall i j x y,
         aget u i j = Some x -> aget v i j = Some y ->
         aget img i j = Some (encode_pixel x y).
Proof.
  intros Hshape Hrect.
  destruct (same_shape_zip u v Hshape) as [Hu Hv].
  remember (amap2 pair u v) as base eqn:Hbase. clear Hbase.
  assert (Hrb : rectangular base).
  { unfold rectangular in *. rewrite Hu in Hrect.
    rewrite shape_amap in Hrect. unfold amap in Hrect.
    rewrite Forall_map in Hrect.
    eapply Forall_impl; [|exact Hrect]. cbn. intros r Hr.
    now rewrite length_map in Hr. }
  rewrite Hu, Hv. eexists.
  split; [now apply compute_color_fused|].
  rewrite !shape_amap, !row_lengths_amap.
  split; [reflexivity|]. split; [reflexivity|].
  split; [apply aall_amap; intros p; apply encode_pixel_bytes|].
  intros i j x y. rewrite !aget_amap.
  destruct (aget base i j) as [[bx by']|]; cbn; [|discriminate].
  intros [= <-] [= <-]. reflexivity.
Qed.

(** X18.  [compute_color] on two arrays of one shape always returns: an image
    of that shape, every channel an integer between 0 and 255, whatever
    the arrays hold (NaN and infinities included). *)
Theorem compute_color_returns_bytes (u v : ndarray float64) :
  same_shape u v = true ->
  rectangular u ->
  exists img,
    compute_color u v = Ok img
    /\ shape img = shape u
    /\ row_lengths img = row_lengths u
    /\ aall byte_pixel img.
Proof.
  intros Hshape Hrect.
  destruct (compute_color_at u v Hshape Hrect)
    as (img & Himg & Hs & Hr & Hb & _).
  exists img. auto.
Qed.

(** X19.  A pixel with NaN in [u] or in [v] is black in [compute_color]. *)
Theorem nan_pixel_is_black (u v : ndarray float64) (i j : nat)
    (x y : float64) :
  same_shape u v = true ->
  rectangular u ->
  aget u i j = Some x ->
  aget v i j = Some y ->
  isnan x || isnan y = true ->
  exists img,
    compute_color u v = Ok img
    /\ aget img i j = Some (of_int 0, of_int 0, of_int 0).
Proof.
  intros Hshape Hrect Hx Hy Hnan.
  destruct (compute_color_at u v Hshape Hrect) as (img & Himg & _ & _ & _ & Hat).
  exists img. split; [exact Himg|]. rewrite (Hat i j x y Hx Hy).
  unfold encode_pixel. rewrite !pixel_floor_nan by (exact Hnan || lia).
  reflexivity.
Qed.

(** X20.  A pixel without motion is white in [compute_color]. *)
Theorem still_pixel_is_white (u v : ndarray float64) (i j : nat) (a b : Q) :
  same_shape u v = true ->
  rectangular u ->
  aget u i j = Some (Fin a) ->
  aget v i j = Some (Fin b) ->
  a == 0 -> b == 0 ->
  exists img,
    compute_color u v = Ok img
    /\ aget img i j = Some (of_int 255, of_int 255, of_int 255).
Proof.
  intros Hshape Hrect Hx Hy Ha Hb.
  destruct (compute_color_at u v Hshape Hrect) as (img & Himg & _ & _ & _ & Hat).
  exists img. split; [exact Himg|]. rewrite (Hat i j _ _ Hx Hy).
  assert (Hch : forall c, (c < 3)%nat ->
            np_uint8 (pixel_floor (Fin a) (Fin b) c) = 255%Z).
  { intros c Hc. unfold pixel_floor. cbn [isnan orb].
    destruct (pixel_col_form (Fin a) (Fin b) c Hc eq_refl eq_refl)
      as (col & Hcol & [(r & Hr & Hr1 & ->) | (Hfle & _)]).
    - cbn in Hr.
      replace (Qltb (a * a + b * b) 0) with false in Hr
        by (symmetry; apply Qltb_false; nra).
      injection Hr as Hr.
      assert (Hr0 : r == 0).
      { rewrite <- Hr. apply sqrtQ_zero. rewrite Ha, Hb. reflexivity. }
      cbn [fmul of_int]. rewrite np_uint8_floor.
      + change (inject_Z (1 - 0)) with 1. change (inject_Z 255) with 255.
        assert (Heq : 255 * (1 + - (r * (1 + - col))) * 1 == inject_Z 255)
          by (rewrite Hr0; change (inject_Z 255) with 255; ring).
        rewrite Heq. apply Qfloor_Z.
      + change (inject_Z (1 - 0)) with 1. change (inject_Z 255) with 255.
        rewrite Hr0. split; ring_simplify; [unfold Qle; cbn; lia | apply Qle_refl].
    - exfalso. cbn in Hfle.
      replace (Qltb (a * a + b * b) 0) with false in Hfle
        by (symmetry; apply Qltb_false; nra).
      cbn in Hfle.
      assert (Hs : sqrtQ (a * a + b * b) == 0)
        by (apply sqrtQ_zero; rewrite Ha, Hb; reflexivity).
      assert (Hle : Qle_bool (sqrtQ (a * a + b * b)) (inject_Z 1) = true).
      { apply Qle_bool_iff. rewrite Hs. unfold Qle; cbn; lia. }
      congruence. }
  unfold encode_pixel. rewrite !Hch by lia. reflexivity.
Qed.

(** X21.  Magnitude and brightness in [compute_color], for a pixel without NaN:
    beyond magnitude 1 no channel exceeds 191; at magnitude [r <= 1] every
    channel is above [255 * (1 - r) - 1]. *)
Theorem brightness_follows_magnitude (u v : ndarray float64) (i j : nat)
    (x y : float64) :
  same_shape u v = true ->
  rectangular u ->
  aget u i j = Some x ->
  aget v i j = Some y ->
  isnan x = false -> isnan y = false ->
  exists img c0 c1 c2,
    compute_color u v = Ok img
    /\ aget img i j = Some (of_int c0, of_int c1, of_int c2)
    /\ (fle (fsqrt (fadd (fpow2 x) (fpow2 y))) (of_int 1) = false ->
        (0 <= c0 <= 191 /\ 0 <= c1 <= 191 /\ 0 <= c2 <= 191)%Z)
    /\ (forall r,
          fsqrt (fadd (fpow2 x) (fpow2 y)) = Fin r -> r <= 1 ->
          let low := 255 * (1 - r) - 1 in
          low < inject_Z c0 <= 255 /\ low < inject_Z c1 <= 255
          /\ low < inject_Z c2 <= 255).
Proof.
  intros Hshape Hrect Hx Hy Hnx Hny.
  destruct (compute_color_at u v Hshape Hrect) as (img & Himg & _ & _ & _ & Hat).
  assert (Hch : forall c, (c < 3)%nat ->
    exists z,
      np_uint8 (pixel_floor x y c) = z
      /\ (fle (fsqrt (fadd (fpow2 x) (fpow2 y))) (of_int 1) = false ->
          (0 <= z <= 191)%Z)
      /\ (forall r,
            fsqrt (fadd (fpow2 x) (fpow2 y)) = Fin r -> r <= 1 ->
            255 * (1 - r) - 1 < inject_Z z <= 255)).
  { intros c Hc. unfold pixel_floor. rewrite Hnx, Hny. cbn [orb].
    change (of_int (1 - 0)) with (Fin 1).
    destruct (pixel_col_form x y c Hc Hnx Hny)
      as (col & Hcol & [(r & Hr & Hr1 & ->) | (Hfle & ->)]).
    - cbn [fmul of_int]. change (inject_Z 255) with 255.
      set (val := 255 * (1 + - (r * (1 + - col))) * 1).
      assert (Hval : 0 <= val <= 255) by (unfold val; nra).
      rewrite np_uint8_floor by exact Hval.
      eexists. split; [reflexivity|]. split.
      + intros Hfle. exfalso. rewrite Hr in Hfle. cbn in Hfle.
        assert (Qle_bool r (inject_Z 1) = true)
          by (apply Qle_bool_iff; change (inject_Z 1) with 1; lra).
        congruence.
      + intros r' Hr' Hle. rewrite Hr in Hr'. injection Hr' as <-.
        pose proof (Qfloor_le val). pose proof (Qlt_floor val) as Hlt.
        rewrite inject_Z_plus in Hlt. change (inject_Z 1) with 1 in Hlt.
        assert (255 * (1 - r) <= val) by (unfold val; nra).
        split; lra.
    - cbn [fmul of_int]. change (inject_Z 255) with 255.
      set (val := 255 * (col * (3 # 4)) * 1).
      assert (Hval : 0 <= val <= 255) by (unfold val; lra).
      rewrite np_uint8_floor by exact Hval.
      eexists. split; [reflexivity|]. split.
      + intros _. split; [now apply floor_byte|].
        assert (Hlt : val < inject_Z 192)
          by (unfold val; change (inject_Z 192) with 192; lra).
        pose proof (Qfloor_le val) as Hfl.
        assert (Hz : inject_Z (Qfloor val) < inject_Z 192) by lra.
        rewrite <- Zlt_Qlt in Hz. lia.
      + intros r Hr Hle. exfalso. rewrite Hr in Hfle. cbn in Hfle.
        assert (Qle_bool r (inject_Z 1) = true)
          by (apply Qle_bool_iff; change (inject_Z 1) with 1; lra).
        congruence. }
  destruct (Hch 0%nat ltac:(lia)) as (z0 & Hz0 & Hd0 & Hb0).
  destruct (Hch 1%nat ltac:(lia)) as (z1 & Hz1 & Hd1 & Hb1).
  destruct (Hch 2%nat ltac:(lia)) as (z2 & Hz2 & Hd2 & Hb2).
  exists img, z0, z1, z2. split; [exact Himg|].
  split; [rewrite (Hat i j x y Hx Hy); unfold encode_pixel;
          now rewrite Hz0, Hz1, Hz2|].
  split; [intros Hfle; auto|].
  intros r Hr Hle low. subst low. auto.
Qed.

End WithContract.

(** *** The theorems at sample fields *)

Lemma flow2img_empty_raises_witness :
  concat empty_rows = []
  /\ flow2img (L := grid_libm) empty_rows = (Raise ValueError, empty_rows).
Proof.
  split; [reflexivity|].
  apply (flow2img_empty_raises (L := grid_libm) empty_rows eq_refl).
Defined.

Lemma nan_makes_maxrad_minus_one_witness :
  rectangular nan_flow
  /\ aget nan_flow 0 0 = Some (NaN, of_int 1)
  /\ is_unknown (NaN, of_int 1) = false
  /\ max_radius (L := grid_libm)
       (chan_u (snd (flow2img (L := grid_libm) nan_flow)))
       (chan_v (snd (flow2img (L := grid_libm) nan_flow)))
     = Ok (of_int (-1))
  /\ exists img,
       fst (flow2img (L := grid_libm) nan_flow) = Ok img
       /\ aget img 0 0 = Some (0, 0, 0)%Z.
Proof.
  assert (Hrect : rectangular nan_flow) by (repeat constructor).
  split; [exact Hrect|]. split; [reflexivity|]. split; [reflexivity|].
  destruct (nan_makes_maxrad_minus_one (LS := grid_libm_spec) nan_flow 0 0
              (NaN, of_int 1) Hrect eq_refl eq_refl eq_refl)
    as (Hmax & _ & Himg & _).
  split; [exact Hmax | exact Himg].
Defined.

Lemma maxrad_is_largest_magnitude_witness :
  concat moving_then_still <> []
  /\ aall (fun p => isnan (fst p) = false /\ isnan (snd p) = false)
          moving_then_still
  /\ exists m,
       max_radius (L := grid_libm)
         (chan_u (snd (flow2img (L := grid_libm) moving_then_still)))
         (chan_v (snd (flow2img (L := grid_libm) moving_then_still)))
       = Ok (Fin m)
       /\ 0 <= m.
Proof.
  assert (Hne : concat moving_then_still <> []) by discriminate.
  assert (Hfin : aall (fun p => isnan (fst p) = false /\ isnan (snd p) = false)
                      moving_then_still)
    by (repeat constructor).
  split; [exact Hne|]. split; [exact Hfin|].
  pose proof (maxrad_is_largest_magnitude (LS := grid_libm_spec)
                moving_then_still Hne Hfin) as Hthm.
  cbv zeta in Hthm. destruct Hthm as (m & Hmax & Hpos & _).
  exists m. split; assumption.
Defined.

Lemma compute_color_returns_bytes_witness :
  same_shape nan_u nan_v = true
  /\ rectangular nan_u
  /\ exists img,
       compute_color (L := grid_libm) nan_u nan_v = Ok img
       /\ shape img = (1, 2)%nat
       /\ aall byte_pixel img.
Proof.
  assert (Hrect : rectangular nan_u) by (repeat constructor).
  split; [reflexivity|]. split; [exact Hrect|].
  destruct (compute_color_returns_bytes (LS := grid_libm_spec) nan_u nan_v
              eq_refl Hrect) as (img & Hcol & Hshape & _ & Hbytes).
  exists img. split; [exact Hcol|]. split; [exact Hshape | exact Hbytes].
Defined.

Lemma nan_pixel_is_black_witness :
  same_shape nan_u nan_v = true
  /\ rectangular nan_u
  /\ aget nan_u 0 1 = Some NaN
  /\ aget nan_v 0 1 = Some (of_int 0)
  /\ exists img,
       compute_color (L := grid_libm) nan_u nan_v = Ok img
       /\ aget img 0 1 = Some (of_int 0, of_int 0, of_int 0).
Proof.
  assert (Hrect : rectangular nan_u) by (repeat constructor).
  split; [reflexivity|]. split; [exact Hrect|].
  split; [reflexivity|]. split; [reflexivity|].
  apply (nan_pixel_is_black (LS := grid_libm_spec) nan_u nan_v 0 1 NaN
           (of_int 0) eq_refl Hrect eq_refl eq_refl eq_refl).
Defined.

Lemma still_pixel_is_white_witness :
  same_shape (chan_u moving_then_still) (chan_v moving_then_still) = true
  /\ rectangular (chan_u moving_then_still)
  /\ aget (chan_u moving_then_still) 0 1 = Some (Fin 0)
  /\ aget (chan_v moving_then_still) 0 1 = Some (Fin 0)
  /\ exists img,
       compute_color (L := grid_libm) (chan_u moving_then_still)
                     (chan_v moving_then_still) = Ok img
       /\ aget img 0 1 = Some (of_int 255, of_int 255, of_int 255).
Proof.
  assert (Hrect : rectangular (chan_u moving_then_still))
    by (repeat constructor).
  assert (Hzero : 0 == 0) by reflexivity.
  split; [reflexivity|]. split; [exact Hrect|].
  split; [reflexivity|]. split; [reflexivity|].
  apply (still_pixel_is_white (LS := grid_libm_spec)
           (chan_u moving_then_still) (chan_v moving_then_still) 0 1 0 0
           eq_refl Hrect eq_refl eq_refl Hzero Hzero).
Defined.

Lemma brightness_follows_magnitude_witness :
  same_shape nan_u nan_v = true
  /\ rectangular nan_u
  /\ aget nan_u 0 0 = Some (of_int 1)
  /\ aget nan_v 0 0 = Some PInf
  /\ exists img c0 c1 c2,
       compute_color (L := grid_libm) nan_u nan_v = Ok img
       /\ aget img 0 0 = Some (of_int c0, of_int c1, of_int c2)
       /\ (0 <= c0 <= 191 /\ 0 <= c1 <= 191 /\ 0 <= c2 <= 191)%Z.
Proof.
  assert (Hrect : rectangular nan_u) by (repeat constructor).
  split; [reflexivity|]. split; [exact Hrect|].
  split; [reflexivity|]. split; [reflexivity|].
  destruct (brightness_follows_magnitude (LS := grid_libm_spec) nan_u nan_v
              0 0 (of_int 1) PInf eq_refl Hrect eq_refl eq_refl eq_refl
              eq_refl)
    as (img & c0 & c1 & c2 & Hcol & Hget & Hdim & _).
  exists img, c0, c1, c2. split; [exact Hcol|]. split; [exact Hget|].
  apply Hdim. reflexivity.
Defined.
End EncoderFacts.

(** ** The display helpers *)

Module VisualizeFacts.
Import Np Nd FlowVisualizer FlowFacts Visualize.

Lemma shape_eqb_spec (s t : nat * nat) : shape_eqb s t = true <-> s = t.
Proof.
  destruct s as [a b], t as [c d]. unfold shape_eqb. cbn [fst snd].
  rewrite andb_true_iff, !Nat.eqb_eq. split.
  - now intros [-> ->].
  - now intros [= -> ->].
Qed.

Lemma concatenate0_same_width {A} (a b c : ndarray A) :
  snd (shape a) = snd (shape b) -> snd (shape b) = snd (shape c) ->
  concatenate0 a b c = Ok (a ++ b ++ c).
Proof.
  intros Hab Hbc. unfold concatenate0.
  now rewrite (proj2 (Nat.eqb_eq _ _) Hab), (proj2 (Nat.eqb_eq _ _) Hbc).
Qed.

Lemma concatenate0_mismatch {A} (a b c : ndarray A) :
  snd (shape a) <> snd (shape b) \/ snd (shape b) <> snd (shape c) ->
  concatenate0 a b c = Raise ValueError.
Proof.
  intros Hw. unfold concatenate0.
  destruct (Nat.eqb_spec (snd (shape a)) (snd (shape b)));
    destruct (Nat.eqb_spec (snd (shape b)) (snd (shape c)));
    cbn; try reflexivity.
  tauto.
Qed.

Lemma reverse_channels_app (a b : image) :
  reverse_channels (a ++ b) = reverse_channels a ++ reverse_channels b.
Proof. apply map_app. Qed.

Lemma reverse_channels_involutive (a : image) :
  reverse_channels (reverse_channels a) = a.
Proof.
  unfold reverse_channels. rewrite amap_amap. rewrite <- (amap_id a) at 2.
  apply amap_ext. now intros [[x y] z].
Qed.

Section WithLibm.
Context {L : Libm}.

(** X22.  When one of the two assertions of [visualize_sample_from_array]
    fails (a format that is neither RGB nor BGR once in upper case, or
    arrays of different heights or widths), the flow array of the caller
    has not been touched. *)
Theorem failed_assertion_leaves_flow_untouched (image1 image2 : image)
    (flow_map : flow_field) (img_format : string) (save : bool) :
  (upper img_format <> "RGB"%string /\ upper img_format <> "BGR"%string)
  \/ shape image1 <> shape image2
  \/ shape image2 <> shape flow_map ->
  visualize_sample_from_array image1 image2 flow_map img_format save
  = (Raise AssertionError, flow_map).
Proof.
  intros Hbad. unfold visualize_sample_from_array.
  destruct (String.eqb_spec (upper img_format) "RGB") as [Hr|Hr];
    destruct (String.eqb_spec (upper img_format) "BGR") as [Hb|Hb];
    cbn [orb negb]; try reflexivity;
    (destruct (shape_eqb (shape image1) (shape image2)) eqn:E1;
     [|reflexivity];
     destruct (shape_eqb (shape image2) (shape flow_map)) eqn:E2;
     [|reflexivity];
     apply shape_eqb_spec in E1, E2; exfalso; tauto).
Qed.

End WithLibm.

Section WithContract.
Context `{LS : LibmSpec}.

(** X23.  With a supported format and three arrays of one shape,
    [visualize_sample_from_array] shows the two images above the encoded
    flow, 3 H rows in all; for RGB the stacked image is the BGR one
    with the channels of every pixel reversed.  The caller's flow array has
    its unknown pixels set to zero afterwards. *)
Theorem visualize_from_array_stacks (image1 image2 : image)
    (flow_map : flow_field) (img_format : string) (save : bool) :
  upper img_format = "RGB"%string \/ upper img_format = "BGR"%string ->
  shape image1 = shape image2 ->
  shape image2 = shape flow_map ->
  rectangular flow_map ->
  (0 < fst (shape flow_map))%nat ->
  (0 < snd (shape flow_map))%nat ->
  exists enc stacked,
    fst (flow2img flow_map) = Ok enc
    /\ visualize_sample_from_array image1 image2 flow_map img_format save
       = (Ok (if save
              then Written "visualize_sample_from_array.jpg" stacked
              else Displayed "visualize_sample_from_array" stacked),
          amap mask_pixel flow_map)
    /\ stacked = (if String.eqb (upper img_format) "RGB"
                  then reverse_channels (image1 ++ image2 ++ enc)
                  else image1 ++ image2 ++ enc)
    /\ length stacked = (3 * fst (shape flow_map))%nat.
Proof.
  intros Hfmt H12 H2f Hrect Hh Hw.
  destruct (flow2img_fused flow_map Hrect
              (positive_shape_nonempty flow_map Hrect Hh Hw))
    as (maxrad & _ & _ & Henc).
  set (enc := amap (out_pixel maxrad) flow_map) in *.
  assert (Hshape : shape enc = shape flow_map) by apply shape_amap.
  assert (Hlen : length (image1 ++ image2 ++ enc)
                 = (3 * fst (shape flow_map))%nat).
  { rewrite !length_app.
    change (length image1) with (fst (shape image1)).
    change (length image2) with (fst (shape image2)).
    change (length enc) with (fst (shape enc)).
    rewrite H12, H2f, Hshape. lia. }
  exists enc.
  unfold visualize_sample_from_array.
  replace (negb (String.eqb (upper img_format) "RGB"
                 || String.eqb (upper img_format) "BGR")) with false
    by (destruct Hfmt as [-> | ->]; reflexivity).
  rewrite (proj2 (shape_eqb_spec _ _) H12), (proj2 (shape_eqb_spec _ _) H2f).
  cbn [andb negb].
  pose proof (flow2img_store flow_map) as Hstore.
  destruct (flow2img flow_map) as [r data]. cbn [fst snd] in Henc, Hstore.
  subst r data. cbn [rbind Ok].
  destruct (String.eqb (upper img_format) "RGB").
  - rewrite concatenate0_same_width
      by (unfold reverse_channels; rewrite !shape_amap; congruence).
    cbn [rbind Ok]. eexists. split; [reflexivity|].
    split; [reflexivity|]. split.
    + now rewrite !reverse_channels_app.
    + rewrite <- !reverse_channels_app. unfold reverse_channels, amap.
      now rewrite length_map.
  - rewrite concatenate0_same_width by congruence.
    cbn [rbind Ok]. eexists. split; [reflexivity|].
    split; [reflexivity|]. split; [reflexivity|]. exact Hlen.
Qed.

(** X24.  [visualize_sample_from_file] has no assertion on the shapes: images
    and flow of one width are stacked whatever their heights. *)
Theorem from_file_stacks_any_heights
    (read_image : string -> string -> result image)
    (read_flow : string -> result flow_field)
    (image_file1 image_file2 flow_map_file : string) (save : bool)
    (image1 image2 : image) (flow : flow_field) :
  read_image image_file1 "BGR"%string = Ok image1 ->
  read_image image_file2 "BGR"%string = Ok image2 ->
  read_flow flow_map_file = Ok flow ->
  rectangular flow ->
  (0 < fst (shape flow))%nat ->
  (0 < snd (shape flow))%nat ->
  snd (shape image1) = snd (shape flow) ->
  snd (shape image2) = snd (shape flow) ->
  exists enc,
    fst (flow2img flow) = Ok enc
    /\ snd (visualize_sample_from_file read_image read_flow image_file1
              image_file2 flow_map_file save)
       = Ok (if save
             then Written "visualize_sample_from_file.jpg"
                          (image1 ++ image2 ++ enc)
             else Displayed "visualize_sample_from_file"
                            (image1 ++ image2 ++ enc))
    /\ length (image1 ++ image2 ++ enc)
       = (fst (shape image1) + fst (shape image2) + fst (shape flow))%nat.
Proof.
  intros H1 H2 Hf Hrect Hh Hw Hw1 Hw2.
  destruct (flow2img_fused flow Hrect
              (positive_shape_nonempty flow Hrect Hh Hw))
    as (maxrad & _ & _ & Henc).
  set (enc := amap (out_pixel maxrad) flow) in *.
  assert (Hshape : shape enc = shape flow) by apply shape_amap.
  exists enc. split; [exact Henc|]. split.
  - unfold visualize_sample_from_file. cbn [snd].
    rewrite H1, H2, Hf. cbn [rbind Ok]. rewrite Henc. cbn [rbind Ok].
    rewrite concatenate0_same_width by congruence. reflexivity.
  - rewrite !length_app.
    change (length enc) with (fst (shape enc)). rewrite Hshape.
    cbn [shape fst]. lia.
Qed.

(** X25.  When the widths differ, [visualize_sample_from_file] ends with
    numpy's [ValueError] from the concatenation, after the flow was
    encoded. *)
Theorem from_file_width_mismatch_raises
    (read_image : string -> string -> result image)
    (read_flow : string -> result flow_field)
    (image_file1 image_file2 flow_map_file : string) (save : bool)
    (image1 image2 : image) (flow : flow_field) :
  read_image image_file1 "BGR"%string = Ok image1 ->
  read_image image_file2 "BGR"%string = Ok image2 ->
  read_flow flow_map_file = Ok flow ->
  rectangular flow ->
  (0 < fst (shape flow))%nat ->
  (0 < snd (shape flow))%nat ->
  snd (shape image1) <> snd (shape image2)
  \/ snd (shape image2) <> snd (shape flow) ->
  snd (visualize_sample_from_file read_image read_flow image_file1
         image_file2 flow_map_file save)
  = Raise ValueError.
Proof.
  intros H1 H2 Hf Hrect Hh Hw Hdiff.
  destruct (flow2img_fused flow Hrect
              (positive_shape_nonempty flow Hrect Hh Hw))
    as (maxrad & _ & _ & Henc).
  unfold visualize_sample_from_file. cbn [snd].
  rewrite H1, H2, Hf. cbn [rbind Ok]. rewrite Henc. cbn [rbind Ok].
  rewrite concatenate0_mismatch; [reflexivity|].
  now rewrite shape_amap.
Qed.

End WithContract.

(** *** The theorems at the sample images *)

Lemma failed_assertion_leaves_flow_untouched_witness :
  upper "gray" = "GRAY"%string
  /\ visualize_sample_from_array (L := grid_libm) sample_image1 sample_image2
       sample_flow "gray" true
     = (Raise AssertionError, sample_flow).
Proof.
  split; [reflexivity|].
  apply (failed_assertion_leaves_flow_untouched (L := grid_libm)
           sample_image1 sample_image2 sample_flow "gray" true).
  left. split; discriminate.
Defined.

Lemma visualize_from_array_stacks_witness :
  upper "rgb" = "RGB"%string
  /\ shape sample_image1 = shape sample_image2
  /\ shape sample_image2 = shape sample_flow
  /\ exists enc,
       fst (flow2img (L := grid_libm) sample_flow) = Ok enc
       /\ visualize_sample_from_array (L := grid_libm) sample_image1
            sample_image2 sample_flow "rgb" true
          = (Ok (Written "visualize_sample_from_array.jpg"
                   (reverse_channels (sample_image1 ++ sample_image2 ++ enc))),
             amap mask_pixel sample_flow)
       /\ length (reverse_channels (sample_image1 ++ sample_image2 ++ enc))
          = 6%nat.
Proof.
  split; [reflexivity|]. split; [reflexivity|]. split; [reflexivity|].
  assert (Hh : (0 < fst (shape sample_flow))%nat) by (cbn; lia).
  assert (Hw : (0 < snd (shape sample_flow))%nat) by (cbn; lia).
  destruct (visualize_from_array_stacks (LS := grid_libm_spec) sample_image1
              sample_image2 sample_flow "rgb" true (or_introl eq_refl)
              eq_refl eq_refl sample_flow_rectangular Hh Hw)
    as (enc & stacked & Henc & Hshow & Hstack & Hlen).
  change (String.eqb (upper "rgb") "RGB") with true in Hstack.
  cbv iota in Hstack. subst stacked.
  exists enc. split; [exact Henc|]. split; [exact Hshow | exact Hlen].
Defined.

Lemma from_file_stacks_any_heights_witness :
  fst (shape sample_image1) <> fst (shape (sample_image1 ++ sample_image2))
  /\ exists enc,
       fst (flow2img (L := grid_libm) sample_flow) = Ok enc
       /\ snd (visualize_sample_from_file (L := grid_libm) toy_read_image
                 toy_read_flow "short.jpg" "tall.jpg" "sample.flo" false)
          = Ok (Displayed "visualize_sample_from_file"
                  (sample_image1 ++ (sample_image1 ++ sample_image2) ++ enc))
       /\ length (sample_image1 ++ (sample_image1 ++ sample_image2) ++ enc)
          = 8%nat.
Proof.
  split; [discriminate|].
  assert (Hh : (0 < fst (shape sample_flow))%nat) by (cbn; lia).
  assert (Hw : (0 < snd (shape sample_flow))%nat) by (cbn; lia).
  apply (from_file_stacks_any_heights (LS := grid_libm_spec) toy_read_image
           toy_read_flow "short.jpg" "tall.jpg" "sample.flo" false
           sample_image1 (sample_image1 ++ sample_image2) sample_flow
           eq_refl eq_refl eq_refl sample_flow_rectangular Hh Hw eq_refl
           eq_refl).
Defined.

Lemma from_file_width_mismatch_raises_witness :
  snd (shape narrow_image) <> snd (shape sample_image1)
  /\ snd (visualize_sample_from_file (L := grid_libm) toy_read_image
            toy_read_flow "narrow.jpg" "short.jpg" "sample.flo" false)
     = Raise ValueError.
Proof.
  assert (Hdiff : snd (shape narrow_image) <> snd (shape sample_image1))
    by discriminate.
  split; [exact Hdiff|].
  assert (Hh : (0 < fst (shape sample_flow))%nat) by (cbn; lia).
  assert (Hw : (0 < snd (shape sample_flow))%nat) by (cbn; lia).
  apply (from_file_width_mismatch_raises (LS := grid_libm_spec)
           toy_read_image toy_read_flow "narrow.jpg" "short.jpg" "sample.flo"
           false narrow_image sample_image1 sample_flow
           eq_refl eq_refl eq_refl sample_flow_rectangular Hh Hw
           (or_introl Hdiff)).
Defined.
End VisualizeFacts.

(** ** Building the mapper, and [Trainer.test] *)

Module SetupFacts.
Import Nd DatasetMapper Setup.

Lemma prefix_spec (sub s : string) :
  String.prefix sub s = true <-> exists post, s = (sub ++ post)%string.
Proof.
  revert s. induction sub as [|c sub IH]; intros s.
  - split; [intros _; now exists s | intros _; now destruct s].
  - destruct s as [|c' s]; cbn;
      [split; [discriminate | intros [post Hp]; discriminate]|].
    destruct (Ascii.ascii_dec c c') as [<- | Hne].
    + rewrite IH. split; intros [post Hp]; exists post.
      * now rewrite Hp.
      * now injection Hp.
    + split; [discriminate|]. intros [post Hp]. injection Hp as Hc _.
      congruence.
Qed.

(** [contains sub s] is the substring test. *)
Lemma contains_spec (sub s : string) :
  contains sub s = true
  <-> exists pre post, s = (pre ++ sub ++ post)%string.
Proof.
  induction s as [|c s IH]; cbn [contains].
  - destruct (String.prefix sub "") eqn:E.
    + split; [intros _ | reflexivity].
      apply prefix_spec in E as [post Hp]. now exists ""%string, post.
    + split; [discriminate|]. intros (pre & post & Hp).
      destruct pre; cbn in Hp.
      * assert (String.prefix sub "" = true)
          by (apply prefix_spec; now exists post).
        congruence.
      * discriminate.
  - destruct (String.prefix sub (String c s)) eqn:E.
    + split; [intros _ | reflexivity].
      apply prefix_spec in E as [post Hp]. now exists ""%string, post.
    + rewrite IH. split.
      * intros (pre & post & ->). now exists (String c pre), post.
      * intros (pre & post & Hp). destruct pre as [|c' pre]; cbn in Hp.
        -- assert (String.prefix sub (String c s) = true)
             by (apply prefix_spec; now exists post).
           congruence.
        -- injection Hp as _ ->. now exists pre, post.
Qed.

Lemma np_index_first {A} (a : A) (l : list A) :
  np_index (a :: l) 0 = Ok a.
Proof.
  unfold np_index. cbn [length Z.ltb Z.compare Z.leb andb].
  destruct (Z.ltb_spec 0 (Z.of_nat (S (length l)))); [reflexivity | lia].
Qed.

Lemma np_index_second {A} (a b : A) (l : list A) :
  np_index (a :: b :: l) 1 = Ok b.
Proof.
  unfold np_index. cbn [length Z.ltb Z.compare Z.leb andb].
  destruct (Z.ltb_spec 1 (Z.of_nat (S (S (length l))))); [reflexivity | lia].
Qed.

Section WithCatalog.
Variable augmentation : Type.
Variable build_augmentation : cfg -> bool -> list augmentation.
Variable RandomCrop : string -> list Q -> augmentation.
Variable img_dir : string -> result string.

Local Abbreviation find_vid_root := (find_vid_root img_dir).
Local Abbreviation from_config := (from_config augmentation build_augmentation RandomCrop img_dir).
Local Abbreviation new_mapper := (new_mapper augmentation build_augmentation RandomCrop img_dir).

Lemma find_vid_root_none (names : list string) (root : option string) :
  (forall n, In n names -> contains "vid" n = false) ->
  find_vid_root names root = Ok root.
Proof.
  revert root. induction names as [|n names IH]; intros root Hno;
    [reflexivity|].
  cbn. rewrite (Hno n (or_introl eq_refl)). apply IH.
  intros m Hm. apply Hno. now right.
Qed.

Lemma find_vid_root_last (before after : list string) (n r : string) :
  forall root,
  (forall m, In m before -> contains "vid" m = true ->
             exists d, img_dir m = Ok d) ->
  contains "vid" n = true ->
  img_dir n = Ok r ->
  (forall m, In m after -> contains "vid" m = false) ->
  find_vid_root (before ++ n :: after) root = Ok (Some r).
Proof.
  induction before as [|b before IH]; intros root Hbefore Hn Hr Hafter.
  - cbn. rewrite Hn, Hr. cbn. now apply find_vid_root_none.
  - cbn. destruct (contains "vid" b) eqn:E.
    + destruct (Hbefore b (or_introl eq_refl) E) as [d ->]. cbn.
      apply IH; auto. intros m Hm. apply Hbefore. now right.
    + apply IH; auto. intros m Hm. apply Hbefore. now right.
Qed.

Lemma find_vid_root_some (names : list string) : forall root r,
  find_vid_root names root = Ok (Some r) ->
  root = Some r
  \/ exists n, In n names /\ contains "vid" n = true /\ img_dir n = Ok r.
Proof.
  induction names as [|n names IH]; intros root r; cbn.
  - intros [= ->]. now left.
  - destruct (contains "vid" n) eqn:E.
    + destruct (img_dir n) as [e|d] eqn:Hd; cbn; [discriminate|].
      intros Hf. destruct (IH _ _ Hf) as [[= <-] | (m & Hm & Hv & Hr)].
      * right. exists n. auto.
      * right. exists m. auto.
    + intros Hf. destruct (IH _ _ Hf) as [-> | (m & Hm & Hv & Hr)].
      * now left.
      * right. exists m. auto.
Qed.

(** X26.  Without a training set whose name contains vid, the mapper cannot
    be built, in either mode: the assertion of [from_config] fails. *)
Theorem from_config_needs_vid_dataset (c : cfg) (is_train : bool) :
  (forall n, In n (DATASETS_TRAIN c) ->
     ~ exists pre post, n = (pre ++ "vid" ++ post)%string) ->
  from_config c is_train = Raise AssertionError
  /\ new_mapper c is_train = Raise AssertionError.
Proof.
  intros Hno.
  assert (Hf : from_config c is_train = Raise AssertionError).
  { unfold Setup.from_config. rewrite find_vid_root_none; [reflexivity|].
    intros n Hn. destruct (contains "vid" n) eqn:E; [|reflexivity].
    exfalso. apply (Hno n Hn). now apply contains_spec. }
  split; [exact Hf|]. unfold Setup.new_mapper. now rewrite Hf.
Qed.

(** X27.  The image root is the [img_dir] of the last training set whose name
    contains vid; the offsets are the first two entries of
    [FRAME_OFFSET_RANGE]; the mapper is built with an empty cache, and
    with [RandomCrop] in front of the augmentations exactly when cropping
    is enabled and the mode is training. *)
Theorem from_config_takes_last_vid_root (c : cfg) (is_train : bool)
    (before after : list string) (n r : string) (omin omax : Z)
    (more : list Z) :
  DATASETS_TRAIN c = before ++ n :: after ->
  (forall m, In m before -> contains "vid" m = true ->
             exists d, img_dir m = Ok d) ->
  contains "vid" n = true ->
  img_dir n = Ok r ->
  (forall m, In m after -> contains "vid" m = false) ->
  FRAME_OFFSET_RANGE c = omin :: omax :: more ->
  exists augs mapper,
    new_mapper c is_train = Ok (mapper, augs)
    /\ mapper = init is_train (INPUT_FORMAT c) omin omax
                     (KEY_FRAME_DURATION c) r
    /\ key_frame_img mapper = None
    /\ key_frame_seg_id mapper = None
    /\ (INPUT_CROP_ENABLED c && is_train = true ->
        augs = RandomCrop (INPUT_CROP_TYPE c) (INPUT_CROP_SIZE c)
               :: build_augmentation c is_train)
    /\ (INPUT_CROP_ENABLED c && is_train = false ->
        augs = build_augmentation c is_train).
Proof.
  intros Htrain Hbefore Hn Hr Hafter Hrange.
  unfold Setup.new_mapper, Setup.from_config.
  rewrite Htrain, (find_vid_root_last before after n r) by assumption.
  rewrite Hrange, np_index_first, np_index_second. cbn.
  do 2 eexists. split; [reflexivity|]. split; [reflexivity|].
  split; [reflexivity|]. split; [reflexivity|].
  split; intros ->; reflexivity.
Qed.

(** X28.  Whenever [from_config] returns, the root it chose belongs to a
    training set whose name contains vid, also when the mapper is built
    for inference; and in inference [RandomCrop] is never added. *)
Theorem from_config_root_comes_from_train (c : cfg) (is_train : bool)
    (a : mapper_args augmentation) :
  from_config c is_train = Ok a ->
  (exists n pre post,
     In n (DATASETS_TRAIN c)
     /\ n = (pre ++ "vid" ++ post)%string
     /\ img_dir n = Ok (arg_vid_image_root a))
  /\ arg_is_train a = is_train
  /\ (is_train = false -> arg_augmentations a = build_augmentation c false).
Proof.
  unfold Setup.from_config.
  destruct (find_vid_root (DATASETS_TRAIN c) None) as [e|[root|]] eqn:Hf;
    cbn; try discriminate.
  destruct (np_index (FRAME_OFFSET_RANGE c) 0) as [e|omin]; cbn;
    [discriminate|].
  destruct (np_index (FRAME_OFFSET_RANGE c) 1) as [e|omax]; cbn;
    [discriminate|].
  intros [= <-]. cbn. split; [|split; [reflexivity|]].
  - destruct (find_vid_root_some _ _ _ Hf) as [Hnone | (n & Hn & Hv & Hr)];
      [discriminate|].
    apply contains_spec in Hv as (pre & post & Hp).
    exists n, pre, post. auto.
  - intros ->. now rewrite andb_false_r.
Qed.

End WithCatalog.

Section WithEvaluation.
Variable results : Type.
Variable evaluate : cfg -> result results.

Local Abbreviation test := (Setup.test results evaluate).

(** X29.  [Trainer.test]: the evaluation sees a config with no data-loader
    workers; when it returns, the number of workers is what it was, the
    config is frozen if it had to be changed, and two warnings were logged
    in that case (none otherwise). *)
Theorem test_restores_num_workers (c : cfg) (r : results) :
  evaluate (evaluation_cfg c) = Ok r ->
  DATALOADER_NUM_WORKERS (evaluation_cfg c) = 0%Z
  /\ exists log,
       test c
       = (Ok tt,
          if (DATALOADER_NUM_WORKERS c =? 0)%Z then c else set_frozen c true,
          log)
       /\ length log = (if (DATALOADER_NUM_WORKERS c =? 0)%Z then 0 else 2)%nat.
Proof.
  intros Hev. unfold Setup.test. rewrite Hev. unfold evaluation_cfg.
  destruct (DATALOADER_NUM_WORKERS c =? 0)%Z eqn:E.
  - apply Z.eqb_eq in E. split; [exact E|]. eexists. split; reflexivity.
  - split; [reflexivity|]. eexists.
    split; [destruct c; reflexivity | reflexivity].
Qed.

(** X30.  [Trainer.test] has no handler around the evaluation: when it raises
    and the number of workers was not 0, the config is left frozen with 0
    workers. *)
Theorem failed_evaluation_leaves_zero_workers (c : cfg) (e : exn) :
  DATALOADER_NUM_WORKERS c <> 0%Z ->
  evaluate (evaluation_cfg c) = Raise e ->
  exists c' log,
    test c = (Raise e, c', log)
    /\ DATALOADER_NUM_WORKERS c' = 0%Z
    /\ DATALOADER_NUM_WORKERS c' <> DATALOADER_NUM_WORKERS c
    /\ is_frozen c' = true.
Proof.
  intros Hw Hev. unfold Setup.test. rewrite Hev. unfold evaluation_cfg.
  apply Z.eqb_neq in Hw. rewrite Hw.
  do 2 eexists. split; [reflexivity|]. cbn. apply Z.eqb_neq in Hw.
  repeat split; auto.
Qed.

End WithEvaluation.

(** *** The theorems at the toy configuration *)

Lemma from_config_needs_vid_dataset_witness :
  contains "vid" "coco_2017_train" = false
  /\ Setup.from_config toy_augmentation toy_build_augmentation ToyCrop
       toy_img_dir toy_cfg_without_vid false
     = Raise AssertionError
  /\ Setup.new_mapper toy_augmentation toy_build_augmentation ToyCrop
       toy_img_dir toy_cfg_without_vid true
     = Raise AssertionError.
Proof.
  split; [reflexivity|].
  assert (Hno : forall n, In n (DATASETS_TRAIN toy_cfg_without_vid) ->
                  ~ exists pre post, n = (pre ++ "vid" ++ post)%string).
  { intros n [<- | []] Hsub. apply contains_spec in Hsub. discriminate. }
  split.
  - apply (from_config_needs_vid_dataset toy_augmentation
             toy_build_augmentation ToyCrop toy_img_dir toy_cfg_without_vid
             false Hno).
  - apply (from_config_needs_vid_dataset toy_augmentation
             toy_build_augmentation ToyCrop toy_img_dir toy_cfg_without_vid
             true Hno).
Defined.

Lemma from_config_takes_last_vid_root_witness :
  DATASETS_TRAIN toy_cfg = ["vid_extra"; "det_train"; "vid_train"; "coco"]%string
  /\ toy_img_dir "vid_extra" = Ok "data/extra"%string
  /\ toy_img_dir "vid_train" = Ok "data/vid"%string
  /\ exists augs mapper,
       Setup.new_mapper toy_augmentation toy_build_augmentation ToyCrop
         toy_img_dir toy_cfg true
       = Ok (mapper, augs)
       /\ mapper = init true "BGR" (-9) 0 10 "data/vid"
       /\ key_frame_img mapper = None
       /\ augs = [ToyCrop "relative" [9 # 10; 9 # 10]; ToyResize; ToyFlip].
Proof.
  split; [reflexivity|]. split; [reflexivity|]. split; [reflexivity|].
  assert (Hbefore : forall m, In m ["vid_extra"; "det_train"]%string ->
                      contains "vid" m = true ->
                      exists d, toy_img_dir m = Ok d).
  { intros m [<- | [<- | []]] Hm; [now exists "data/extra"%string|].
    discriminate. }
  assert (Hafter : forall m, In m ["coco"]%string ->
                     contains "vid" m = false).
  { intros m [<- | []]. reflexivity. }
  destruct (from_config_takes_last_vid_root toy_augmentation
              toy_build_augmentation ToyCrop toy_img_dir toy_cfg true
              ["vid_extra"; "det_train"]%string ["coco"]%string "vid_train"
              "data/vid" (-9) 0 [] eq_refl Hbefore eq_refl eq_refl Hafter
              eq_refl)
    as (augs & mapper & Hnew & Hinit & Hcache & _ & Hcrop & _).
  exists augs, mapper. split; [exact Hnew|]. split; [exact Hinit|].
  split; [exact Hcache|]. exact (Hcrop eq_refl).
Defined.

Lemma from_config_root_comes_from_train_witness :
  exists a,
    Setup.from_config toy_augmentation toy_build_augmentation ToyCrop
      toy_img_dir toy_cfg false
    = Ok a
    /\ (exists n, In n (DATASETS_TRAIN toy_cfg)
                  /\ toy_img_dir n = Ok (arg_vid_image_root a))
    /\ arg_augmentations a = [ToyResize].
Proof.
  destruct (Setup.from_config toy_augmentation toy_build_augmentation ToyCrop
              toy_img_dir toy_cfg false) as [e | a] eqn:Hconf;
    [vm_compute in Hconf; discriminate|].
  exists a. split; [reflexivity|].
  destruct (from_config_root_comes_from_train toy_augmentation
              toy_build_augmentation ToyCrop toy_img_dir toy_cfg false a
              Hconf)
    as ((n & pre & post & Hin & _ & Hdir) & _ & Haugs).
  split; [exists n; split; assumption | exact (Haugs eq_refl)].
Defined.

Lemma test_restores_num_workers_witness :
  DATALOADER_NUM_WORKERS toy_cfg = 4%Z
  /\ toy_evaluate toy_cfg = Raise OSError
  /\ exists log,
       Setup.test unit toy_evaluate toy_cfg = (Ok tt, toy_cfg, log)
       /\ length log = 2%nat.
Proof.
  split; [reflexivity|]. split; [reflexivity|].
  destruct (test_restores_num_workers unit toy_evaluate toy_cfg tt eq_refl)
    as (_ & log & Htest & Hlog).
  exists log. split; [exact Htest | exact Hlog].
Defined.

Lemma failed_evaluation_leaves_zero_workers_witness :
  DATALOADER_NUM_WORKERS toy_cfg <> 0%Z
  /\ exists c' log,
       Setup.test unit (fun _ => Raise ValueError) toy_cfg
       = (Raise ValueError, c', log)
       /\ DATALOADER_NUM_WORKERS c' = 0%Z.
Proof.
  assert (Hw : DATALOADER_NUM_WORKERS toy_cfg <> 0%Z) by discriminate.
  split; [exact Hw|].
  destruct (failed_evaluation_leaves_zero_workers unit
              (fun _ => Raise ValueError) toy_cfg ValueError Hw eq_refl)
    as (c' & log & Htest & Hzero & _).
  exists c', log. split; [exact Htest | exact Hzero].
Defined.
End SetupFacts.
